(** * Vehicle tracking simulator: kinematic engine, route composer,
      sync channel and viewer-side reconciler

    A shallow embedding of [src/app/page.tsx] (GeoMath, RouteComposer,
    MotionEngine, Reconciler) and of the [useWebSocket] hook
    (SyncChannel), followed by the statements established about them.

    Modelling conventions.
    - A JavaScript number that is read from a constant, from user input
      or from a JSON payload is a real number ([R]): JSON carries
      neither NaN nor the infinities.  Arithmetic on such numbers is
      exact: rounding, overflow and the sign of zero are not modelled.
      The code computes in IEEE doubles.  Where rounding alone decides
      a result (the square root of [1 - a] in [calculateDistance] for
      points that are nearly antipodal, the sign of a difference of
      two nearly equal terms in [calculateBearing], a difference that
      equals a threshold), the double may differ from the real by more
      than a rounding error.  The statements are about the exact
      arithmetic; those that such inputs would make grossly wrong of
      the doubles (the pseudometric and the cardinal bearings) carry
      hypotheses that keep away from them.
    - A number computed by a division whose divisor may vanish is a
      [number]: a real, one of the two infinities, or NaN, with the
      IEEE-754 rules for the special values.
    - An optional field ([f?: T]) and a payload field that may be
      missing or null is an [option].
    - [Date.now()] and [Math.random()] are explicit arguments.
    - A call that throws (a property read on [undefined]) yields [None]. *)

From Stdlib Require Import Reals Lra Lia ZArith List Sorting.Sorted Permutation.
From stdpp Require Import gmap strings pretty.
From Stdlib Require Import Ascii.

Local Open Scope R_scope.

(** ** JavaScript numbers *)

Inductive number : Type :=
| Num (x : R)
| Infinity
| NegInfinity
| NaN.

Definition Rltb (x y : R) : bool := if Rlt_dec x y then true else false.
Definition Rleb (x y : R) : bool := if Rle_dec x y then true else false.
Definition Reqb (x y : R) : bool := if Req_dec_T x y then true else false.

(** [x + y] *)
Definition num_add (a b : number) : number :=
  match a, b with
  | NaN, _ | _, NaN => NaN
  | Num x, Num y => Num (x + y)
  | Infinity, NegInfinity | NegInfinity, Infinity => NaN
  | Infinity, _ | _, Infinity => Infinity
  | NegInfinity, _ | _, NegInfinity => NegInfinity
  end.

(** [-x] *)
Definition num_neg (a : number) : number :=
  match a with
  | Num x => Num (- x)
  | Infinity => NegInfinity
  | NegInfinity => Infinity
  | NaN => NaN
  end.

(** [x - y] *)
Definition num_sub (a b : number) : number := num_add a (num_neg b).

(** The infinity whose sign is the sign of [x]; NaN when [x] is zero. *)
Definition signed_infinity (x : R) : number :=
  if Rltb 0 x then Infinity else if Rltb x 0 then NegInfinity else NaN.

(** [x * y] *)
Definition num_mul (a b : number) : number :=
  match a, b with
  | NaN, _ | _, NaN => NaN
  | Num x, Num y => Num (x * y)
  | Num x, Infinity | Infinity, Num x => signed_infinity x
  | Num x, NegInfinity | NegInfinity, Num x => signed_infinity (- x)
  | Infinity, Infinity | NegInfinity, NegInfinity => Infinity
  | Infinity, NegInfinity | NegInfinity, Infinity => NegInfinity
  end.

(** [x / y] *)
Definition num_div (a b : number) : number :=
  match a, b with
  | NaN, _ | _, NaN => NaN
  | Num x, Num y => if Reqb y 0 then signed_infinity x else Num (x / y)
  | Num _, (Infinity | NegInfinity) => Num 0
  | Infinity, Num y => if Rltb y 0 then NegInfinity else Infinity
  | NegInfinity, Num y => if Rltb y 0 then Infinity else NegInfinity
  | (Infinity | NegInfinity), (Infinity | NegInfinity) => NaN
  end.

(** [x <= y]; every comparison with NaN is false. *)
Definition num_le (a b : number) : bool :=
  match a, b with
  | NaN, _ | _, NaN => false
  | Num x, Num y => Rleb x y
  | NegInfinity, _ | _, Infinity => true
  | _, _ => false
  end.

(** [x >= y] *)
Definition num_ge (a b : number) : bool := num_le b a.

(** [x < y] *)
Definition num_lt (a b : number) : bool :=
  match a, b with
  | NaN, _ | _, NaN => false
  | Num x, Num y => Rltb x y
  | Infinity, _ | _, NegInfinity => false
  | _, _ => true
  end.

(** [Math.min(x, y)]: NaN when either argument is NaN. *)
Definition Math_min (a b : number) : number :=
  match a, b with
  | NaN, _ | _, NaN => NaN
  | _, _ => if num_le a b then a else b
  end.

(** [Math.ceil(x)] on a finite number: the least integer not below [x]. *)
Definition Math_ceil (x : R) : Z := (- Int_part (- x))%Z.

(** Truthiness of a number: [0] and NaN are falsy. *)
Definition truthy (a : number) : bool :=
  match a with
  | Num x => negb (Reqb x 0)
  | NaN => false
  | Infinity | NegInfinity => true
  end.

(** Truthiness of a possibly missing finite number. *)
Definition truthyR (a : option R) : bool :=
  match a with
  | Some x => negb (Reqb x 0)
  | None => false
  end.

(** Truthiness of a possibly missing number. *)
Definition truthyN (a : option number) : bool :=
  match a with
  | Some x => truthy x
  | None => false
  end.

(** Truthiness of a possibly missing string: the empty string is falsy. *)
Definition truthyS (a : option string) : bool :=
  match a with
  | Some s => negb (String.eqb s "")
  | None => false
  end.

(** [a || b] for a possibly missing finite number and a default. *)
Definition orR (a : option R) (b : R) : R :=
  match a with
  | Some x => if Reqb x 0 then b else x
  | None => b
  end.

(** [a || b] where [a] may be missing and the result is a [number]. *)
Definition orN (a : option number) (b : number) : number :=
  match a with
  | Some x => if truthy x then x else b
  | None => b
  end.

(** [a || b] on strings. *)
Definition orS (a : option string) (b : string) : string :=
  match a with
  | Some s => if String.eqb s "" then b else s
  | None => b
  end.

(** ** Data model *)

(** [interface Waypoint]; the optional back reference [vehicle], which
    only the rendering layer reads, is left out. *)
Module Waypoint.
Record t : Type := mk { id : Z; name : string; lat : R; lng : R }.
End Waypoint.

(** [interface PathPoint] *)
Module PathPoint.
Record t : Type := mk {
  lat : R;
  lng : R;
  isWaypoint : option bool;
  waypointId : option Z
}.
End PathPoint.

(** The result of [new Date(ms).toISOString()], kept as the instant it
    renders. *)
Inductive isoString : Type := toISOString (ms : R).

(** The free-text [status] of the kinematics: a literal, or the template
    [`delayed (${n}s)`]. *)
Inductive label : Type :=
| Text (s : string)
| DelayedFor (n : Z).

(** [a || b] on labels: a template literal is never empty. *)
Definition orL (a : option label) (b : label) : label :=
  match a with
  | Some (Text s) => if String.eqb s "" then b else Text s
  | Some (DelayedFor n) => DelayedFor n
  | None => b
  end.

(** [interface SimulationData] *)
Module SimulationData.
Record t : Type := mk {
  avgSpeed : R;
  latitude : R;
  longitude : R;
  heading : number;
  status : label;
  timestamp : isoString;
  fuelLevel : R;
  engineStatus : bool;
  distanceTravelled : number;
  startTime : option R;
  currentLat : option number;
  currentLng : option number;
  targetLat : option R;
  targetLng : option R;
  progress : option number;
  pathIndex : option Z;
  delayStartTime : option R;
  isDelayed : option bool
}.
End SimulationData.

(** [interface Vehicle].  The declared type of [status] is the union
    ["idle" | "moving" | "stopped"], but a viewer stores whatever the
    payload carried, possibly nothing. *)
Module Vehicle.
Record t : Type := mk {
  id : Z;
  licensePlate : string;
  model : string;
  brand : string;
  type : string;
  currentWaypoint : option Z;
  targetWaypoint : option Z;
  speed : R;
  initialDelay : R;
  status : option string;
  simulationData : option SimulationData.t;
  plannedPath : option (list PathPoint.t)
}.
End Vehicle.

(** The dashboard counters. *)
Record Stats : Type := mkStats {
  totalVehicles : nat;
  activeVehicles : nat;
  completedJourneys : nat
}.

(** One entry of a position delta, as the producer builds it; every
    field but the id may be missing on arrival.  [speed] is not sent by
    the producer but is read by the merge. *)
Module PositionUpdate.
Record t : Type := mk {
  id : Z;
  licensePlate : option string;
  currentLat : option R;
  currentLng : option R;
  heading : option R;
  progress : option R;
  status : option string;
  distanceTravelled : option R;
  timestamp : option R;
  speed : option R
}.
End PositionUpdate.

(** ** GeoMath *)

(** [Math.atan2(y, x)] on finite arguments. *)
Definition Math_atan2 (y x : R) : R :=
  if Rltb 0 x then atan (y / x)
  else if Rltb x 0 then
    (if Rleb 0 y then atan (y / x) + PI else atan (y / x) - PI)
  else if Rltb 0 y then PI / 2
  else if Rltb y 0 then - (PI / 2)
  else 0.

(** [Math.sqrt(x)]; the engine only calls it on non-negative values. *)
Definition Math_sqrt (x : R) : R := sqrt x.

(** The integer part of [x], rounding toward zero. *)
Definition truncate (x : R) : Z :=
  if Rleb 0 x then Int_part x else (- Int_part (- x))%Z.

(** [x % y] for a non-zero finite [y]: the result has the sign of [x]. *)
Definition js_rem (x y : R) : R := x - y * IZR (truncate (x / y)).

(** [calculateDistance]: Haversine formula, in exact arithmetic.  In
    doubles [a] can exceed [1] by a rounding error when the points are
    antipodal or nearly so, and the code then returns NaN. *)
Definition calculateDistance (lat1 lng1 lat2 lng2 : R) : R :=
  let R_earth := 6371 in
  let dLat := ((lat2 - lat1) * PI) / 180 in
  let dLng := ((lng2 - lng1) * PI) / 180 in
  let a :=
    sin (dLat / 2) * sin (dLat / 2) +
    cos ((lat1 * PI) / 180) * cos ((lat2 * PI) / 180) *
    sin (dLng / 2) * sin (dLng / 2) in
  let c := 2 * Math_atan2 (Math_sqrt a) (Math_sqrt (1 - a)) in
  R_earth * c.

(** [calculateBearing], in exact arithmetic.  In doubles the sign of
    [x] is that of the real [x] only when the two terms differ by more
    than a rounding error. *)
Definition calculateBearing (lat1 lng1 lat2 lng2 : R) : R :=
  let dLng := ((lng2 - lng1) * PI) / 180 in
  let lat1Rad := (lat1 * PI) / 180 in
  let lat2Rad := (lat2 * PI) / 180 in
  let y := sin dLng * cos lat2Rad in
  let x := cos lat1Rad * sin lat2Rad - sin lat1Rad * cos lat2Rad * cos dLng in
  let bearing := (Math_atan2 y x * 180) / PI in
  js_rem (bearing + 360) 360.

(** ** RouteComposer *)

(** The comparator handed to [sort] in [findPathWaypoints]. *)
Definition compareBySourceDistance (source a b : Waypoint.t) : R :=
  let distA := calculateDistance (Waypoint.lat source) (Waypoint.lng source)
                                 (Waypoint.lat a) (Waypoint.lng a) in
  let distB := calculateDistance (Waypoint.lat source) (Waypoint.lng source)
                                 (Waypoint.lat b) (Waypoint.lng b) in
  distA - distB.

(** [Array.prototype.sort(compare)]: a stable sort; [b] goes before [a]
    exactly when [compare(b, a) < 0]. *)
Fixpoint sort_insert {A : Type} (compare : A -> A -> R) (a : A) (l : list A)
  : list A :=
  match l with
  | [] => [a]
  | b :: l' =>
      if Rltb (compare b a) 0 then b :: sort_insert compare a l'
      else a :: b :: l'
  end.

Definition Array_sort {A : Type} (compare : A -> A -> R) (l : list A) : list A :=
  foldr (sort_insert compare) [] l.

(** [findPathWaypoints] *)
Definition findPathWaypoints (source destination : Waypoint.t)
    (availableWaypoints : list Waypoint.t) : list Waypoint.t :=
  let maxIntermediatePoints := 2%nat in
  let directDistance :=
    calculateDistance (Waypoint.lat source) (Waypoint.lng source)
                      (Waypoint.lat destination) (Waypoint.lng destination) in
  if Rltb directDistance 5 then []
  else
    let candidateWaypoints :=
      List.filter (fun waypoint =>
        let distanceFromSource :=
          calculateDistance (Waypoint.lat source) (Waypoint.lng source)
                            (Waypoint.lat waypoint) (Waypoint.lng waypoint) in
        let distanceToDestination :=
          calculateDistance (Waypoint.lat waypoint) (Waypoint.lng waypoint)
                            (Waypoint.lat destination) (Waypoint.lng destination) in
        let totalDistance := distanceFromSource + distanceToDestination in
        Rltb totalDistance (directDistance * 1.3)) availableWaypoints in
    take maxIntermediatePoints
         (Array_sort (compareBySourceDistance source) candidateWaypoints).

(** The path point that stands for a waypoint. *)
Definition anchor (w : Waypoint.t) : PathPoint.t :=
  PathPoint.mk (Waypoint.lat w) (Waypoint.lng w) (Some true) (Some (Waypoint.id w)).

(** The inner loop of [calculateOptimalPath]: the points pushed for
    [j = from, ..., steps - 1], with [count] iterations left. *)
Fixpoint interpolate (current next : PathPoint.t) (steps : nat) (j count : nat)
  : list PathPoint.t :=
  match count with
  | O => []
  | S count' =>
      let ratio := INR j / INR steps in
      PathPoint.mk
        (PathPoint.lat current + (PathPoint.lat next - PathPoint.lat current) * ratio)
        (PathPoint.lng current + (PathPoint.lng next - PathPoint.lng current) * ratio)
        None None
      :: interpolate current next steps (S j) count'
  end.

(** The outer loop of [calculateOptimalPath] over consecutive anchors. *)
Fixpoint smooth (intermediatePoints : list PathPoint.t) : list PathPoint.t :=
  match intermediatePoints with
  | current :: ((next :: _) as rest) =>
      let steps := 5%nat in
      current :: interpolate current next steps 1 (steps - 1) ++ smooth rest
  | _ => []
  end.

(** [nearbyWaypoints] in [calculateOptimalPath]; [waypoints] is the
    component's waypoint list. *)
Definition nearbyWaypoints (waypoints : list Waypoint.t)
    (sourceWaypoint destinationWaypoint : Waypoint.t) : list Waypoint.t :=
  List.filter (fun w =>
    negb (Z.eqb (Waypoint.id w) (Waypoint.id sourceWaypoint)) &&
    negb (Z.eqb (Waypoint.id w) (Waypoint.id destinationWaypoint))) waypoints.

(** [pathWaypoints] in [calculateOptimalPath]: the intermediate
    waypoints of the route. *)
Definition pathWaypoints (waypoints : list Waypoint.t)
    (sourceWaypoint destinationWaypoint : Waypoint.t) : list Waypoint.t :=
  findPathWaypoints sourceWaypoint destinationWaypoint
    (nearbyWaypoints waypoints sourceWaypoint destinationWaypoint).

(** [calculateOptimalPath] *)
Definition calculateOptimalPath (waypoints : list Waypoint.t)
    (sourceWaypoint destinationWaypoint : Waypoint.t) : list PathPoint.t :=
  let intermediatePoints :=
    anchor sourceWaypoint
    :: map anchor (pathWaypoints waypoints sourceWaypoint destinationWaypoint)
    ++ [anchor destinationWaypoint] in
  smooth intermediatePoints ++ [anchor destinationWaypoint].

(** ** MotionEngine *)

(** The distance between two path points. *)
Definition pointDistance (p q : PathPoint.t) : R :=
  calculateDistance (PathPoint.lat p) (PathPoint.lng p)
                    (PathPoint.lat q) (PathPoint.lng q).

(** [calculatePathDistance]: the loop, with the running total. *)
Fixpoint pathDistanceFrom (totalDistance : R) (path : list PathPoint.t) : R :=
  match path with
  | p :: ((q :: _) as rest) => pathDistanceFrom (totalDistance + pointDistance p q) rest
  | _ => totalDistance
  end.

Definition calculatePathDistance (path : list PathPoint.t) : R :=
  pathDistanceFrom 0 path.

(** The array [segmentDistances] built by [getPositionAlongPath]. *)
Fixpoint segmentDistances (path : list PathPoint.t) : list R :=
  match path with
  | p :: ((q :: _) as rest) => pointDistance p q :: segmentDistances rest
  | _ => []
  end.

(** The value returned by [getPositionAlongPath]. *)
Record Position : Type := mkPosition {
  pos_lat : number;
  pos_lng : number;
  pos_heading : option R
}.

(** The point a position sits at, without heading. *)
Definition atPoint (p : PathPoint.t) : Position :=
  mkPosition (Num (PathPoint.lat p)) (Num (PathPoint.lng p)) None.

(** The second loop of [getPositionAlongPath]: [segments] are the
    distances still to visit and [path] the points from the current
    index on.  [None] when the loop ends without returning. *)
Fixpoint findSegment (segments : list R) (path : list PathPoint.t)
    (accumulatedDistance : R) (targetDistance : number) : option Position :=
  match segments, path with
  | d :: segments', startPoint :: ((endPoint :: _) as rest) =>
      if num_ge (Num (accumulatedDistance + d)) targetDistance then
        let segmentProgress :=
          num_div (num_sub targetDistance (Num accumulatedDistance)) (Num d) in
        let lat :=
          num_add (Num (PathPoint.lat startPoint))
            (num_mul (Num (PathPoint.lat endPoint - PathPoint.lat startPoint))
                     segmentProgress) in
        let lng :=
          num_add (Num (PathPoint.lng startPoint))
            (num_mul (Num (PathPoint.lng endPoint - PathPoint.lng startPoint))
                     segmentProgress) in
        let heading :=
          calculateBearing (PathPoint.lat startPoint) (PathPoint.lng startPoint)
                           (PathPoint.lat endPoint) (PathPoint.lng endPoint) in
        Some (mkPosition lat lng (Some heading))
      else findSegment segments' rest (accumulatedDistance + d) targetDistance
  | _, _ => None
  end.

(** [getPositionAlongPath]; [None] when [path] is empty, where the
    source reads a property of [undefined]. *)
Definition getPositionAlongPath (path : list PathPoint.t) (progress : number)
  : option Position :=
  if num_le progress (Num 0) then atPoint <$> head path
  else if num_ge progress (Num 1) then atPoint <$> last path
  else
    let totalDistance := fold_left Rplus (segmentDistances path) 0 in
    let targetDistance := num_mul (Num totalDistance) progress in
    match findSegment (segmentDistances path) path 0 targetDistance with
    | Some position => Some position
    | None => atPoint <$> last path
    end.

(** ** Messages *)

(** [SimulationStateMessage], one constructor per [type], with the
    fields of [data] that a handler reads.  The legacy
    [LIVE_LOCATION_UPDATE] kind is not modelled. *)
Inductive SimulationStateMessage : Type :=
| SIMULATION_STARTED (vehicles : option (list Vehicle.t)) (playbackSpeed : option R)
| SIMULATION_STOPPED (vehicles : option (list Vehicle.t))
| SIMULATION_PAUSED
| SIMULATION_RESUMED
| VEHICLE_UPDATE (vehicles : option (list Vehicle.t)) (stats : option Stats)
| LIVE_POSITION_UPDATE (vehicles : option (list PositionUpdate.t))
                       (stats : option Stats)
| SIMULATION_STATE (isRunning : bool) (isPaused : option bool)
                   (vehicles : option (list Vehicle.t))
                   (playbackSpeed : option R) (stats : option Stats).

(** ** MotionEngine: the tick of one vehicle *)

(** What one vehicle's update does besides returning the new vehicle.
    The [setWaypoints] call of the completion branch only refreshes the
    back reference that [Waypoint.t] leaves out. *)
Inductive Effect : Type :=
| toast (title description : string)
| sendNotification (title content type : string)
| broadcastSimulationUpdate (update : SimulationStateMessage).

(** [{ ...vehicle, status, simulationData }] *)
Definition withMotion (vehicle : Vehicle.t) (status : option string)
    (simulationData : SimulationData.t) : Vehicle.t :=
  Vehicle.mk (Vehicle.id vehicle) (Vehicle.licensePlate vehicle)
    (Vehicle.model vehicle) (Vehicle.brand vehicle) (Vehicle.type vehicle)
    (Vehicle.currentWaypoint vehicle) (Vehicle.targetWaypoint vehicle)
    (Vehicle.speed vehicle) (Vehicle.initialDelay vehicle)
    status (Some simulationData) (Vehicle.plannedPath vehicle).

(** [{ ...vehicle, currentWaypoint, status, simulationData }] *)
Definition withArrival (vehicle : Vehicle.t) (currentWaypoint : option Z)
    (status : option string) (simulationData : SimulationData.t) : Vehicle.t :=
  Vehicle.mk (Vehicle.id vehicle) (Vehicle.licensePlate vehicle)
    (Vehicle.model vehicle) (Vehicle.brand vehicle) (Vehicle.type vehicle)
    currentWaypoint (Vehicle.targetWaypoint vehicle)
    (Vehicle.speed vehicle) (Vehicle.initialDelay vehicle)
    status (Some simulationData) (Vehicle.plannedPath vehicle).

(** [{ ...vehicle, status: "idle" }] *)
Definition withIdle (vehicle : Vehicle.t) : Vehicle.t :=
  Vehicle.mk (Vehicle.id vehicle) (Vehicle.licensePlate vehicle)
    (Vehicle.model vehicle) (Vehicle.brand vehicle) (Vehicle.type vehicle)
    (Vehicle.currentWaypoint vehicle) (Vehicle.targetWaypoint vehicle)
    (Vehicle.speed vehicle) (Vehicle.initialDelay vehicle)
    (Some "idle"%string) (Vehicle.simulationData vehicle)
    (Vehicle.plannedPath vehicle).

(** [{ ...simulationData, status }] of the waiting branch. *)
Definition stillDelayed (sd : SimulationData.t) (status : label) : SimulationData.t :=
  let '(SimulationData.mk avgSpeed latitude longitude heading _ timestamp
          fuelLevel engineStatus distanceTravelled startTime currentLat
          currentLng targetLat targetLng progress pathIndex delayStartTime
          isDelayed) := sd in
  SimulationData.mk avgSpeed latitude longitude heading status timestamp
    fuelLevel engineStatus distanceTravelled startTime currentLat currentLng
    targetLat targetLng progress pathIndex delayStartTime isDelayed.

(** [{ ...simulationData, isDelayed: false, status: "moving",
       startTime: currentTime }] *)
Definition delayEnded (sd : SimulationData.t) (currentTime : R) : SimulationData.t :=
  let '(SimulationData.mk avgSpeed latitude longitude heading _ timestamp
          fuelLevel engineStatus distanceTravelled _ currentLat
          currentLng targetLat targetLng progress pathIndex delayStartTime
          _) := sd in
  SimulationData.mk avgSpeed latitude longitude heading (Text "moving") timestamp
    fuelLevel engineStatus distanceTravelled (Some currentTime) currentLat
    currentLng targetLat targetLng progress pathIndex delayStartTime
    (Some false).

(** The kinematics written when the journey completes. *)
Definition arrived (sd : SimulationData.t) (speed : R) (finalPoint : PathPoint.t)
    (currentTime totalDistance : R) : SimulationData.t :=
  let '(SimulationData.mk _ _ _ heading _ _
          fuelLevel engineStatus _ startTime _
          _ targetLat targetLng _ pathIndex delayStartTime
          isDelayed) := sd in
  SimulationData.mk speed (PathPoint.lat finalPoint) (PathPoint.lng finalPoint)
    heading (Text "completed") (toISOString currentTime)
    fuelLevel engineStatus (Num totalDistance) startTime
    (Some (Num (PathPoint.lat finalPoint))) (Some (Num (PathPoint.lng finalPoint)))
    targetLat targetLng (Some (Num 1)) pathIndex delayStartTime isDelayed.

(** The kinematics written while the vehicle is under way. *)
Definition advanced (sd : SimulationData.t) (currentLat currentLng heading
    progress distanceTravelled : number) : SimulationData.t :=
  let '(SimulationData.mk avgSpeed latitude longitude _ status timestamp
          fuelLevel engineStatus _ startTime _
          _ targetLat targetLng _ pathIndex delayStartTime
          isDelayed) := sd in
  SimulationData.mk avgSpeed latitude longitude heading status timestamp
    fuelLevel engineStatus distanceTravelled startTime (Some currentLat)
    (Some currentLng) targetLat targetLng (Some progress) pathIndex
    delayStartTime isDelayed.

(** [journeyDuration], in milliseconds. *)
Definition journeyDuration (totalDistance speed playbackSpeed : R) : number :=
  num_div
    (num_mul (num_div (Num totalDistance) (Num (speed / 3600))) (Num 1000))
    (Num playbackSpeed).

(** [overallProgress] *)
Definition overallProgress (elapsedTime : R) (duration : number) : number :=
  Math_min (num_div (Num elapsedTime) duration) (Num 1).

(** The body of the [prev.map] callback of the simulation loop, for one
    vehicle.  [fromStart] tells the loop created by [startSimulation]
    from the one created by [restartSimulationWithNewSpeed]: only the
    former sends notifications.  [wsConnected] and [playbackSpeed] are
    the values the loop captured when it was created. *)
Definition tickVehicle (fromStart wsConnected : bool) (playbackSpeed : R)
    (currentTime : R) (vehicle : Vehicle.t) : option (Vehicle.t * list Effect) :=
  match Vehicle.simulationData vehicle, Vehicle.plannedPath vehicle with
  | Some sd, Some path =>
      if bool_decide (SimulationData.isDelayed sd = Some true)
         && truthyR (SimulationData.delayStartTime sd) then
        let delayElapsed :=
          currentTime - default 0 (SimulationData.delayStartTime sd) in
        let delayDuration := Vehicle.initialDelay vehicle * 1000 in
        if Rltb delayElapsed delayDuration then
          Some (withMotion vehicle (Some "idle"%string)
                  (stillDelayed sd
                     (DelayedFor (Math_ceil ((delayDuration - delayElapsed) / 1000)))),
                [])
        else
          Some (withMotion vehicle (Some "moving"%string) (delayEnded sd currentTime),
                if fromStart && wsConnected then
                  [sendNotification "Vehicle Started Moving"
                     (String.append "Vehicle "
                        (String.append (Vehicle.licensePlate vehicle)
                                       " has started its journey"))
                     "SUCCESS"]
                else [])
      else if bool_decide (Vehicle.status vehicle = Some "moving"%string)
              && truthyR (SimulationData.startTime sd) then
        let elapsedTime := currentTime - default 0 (SimulationData.startTime sd) in
        let totalDistance := calculatePathDistance path in
        let duration :=
          journeyDuration totalDistance (Vehicle.speed vehicle) playbackSpeed in
        let progress := overallProgress elapsedTime duration in
        if num_ge progress (Num 1) then
          finalPoint ← last path;
          Some (withArrival vehicle (Vehicle.targetWaypoint vehicle)
                  (Some "stopped"%string)
                  (arrived sd (Vehicle.speed vehicle) finalPoint currentTime
                           totalDistance),
                (if fromStart && wsConnected then
                   [sendNotification "Journey Complete"
                      (String.append "Vehicle "
                         (String.append (Vehicle.licensePlate vehicle)
                                        " has reached its destination"))
                      "SUCCESS"]
                 else [])
                ++ [toast "Journey Complete"
                      (String.append "Vehicle "
                         (String.append (Vehicle.licensePlate vehicle)
                                        " reached destination"))])
        else
          pathPosition ← getPositionAlongPath path progress;
          let heading := Num (orR (pos_heading pathPosition) 0) in
          Some (withMotion vehicle (Vehicle.status vehicle)
                  (advanced sd (pos_lat pathPosition) (pos_lng pathPosition)
                            heading progress
                            (num_mul (Num totalDistance) progress)),
                [])
      else Some (vehicle, [])
  | _, _ => Some (vehicle, [])
  end.

(** The [vehicles.map] callback of [startSimulation]; [random] is the
    value of [Math.random()]. *)
Definition initializeVehicle (currentTime random : R) (vehicle : Vehicle.t)
  : Vehicle.t :=
  match Vehicle.plannedPath vehicle with
  | Some (first :: _) =>
      let hasDelay := Rltb 0 (Vehicle.initialDelay vehicle) in
      withMotion vehicle
        (Some (if hasDelay then "idle" else "moving")%string)
        (SimulationData.mk
           (Vehicle.speed vehicle)
           (PathPoint.lat first) (PathPoint.lng first)
           (Num 0)
           (Text (if hasDelay then "delayed" else "moving"))
           (toISOString currentTime)
           (random * 50 + 50)
           true
           (Num 0)
           (Some (if hasDelay
                  then currentTime + Vehicle.initialDelay vehicle * 1000
                  else currentTime))
           (Some (Num (PathPoint.lat first))) (Some (Num (PathPoint.lng first)))
           None None
           (Some (Num 0))
           (Some 0%Z)
           (if hasDelay then Some currentTime else None)
           (Some hasDelay))
  | _ => vehicle
  end.

(** ** Reconciler *)

(** [existingVehiclesMap.set(vehicle.id, vehicle)] *)
Definition recordVehicle (m : gmap Z Vehicle.t) (vehicle : Vehicle.t)
  : gmap Z Vehicle.t :=
  <[Vehicle.id vehicle := vehicle]> m.

(** [existingVehiclesMap]: a [Map] filled by [set] in roster order. *)
Definition existingVehiclesMap (prevVehicles : list Vehicle.t) : gmap Z Vehicle.t :=
  foldl recordVehicle ∅ prevVehicles.

(** The kinematics of a merged vehicle; [now] is [Date.now()]. *)
Definition mergedSimulationData (now : R) (existing : option SimulationData.t)
    (positionUpdate : PositionUpdate.t) (currentLat currentLng : R)
  : SimulationData.t :=
  SimulationData.mk
    (orR (SimulationData.avgSpeed <$> existing)
         (orR (PositionUpdate.speed positionUpdate) 50))
    currentLat currentLng
    (orN (Num <$> PositionUpdate.heading positionUpdate)
         (orN (SimulationData.heading <$> existing) (Num 0)))
    (orL (Text <$> PositionUpdate.status positionUpdate)
         (orL (SimulationData.status <$> existing) (Text "moving")))
    (toISOString (orR (PositionUpdate.timestamp positionUpdate) now))
    (orR (SimulationData.fuelLevel <$> existing) 75)
    true
    (orN (Num <$> PositionUpdate.distanceTravelled positionUpdate)
         (orN (SimulationData.distanceTravelled <$> existing) (Num 0)))
    (existing ≫= SimulationData.startTime)
    (Some (Num currentLat)) (Some (Num currentLng))
    (existing ≫= SimulationData.targetLat)
    (existing ≫= SimulationData.targetLng)
    (Some (orN (Num <$> PositionUpdate.progress positionUpdate)
               (orN (existing ≫= SimulationData.progress) (Num 0))))
    (existing ≫= SimulationData.pathIndex)
    (existing ≫= SimulationData.delayStartTime)
    (existing ≫= SimulationData.isDelayed).

(** The kinematics of a vehicle created from a delta entry. *)
Definition placeholderSimulationData (now : R) (positionUpdate : PositionUpdate.t)
    (currentLat currentLng : R) : SimulationData.t :=
  SimulationData.mk
    50 currentLat currentLng
    (Num (orR (PositionUpdate.heading positionUpdate) 0))
    (Text (orS (PositionUpdate.status positionUpdate) "moving"))
    (toISOString (orR (PositionUpdate.timestamp positionUpdate) now))
    75 true
    (Num (orR (PositionUpdate.distanceTravelled positionUpdate) 0))
    None
    (Some (Num currentLat)) (Some (Num currentLng))
    None None
    (Some (Num (orR (PositionUpdate.progress positionUpdate) 0)))
    None None None.

(** [positionUpdate.licensePlate || `Vehicle-${positionUpdate.id}`] *)
Definition placeholderPlate (positionUpdate : PositionUpdate.t) : string :=
  orS (PositionUpdate.licensePlate positionUpdate)
      (String.append "Vehicle-" (pretty (PositionUpdate.id positionUpdate))).

(** The callback of [message.data.vehicles.map] in the
    [LIVE_POSITION_UPDATE] case; [None] is [undefined]. *)
Definition applyPositionUpdate (now : R) (existingVehicles : gmap Z Vehicle.t) (positionUpdate : PositionUpdate.t)
  : option Vehicle.t :=
  let existingVehicle := existingVehicles !! PositionUpdate.id positionUpdate in
  let usable :=
    truthyR (PositionUpdate.currentLat positionUpdate) &&
    truthyR (PositionUpdate.currentLng positionUpdate) in
  let currentLat := default 0 (PositionUpdate.currentLat positionUpdate) in
  let currentLng := default 0 (PositionUpdate.currentLng positionUpdate) in
  match existingVehicle with
  | Some existing =>
      if usable then
        Some (Vehicle.mk
                (Vehicle.id existing)
                (orS (PositionUpdate.licensePlate positionUpdate)
                     (Vehicle.licensePlate existing))
                (Vehicle.model existing) (Vehicle.brand existing)
                (Vehicle.type existing)
                (Vehicle.currentWaypoint existing)
                (Vehicle.targetWaypoint existing)
                (Vehicle.speed existing) (Vehicle.initialDelay existing)
                (PositionUpdate.status positionUpdate)
                (Some (mergedSimulationData now (Vehicle.simulationData existing)
                         positionUpdate currentLat currentLng))
                (Vehicle.plannedPath existing))
      else Some existing
  | None =>
      if usable then
        Some (Vehicle.mk
                (PositionUpdate.id positionUpdate)
                (placeholderPlate positionUpdate)
                "Unknown Model" "Unknown Brand" "Unknown Type"
                None None 50 0
                (Some (orS (PositionUpdate.status positionUpdate) "moving"))
                (Some (placeholderSimulationData now positionUpdate
                         currentLat currentLng))
                (Some []))
      else None
  end.

(** [updatedVehicles.filter((v) => v && v.id)] *)
Definition validUpdatedVehicles (updatedVehicles : list (option Vehicle.t))
  : list Vehicle.t :=
  omap (fun v => v ≫= fun vehicle =>
          if Z.eqb (Vehicle.id vehicle) 0 then None else Some vehicle)
       updatedVehicles.

(** The [setVehicles] updater of the [LIVE_POSITION_UPDATE] case. *)
Definition applyLivePositionUpdate (now : R)
    (updates : option (list PositionUpdate.t)) (prevVehicles : list Vehicle.t)
  : list Vehicle.t :=
  let existingVehicles := existingVehiclesMap prevVehicles in
  let updatedVehicles :=
    match updates with
    | Some l => map (applyPositionUpdate now existingVehicles) l
    | None => []
    end in
  validUpdatedVehicles updatedVehicles.

(** ** Session state *)

Inductive UserType : Type := admin | user.

(** A live simulation loop, with what its closure captured when it was
    created. *)
Record Loop : Type := mkLoop {
  loop_fromStart : bool;
  loop_playbackSpeed : R;
  loop_wsConnected : bool;
  loop_userType : option UserType
}.

(** The state of the [VehicleSimulator] component that the engine and
    the reconciler read or write.  [simulationInterval] is [None] when
    no loop is live.  The dashboard counters are derived from [vehicles]
    and are not kept. *)
Record State : Type := mkState {
  userType : option UserType;
  wsConnected : bool;
  vehicles : list Vehicle.t;
  isSimulationRunning : bool;
  isPaused : bool;
  playbackSpeed : R;
  isReceivingSimulation : bool;
  simulationInterval : option Loop
}.

(** [userType === "user"] *)
Definition isUserType (u : option UserType) : bool :=
  match u with Some user => true | _ => false end.

(** [userType === "admin"] *)
Definition isAdminType (u : option UserType) : bool :=
  match u with Some admin => true | _ => false end.

Definition is_user (s : State) : bool := isUserType (userType s).

Definition is_admin (s : State) : bool := isAdminType (userType s).

(** [handleSimulationUpdate] as the render that held the state
    [render] created it, called when the state is [s]; toasts and
    logging are left out.  The socket client calls the
    [onSimulationUpdate] of the render in which it was built, and the
    hook builds a client only when [enabled] or [reconnectAttempts]
    has changed ([connect] is memoised on these two): the tests on
    [userType] and [isReceivingSimulation] read the state of that
    render, while the setters and the [setVehicles] updaters act on
    the state at the call.  The legacy [LIVE_LOCATION_UPDATE] case,
    which spreads partial objects into the kinematics, is not
    modelled. *)
Definition handleSimulationUpdateOf (render : State) (now : R)
    (message : SimulationStateMessage) (s : State) : State :=
  match message with
  | SIMULATION_STARTED vs speed =>
      if is_user render then
        mkState (userType s) (wsConnected s) (default [] vs) true false
          (orR speed 1) true (simulationInterval s)
      else s
  | SIMULATION_STOPPED _ =>
      if is_user render then
        mkState (userType s) (wsConnected s) (map withIdle (vehicles s))
          false false (playbackSpeed s) false (simulationInterval s)
      else s
  | SIMULATION_PAUSED =>
      if is_user render then
        mkState (userType s) (wsConnected s) (vehicles s)
          (isSimulationRunning s) true (playbackSpeed s)
          (isReceivingSimulation s) (simulationInterval s)
      else s
  | SIMULATION_RESUMED =>
      if is_user render then
        mkState (userType s) (wsConnected s) (vehicles s)
          (isSimulationRunning s) false (playbackSpeed s)
          (isReceivingSimulation s) (simulationInterval s)
      else s
  | VEHICLE_UPDATE vs _ =>
      if is_user render && isReceivingSimulation render then
        mkState (userType s) (wsConnected s) (default [] vs)
          (isSimulationRunning s) (isPaused s) (playbackSpeed s)
          (isReceivingSimulation s) (simulationInterval s)
      else s
  | LIVE_POSITION_UPDATE updates _ =>
      if is_user render && isReceivingSimulation render then
        mkState (userType s) (wsConnected s)
          (applyLivePositionUpdate now updates (vehicles s))
          (isSimulationRunning s) (isPaused s) (playbackSpeed s)
          (isReceivingSimulation s) (simulationInterval s)
      else s
  | SIMULATION_STATE isRunning paused vs speed _ =>
      if is_user render && isRunning then
        mkState (userType s) (wsConnected s) (default [] vs)
          isRunning (default false paused) (orR speed 1) true
          (simulationInterval s)
      else s
  end.

(** The handler of the render that holds [s] itself: the client was
    built in the current render. *)
Definition handleSimulationUpdate (now : R)
    (message : SimulationStateMessage) (s : State) : State :=
  handleSimulationUpdateOf s now message s.

(** *** Producer controls *)

(** [JSON.stringify] of a number: the special values become [null]. *)
Definition toJSON (a : number) : option R :=
  match a with
  | Num x => Some x
  | _ => None
  end.

Definition has_status (status : string) (vehicle : Vehicle.t) : bool :=
  bool_decide (Vehicle.status vehicle = Some status).

(** [currentStats] *)
Definition currentStats (updatedVehicles : list Vehicle.t) : Stats :=
  mkStats (length updatedVehicles)
          (length (List.filter (has_status "moving") updatedVehicles))
          (length (List.filter (has_status "stopped") updatedVehicles)).

(** [positionUpdates]: the entries of a position delta, as they arrive
    after serialisation. *)
Definition positionUpdates (now : R) (updatedVehicles : list Vehicle.t)
  : list PositionUpdate.t :=
  map (fun vehicle =>
         let sd := Vehicle.simulationData vehicle in
         PositionUpdate.mk
           (Vehicle.id vehicle)
           (Some (Vehicle.licensePlate vehicle))
           ((sd ≫= SimulationData.currentLat) ≫= toJSON)
           ((sd ≫= SimulationData.currentLng) ≫= toJSON)
           (toJSON (orN (SimulationData.heading <$> sd) (Num 0)))
           (toJSON (orN (sd ≫= SimulationData.progress) (Num 0)))
           (Vehicle.status vehicle)
           (toJSON (orN (SimulationData.distanceTravelled <$> sd) (Num 0)))
           (Some now)
           None)
      (List.filter (fun v =>
         has_status "moving" v &&
         truthyN (Vehicle.simulationData v ≫= SimulationData.currentLat) &&
         truthyN (Vehicle.simulationData v ≫= SimulationData.currentLng))
         updatedVehicles).

(** One firing of the simulation loop: the [setVehicles] updater and the
    broadcasts that follow it.  [random] is [Math.random()].  Nothing
    happens when no loop is live; [None] when an update throws. *)
Definition tick (currentTime random : R) (s : State) : option (State * list Effect) :=
  match simulationInterval s with
  | None => Some (s, [])
  | Some loop =>
      results ← mapM (M := option)
                   (tickVehicle (loop_fromStart loop) (loop_wsConnected loop)
                                (loop_playbackSpeed loop) currentTime)
                   (vehicles s);
      let updatedVehicles := map fst results in
      let broadcasts :=
        if loop_wsConnected loop
           && isAdminType (loop_userType loop) then
          if loop_fromStart loop then
            (match positionUpdates currentTime updatedVehicles with
             | [] => []
             | updates =>
                 [broadcastSimulationUpdate
                    (LIVE_POSITION_UPDATE (Some updates)
                       (Some (currentStats updatedVehicles)))]
             end)
            ++ (if Rltb random 0.1 then
                  [broadcastSimulationUpdate
                     (VEHICLE_UPDATE (Some updatedVehicles)
                        (Some (currentStats updatedVehicles)))]
                else [])
          else
            [broadcastSimulationUpdate
               (VEHICLE_UPDATE (Some updatedVehicles)
                  (Some (currentStats updatedVehicles)))]
        else [] in
      Some (mkState (userType s) (wsConnected s) updatedVehicles
              (isSimulationRunning s) (isPaused s) (playbackSpeed s)
              (isReceivingSimulation s) (simulationInterval s),
            concat (map snd results) ++ broadcasts)
  end.

(** [startSimulation]; [random i] is the value [Math.random()] returns
    for the vehicle at index [i]. *)
Definition startSimulation (currentTime : R) (random : nat -> R) (s : State)
  : State * list Effect :=
  if negb (is_admin s) then
    (s, [toast "Access Denied" "Only admins can start simulations"])
  else if bool_decide (length (vehicles s) = 0%nat) then
    (s, [toast "Error" "No vehicles to simulate"])
  else
    let initializedVehicles :=
      imap (fun i vehicle => initializeVehicle currentTime (random i) vehicle)
           (vehicles s) in
    (mkState (userType s) (wsConnected s) initializedVehicles
       true (isPaused s) (playbackSpeed s) (isReceivingSimulation s)
       (Some (mkLoop true (playbackSpeed s) (wsConnected s) (userType s))),
     (if wsConnected s then
        [sendNotification "Simulation Started"
           (String.append "Vehicle simulation has been started with "
              (String.append (pretty (length (vehicles s))) " vehicles"))
           "INFO";
         broadcastSimulationUpdate
           (SIMULATION_STARTED (Some initializedVehicles) (Some (playbackSpeed s)))]
      else [])
     ++ [toast "Simulation Started"
           "Vehicles will start according to their delay settings"]).

(** [restartSimulationWithNewSpeed]: the previous loop is cleared and a
    new one is created, which captures the current multiplier. *)
Definition restartSimulationWithNewSpeed (s : State) : State :=
  mkState (userType s) (wsConnected s) (vehicles s)
    (isSimulationRunning s) (isPaused s) (playbackSpeed s)
    (isReceivingSimulation s)
    (Some (mkLoop false (playbackSpeed s) (wsConnected s) (userType s))).

(** [pauseSimulation] *)
Definition pauseSimulation (s : State) : State * list Effect :=
  if negb (is_admin s) then
    (s, [toast "Access Denied" "Only admins can pause simulations"])
  else
    (mkState (userType s) (wsConnected s) (vehicles s)
       (isSimulationRunning s) true (playbackSpeed s)
       (isReceivingSimulation s) None,
     (if wsConnected s then [broadcastSimulationUpdate SIMULATION_PAUSED] else [])
     ++ [toast "Simulation Paused" "Simulation has been paused"]).

(** [resumeSimulation] *)
Definition resumeSimulation (s : State) : State * list Effect :=
  if negb (is_admin s) then
    (s, [toast "Access Denied" "Only admins can resume simulations"])
  else
    (restartSimulationWithNewSpeed
       (mkState (userType s) (wsConnected s) (vehicles s)
          (isSimulationRunning s) false (playbackSpeed s)
          (isReceivingSimulation s) (simulationInterval s)),
     (if wsConnected s then [broadcastSimulationUpdate SIMULATION_RESUMED] else [])
     ++ [toast "Simulation Resumed" "Simulation has been resumed"]).

(** [stopSimulation] *)
Definition stopSimulation (s : State) : State * list Effect :=
  if negb (is_admin s) then
    (s, [toast "Access Denied" "Only admins can stop simulations"])
  else
    let stoppedVehicles := map withIdle (vehicles s) in
    (mkState (userType s) (wsConnected s) stoppedVehicles
       false false (playbackSpeed s) (isReceivingSimulation s) None,
     (if wsConnected s then
        [broadcastSimulationUpdate (SIMULATION_STOPPED (Some stoppedVehicles));
         sendNotification "Simulation Stopped"
           "Vehicle simulation has been stopped by admin" "WARNING"]
      else [])
     ++ [toast "Simulation Stopped" "All vehicles have been stopped"]).

(** [changePlaybackSpeed], followed by the effect that React runs when
    [playbackSpeed] has changed.  The handler restarts the loop from the
    render it was created in, the effect from the next one, so that the
    loop left running has captured [speed].  The toasts, one of which
    renders the multiplier, are left out. *)
Definition changePlaybackSpeed (speed : R) (s : State) : State :=
  if negb (is_admin s) then s
  else
    let restarted :=
      if isSimulationRunning s && negb (isPaused s)
      then restartSimulationWithNewSpeed s else s in
    let updated :=
      mkState (userType s) (wsConnected s) (vehicles s)
        (isSimulationRunning s) (isPaused s) speed
        (isReceivingSimulation s) (simulationInterval restarted) in
    if isSimulationRunning s && negb (isPaused s)
    then restartSimulationWithNewSpeed updated else updated.

(** ** SyncChannel: the [useWebSocket] hook *)

Definition maxReconnectAttempts : nat := 10.
Definition baseReconnectDelay : Z := 1000.

(** What the callbacks created during one render have captured. *)
Record Render : Type := mkRender {
  r_enabled : bool;
  r_reconnectAttempts : nat
}.

(** A pending [setTimeout(() => createConnection(), delay)]. *)
Record Timeout : Type := mkTimeout {
  timeout_delay : Z;
  timeout_render : Render
}.

(** The state and the refs of the hook.  [clientRef] holds the render
    whose [createConnection] built the client: its handlers read that
    render's [reconnectAttempts].  A client that [cleanup] has dropped
    delivers no further event. *)
Record Hook : Type := mkHook {
  enabled : bool;
  isConnected : bool;
  connectionError : option string;
  reconnectAttempts : nat;
  reconnectTimeoutRef : option Timeout;
  clientRef : option Render
}.

Definition currentRender (h : Hook) : Render :=
  mkRender (enabled h) (reconnectAttempts h).

(** [Math.min(baseReconnectDelay * Math.pow(2, reconnectAttempts), 30000)] *)
Definition reconnectDelay (attempts : nat) : Z :=
  Z.min (baseReconnectDelay * 2 ^ Z.of_nat attempts) 30000.

(** [cleanup] *)
Definition cleanup (h : Hook) : Hook :=
  mkHook (enabled h) (isConnected h) (connectionError h) (reconnectAttempts h)
         None None.

(** [createConnection]: a new client is built and activated. *)
Definition createConnection (r : Render) (h : Hook) : Hook :=
  if negb (r_enabled r) then h
  else mkHook (enabled h) (isConnected h) (connectionError h)
              (reconnectAttempts h) (reconnectTimeoutRef h) (Some r).

(** [connect] *)
Definition connect (r : Render) (h : Hook) : Hook :=
  if negb (r_enabled r) then h
  else
    let h := cleanup h in
    let delay := reconnectDelay (r_reconnectAttempts r) in
    if (0 <? r_reconnectAttempts r)%nat then
      mkHook (enabled h) (isConnected h) (connectionError h)
             (reconnectAttempts h) (Some (mkTimeout delay r)) (clientRef h)
    else createConnection r h.

Definition setIsConnected (b : bool) (h : Hook) : Hook :=
  mkHook (enabled h) b (connectionError h) (reconnectAttempts h)
         (reconnectTimeoutRef h) (clientRef h).

Definition setConnectionError (e : option string) (h : Hook) : Hook :=
  mkHook (enabled h) (isConnected h) e (reconnectAttempts h)
         (reconnectTimeoutRef h) (clientRef h).

Definition setReconnectAttempts (f : nat -> nat) (h : Hook) : Hook :=
  mkHook (enabled h) (isConnected h) (connectionError h)
         (f (reconnectAttempts h)) (reconnectTimeoutRef h) (clientRef h).

(** [client.onConnect]; the subscriptions are left out. *)
Definition onConnect (h : Hook) : Hook :=
  setReconnectAttempts (fun _ => 0%nat) (setConnectionError None (setIsConnected true h)).

(** The retry shared by the four failure handlers:
    [setReconnectAttempts((prev) => prev + 1); connect()]. *)
Definition retry (r : Render) (h : Hook) : Hook :=
  connect r (setReconnectAttempts S h).

(** [client.onDisconnect] *)
Definition onDisconnect (r : Render) (h : Hook) : Hook :=
  let h := setIsConnected false h in
  if r_enabled r && (r_reconnectAttempts r <? maxReconnectAttempts)%nat then retry r h
  else if (maxReconnectAttempts <=? r_reconnectAttempts r)%nat then
    setConnectionError (Some "Max reconnection attempts reached"%string) h
  else h.

(** [client.onStompError]; [message] is [frame.headers["message"]]. *)
Definition onStompError (r : Render) (message : option string) (h : Hook) : Hook :=
  let errorMessage := orS message "STOMP protocol error" in
  let h := setIsConnected false (setConnectionError (Some errorMessage) h) in
  if r_enabled r && (r_reconnectAttempts r <? maxReconnectAttempts)%nat then retry r h
  else h.

(** [client.onWebSocketError] *)
Definition onWebSocketError (r : Render) (h : Hook) : Hook :=
  let h := setIsConnected false
             (setConnectionError (Some "WebSocket connection failed"%string) h) in
  if r_enabled r && (r_reconnectAttempts r <? maxReconnectAttempts)%nat then retry r h
  else h.

(** [client.onWebSocketClose] *)
Definition onWebSocketClose (r : Render) (code : Z) (h : Hook) : Hook :=
  let h := setIsConnected false h in
  if negb (Z.eqb code 1000) && r_enabled r
     && (r_reconnectAttempts r <? maxReconnectAttempts)%nat then retry r h
  else h.

(** [forceReconnect] *)
Definition forceReconnect (r : Render) (h : Hook) : Hook :=
  connect r (setConnectionError None (setReconnectAttempts (fun _ => 0%nat) h)).

(** The effect on [[enabled, connect, cleanup]]: the clean-up of its
    previous run, then its body. *)
Definition connectionEffect (h : Hook) : Hook :=
  let h := cleanup h in
  if enabled h then connect (currentRender h) h
  else
    setReconnectAttempts (fun _ => 0%nat)
      (setConnectionError None (setIsConnected false (cleanup h))).

(** The effect on [[url]]. *)
Definition urlEffect (h : Hook) : Hook :=
  if enabled h then
    connect (currentRender h) (setReconnectAttempts (fun _ => 0%nat) h)
  else h.

(** What can happen to a mounted hook. *)
Inductive Event : Type :=
| ClientConnected
| ClientDisconnected
| ClientStompError (message : option string)
| ClientWebSocketError
| ClientWebSocketClose (code : Z)
| TimeoutElapsed
| ForceReconnect
| UrlChanged
| EnabledChanged (b : bool).

(** The callback that an event runs. *)
Definition handle (e : Event) (h : Hook) : Hook :=
  match e with
  | ClientConnected =>
      match clientRef h with Some _ => onConnect h | None => h end
  | ClientDisconnected =>
      match clientRef h with Some r => onDisconnect r h | None => h end
  | ClientStompError message =>
      match clientRef h with Some r => onStompError r message h | None => h end
  | ClientWebSocketError =>
      match clientRef h with Some r => onWebSocketError r h | None => h end
  | ClientWebSocketClose code =>
      match clientRef h with Some r => onWebSocketClose r code h | None => h end
  | TimeoutElapsed =>
      match reconnectTimeoutRef h with
      | Some t =>
          createConnection (timeout_render t)
            (mkHook (enabled h) (isConnected h) (connectionError h)
                    (reconnectAttempts h) None (clientRef h))
      | None => h
      end
  | ForceReconnect => forceReconnect (currentRender h) h
  | UrlChanged => urlEffect h
  | EnabledChanged b =>
      mkHook b (isConnected h) (connectionError h) (reconnectAttempts h)
             (reconnectTimeoutRef h) (clientRef h)
  end.

(** The render that follows a callback: [connect] is a new function
    when [enabled] or [reconnectAttempts] has changed, and then the
    connection effect runs again. *)
Definition commit (before after : Hook) : Hook :=
  if bool_decide (enabled before = enabled after)
     && (reconnectAttempts before =? reconnectAttempts after)%nat
  then after else connectionEffect after.

(** One event, with the render it causes. *)
Definition dispatch (e : Event) (h : Hook) : Hook := commit h (handle e h).

(** The hook after its first render: both effects have run. *)
Definition mount (isEnabled : bool) : Hook :=
  let h := mkHook isEnabled false None 0 None None in
  let h := if isEnabled then connect (currentRender h) h
           else setReconnectAttempts (fun _ => 0%nat)
                  (setConnectionError None (setIsConnected false (cleanup h))) in
  urlEffect h.

(** A run of events. *)
Definition run (events : list Event) (h : Hook) : Hook :=
  foldl (fun h e => dispatch e h) h events.

(** A connection attempt is under way or pending. *)
Definition attemptScheduled (h : Hook) : bool :=
  match reconnectTimeoutRef h with Some _ => true | None => false end.

(** ** Vocabulary of the statements *)

(** A delta entry carries a usable position: both coordinates are
    present and non-zero. *)
Definition usablePosition (positionUpdate : PositionUpdate.t) : Prop :=
  exists currentLat currentLng,
    PositionUpdate.currentLat positionUpdate = Some currentLat /\ currentLat <> 0 /\
    PositionUpdate.currentLng positionUpdate = Some currentLng /\ currentLng <> 0.

(** The structural fields of two vehicles agree. *)
Definition sameStructure (v w : Vehicle.t) : Prop :=
  Vehicle.plannedPath v = Vehicle.plannedPath w /\
  Vehicle.currentWaypoint v = Vehicle.currentWaypoint w /\
  Vehicle.targetWaypoint v = Vehicle.targetWaypoint w /\
  Vehicle.model v = Vehicle.model w /\
  Vehicle.brand v = Vehicle.brand w /\
  Vehicle.type v = Vehicle.type w /\
  Vehicle.speed v = Vehicle.speed w /\
  Vehicle.initialDelay v = Vehicle.initialDelay w.

(** The kinematics of [v] show the position, status and instant of a
    delta entry; [now] stands in for a missing instant. *)
Definition showsPosition (now : R) (positionUpdate : PositionUpdate.t)
    (currentLat currentLng : R) (v : Vehicle.t) : Prop :=
  exists sd,
    Vehicle.simulationData v = Some sd /\
    SimulationData.currentLat sd = Some (Num currentLat) /\
    SimulationData.currentLng sd = Some (Num currentLng) /\
    SimulationData.latitude sd = currentLat /\
    SimulationData.longitude sd = currentLng /\
    SimulationData.timestamp sd =
      toISOString (orR (PositionUpdate.timestamp positionUpdate) now).

(** A delta entry yields a vehicle of the new roster: its id is not
    [0], and it carries a usable position or a vehicle of the roster
    has its id. *)
Definition yieldsVehicle (prevVehicles : list Vehicle.t)
    (positionUpdate : PositionUpdate.t) : bool :=
  negb (Z.eqb (PositionUpdate.id positionUpdate) 0) &&
  (truthyR (PositionUpdate.currentLat positionUpdate)
   && truthyR (PositionUpdate.currentLng positionUpdate)
   || bool_decide (PositionUpdate.id positionUpdate ∈ map Vehicle.id prevVehicles)).

(** The vehicle [v] that a delta entry yields on a roster.  If a
    vehicle of the roster has the id of the entry, [v] is that vehicle
    carried over as it is when the entry has no usable position, and
    otherwise that vehicle merged: its structural fields, with the
    status and the position of the entry.  If no vehicle of the roster
    has the id, [v] is synthesized: a placeholder with that id at the
    position of the entry. *)
Definition derivedFrom (now : R) (prevVehicles : list Vehicle.t)
    (positionUpdate : PositionUpdate.t) (v : Vehicle.t) : Prop :=
  Vehicle.id v = PositionUpdate.id positionUpdate /\
  ((exists existing,
      existing ∈ prevVehicles /\
      Vehicle.id existing = PositionUpdate.id positionUpdate /\
      ((~ usablePosition positionUpdate /\ v = existing) \/
       (exists currentLat currentLng,
          PositionUpdate.currentLat positionUpdate = Some currentLat /\
          currentLat <> 0 /\
          PositionUpdate.currentLng positionUpdate = Some currentLng /\
          currentLng <> 0 /\
          sameStructure v existing /\
          Vehicle.status v = PositionUpdate.status positionUpdate /\
          showsPosition now positionUpdate currentLat currentLng v))) \/
   ((forall known, known ∈ prevVehicles ->
       Vehicle.id known <> PositionUpdate.id positionUpdate) /\
    exists currentLat currentLng,
      PositionUpdate.currentLat positionUpdate = Some currentLat /\
      currentLat <> 0 /\
      PositionUpdate.currentLng positionUpdate = Some currentLng /\
      currentLng <> 0 /\
      Vehicle.model v = "Unknown Model"%string /\
      Vehicle.brand v = "Unknown Brand"%string /\
      Vehicle.type v = "Unknown Type"%string /\
      Vehicle.plannedPath v = Some [] /\
      showsPosition now positionUpdate currentLat currentLng v)).

(** [after] is [before] brought back to idle: the status is ["idle"]
    and every other field, the kinematics among them, is as it was. *)
Definition idledFrom (before after : Vehicle.t) : Prop :=
  Vehicle.status after = Some "idle"%string /\
  Vehicle.simulationData after = Vehicle.simulationData before /\
  Vehicle.id after = Vehicle.id before /\
  Vehicle.licensePlate after = Vehicle.licensePlate before /\
  sameStructure after before.

(** Every vehicle of a roster is idle and has no kinematics. *)
Definition idleAndCleared (roster : list Vehicle.t) : Prop :=
  Forall (fun v => Vehicle.status v = Some "idle"%string /\
                   Vehicle.simulationData v = None) roster.

(** A latitude and a longitude in their ranges. *)
Definition validCoordinates (lat lng : R) : Prop :=
  -90 <= lat <= 90 /\ -180 <= lng <= 180.

(** Degrees to radians. *)
Definition radians (degrees : R) : R := degrees * PI / 180.

(** The cosine of the central angle between two points of the sphere,
    given by latitude and longitude in radians: the inner product of
    their unit vectors. *)
Definition cosCentralAngle (lat1 lng1 lat2 lng2 : R) : R :=
  cos lat1 * cos lng1 * (cos lat2 * cos lng2)
  + cos lat1 * sin lng1 * (cos lat2 * sin lng2)
  + sin lat1 * sin lat2.

(** The value [a] of [calculateDistance]. *)
Definition haversine (lat1 lng1 lat2 lng2 : R) : R :=
  let dLat := ((lat2 - lat1) * PI) / 180 in
  let dLng := ((lng2 - lng1) * PI) / 180 in
  sin (dLat / 2) * sin (dLat / 2) +
  cos ((lat1 * PI) / 180) * cos ((lat2 * PI) / 180) *
  sin (dLng / 2) * sin (dLng / 2).

(** A comparator that orders by ascending [key]. *)
Definition compareByKey {A : Type} (key : A -> R) (a b : A) : R := key a - key b.

(** The distance between two waypoints. *)
Definition waypointDistance (a b : Waypoint.t) : R :=
  calculateDistance (Waypoint.lat a) (Waypoint.lng a)
                    (Waypoint.lat b) (Waypoint.lng b).

(** Going through [w] adds less than 30% to the direct distance. *)
Definition onTheWay (source destination w : Waypoint.t) : Prop :=
  waypointDistance source w + waypointDistance w destination
  < 1.3 * waypointDistance source destination.

(** Ascending distance from [source]. *)
Definition closerTo (source a b : Waypoint.t) : Prop :=
  waypointDistance source a <= waypointDistance source b.

(** The route that goes straight from [source] to [destination]: the
    two anchors and the four points interpolated between them. *)
Definition directLine (source destination : Waypoint.t) : list PathPoint.t :=
  anchor source
  :: interpolate (anchor source) (anchor destination) 5 1 4
  ++ [anchor destination].

(** A vehicle run through the ticks that fire at [times], one after the
    other, effects dropped. *)
Fixpoint tickVehicleAt (fromStart wsConnected : bool) (playbackSpeed : R)
    (times : list R) (vehicle : Vehicle.t) : option Vehicle.t :=
  match times with
  | [] => Some vehicle
  | currentTime :: times' =>
      match tickVehicle fromStart wsConnected playbackSpeed currentTime vehicle with
      | Some (vehicle', _) =>
          tickVehicleAt fromStart wsConnected playbackSpeed times' vehicle'
      | None => None
      end
  end.

(** A session run through the firings of its loop, one after the
    other, each with the time at which it fires and the value of
    [Math.random()]; effects dropped, [None] when an update throws. *)
Fixpoint tickAt (firings : list (R * R)) (s : State) : option State :=
  match firings with
  | [] => Some s
  | (currentTime, random) :: firings' =>
      match tick currentTime random s with
      | Some (s', _) => tickAt firings' s'
      | None => None
      end
  end.

(** The DELAYED state of the engine: the vehicle is idle, flagged as
    delayed since [delayStartTime], and has a path to follow. *)
Definition delayedSince (delayStartTime initialDelay : R) (v : Vehicle.t) : Prop :=
  Vehicle.status v = Some "idle"%string /\
  Vehicle.initialDelay v = initialDelay /\
  Vehicle.plannedPath v <> None /\
  exists sd,
    Vehicle.simulationData v = Some sd /\
    SimulationData.isDelayed sd = Some true /\
    SimulationData.delayStartTime sd = Some delayStartTime.

(** The MOVING state of the engine, entered at [startTime]. *)
Definition movingSince (startTime : R) (v : Vehicle.t) : Prop :=
  Vehicle.status v = Some "moving"%string /\
  exists sd,
    Vehicle.simulationData v = Some sd /\
    SimulationData.isDelayed sd = Some false /\
    SimulationData.startTime sd = Some startTime.

(** A vehicle in the MOVING state: its status is ["moving"], it is not
    flagged as delayed, it has the path [path] and the kinematics [sd],
    whose [startTime] is set to [startTime]. *)
Definition enRoute (startTime : R) (path : list PathPoint.t)
    (sd : SimulationData.t) (v : Vehicle.t) : Prop :=
  Vehicle.status v = Some "moving"%string /\
  Vehicle.plannedPath v = Some path /\
  Vehicle.simulationData v = Some sd /\
  SimulationData.isDelayed sd <> Some true /\
  SimulationData.startTime sd = Some startTime /\
  startTime <> 0.

(** The outcome of the tick on which the journey completes: the
    vehicle is stopped at [finalPoint], its current waypoint is the
    target of [before], and it has travelled [totalDistance]. *)
Definition arrivedAt (finalPoint : PathPoint.t) (totalDistance : R)
    (before after : Vehicle.t) : Prop :=
  Vehicle.status after = Some "stopped"%string /\
  Vehicle.currentWaypoint after = Vehicle.targetWaypoint before /\
  exists sd,
    Vehicle.simulationData after = Some sd /\
    SimulationData.currentLat sd = Some (Num (PathPoint.lat finalPoint)) /\
    SimulationData.currentLng sd = Some (Num (PathPoint.lng finalPoint)) /\
    SimulationData.latitude sd = PathPoint.lat finalPoint /\
    SimulationData.longitude sd = PathPoint.lng finalPoint /\
    SimulationData.distanceTravelled sd = Num totalDistance /\
    SimulationData.progress sd = Some (Num 1).

(** The completion event of the vehicle with the given license plate. *)
Definition completionEvent (licensePlate : string) : Effect :=
  toast "Journey Complete"
    (String.append "Vehicle " (String.append licensePlate " reached destination")).

(** The position at distance [travelled] along [path]: inside the
    segment from [startPoint] to [endPoint] that contains this
    cumulative distance, interpolated linearly, heading along the
    bearing of the segment. *)
Definition positionedAlong (path : list PathPoint.t) (travelled : R)
    (position : Position) : Prop :=
  exists before startPoint endPoint after,
    path = before ++ startPoint :: endPoint :: after /\
    let covered := calculatePathDistance (before ++ [startPoint]) in
    let segment := pointDistance startPoint endPoint in
    let ratio := (travelled - covered) / segment in
    covered <= travelled <= covered + segment /\
    0 < segment /\
    pos_lat position =
      Num (PathPoint.lat startPoint
           + (PathPoint.lat endPoint - PathPoint.lat startPoint) * ratio) /\
    pos_lng position =
      Num (PathPoint.lng startPoint
           + (PathPoint.lng endPoint - PathPoint.lng startPoint) * ratio) /\
    pos_heading position =
      Some (calculateBearing (PathPoint.lat startPoint) (PathPoint.lng startPoint)
                             (PathPoint.lat endPoint) (PathPoint.lng endPoint)).

(** The kinematics of [after] show [position], the progress [progress]
    and the distance [travelled]; the vehicle is still moving. *)
Definition underWay (position : Position) (heading : R) (progress travelled : R)
    (after : Vehicle.t) : Prop :=
  Vehicle.status after = Some "moving"%string /\
  exists sd,
    Vehicle.simulationData after = Some sd /\
    SimulationData.currentLat sd = Some (pos_lat position) /\
    SimulationData.currentLng sd = Some (pos_lng position) /\
    SimulationData.heading sd = Num heading /\
    SimulationData.progress sd = Some (Num progress) /\
    SimulationData.distanceTravelled sd = Num travelled.

(** The progress recorded in the kinematics of a vehicle. *)
Definition progressOf (v : Vehicle.t) : option number :=
  Vehicle.simulationData v ≫= SimulationData.progress.

(** The status label of the kinematics reads [`delayed (${n}s)`], with
    [n] the number of seconds [remaining], rounded up. *)
Definition showsRemaining (remaining : R) (v : Vehicle.t) : Prop :=
  exists sd n,
    Vehicle.simulationData v = Some sd /\
    SimulationData.status sd = DelayedFor n /\
    IZR n - 1 < remaining <= IZR n.

(** The events by which a client reports that its connection failed
    or was lost; a close with code 1000 is a normal closure. *)
Definition isFailure (e : Event) : Prop :=
  match e with
  | ClientDisconnected | ClientStompError _ | ClientWebSocketError => True
  | ClientWebSocketClose code => code <> 1000%Z
  | _ => False
  end.

(** A client created when the counter was [attempts] is at hand and no
    retry is pending. *)
Definition connectingAt (attempts : nat) (h : Hook) : Prop :=
  enabled h = true /\
  reconnectAttempts h = attempts /\
  reconnectTimeoutRef h = None /\
  clientRef h = Some (mkRender true attempts).

(** The FAILED state of the channel: the counter has reached its
    maximum, the client at hand was created at that count, and no
    retry is pending. *)
Definition failedState (h : Hook) : Prop := connectingAt maxReconnectAttempts h.

(** Connection attempts in a row: each is ended by one of [events],
    and followed by the firing of the retry timer. *)
Definition attemptsEndedBy (events : list Event) : list Event :=
  events ≫= fun e => [e; TimeoutElapsed].

(** Unfolds the callbacks of the hook down to its record. *)
Ltac hook_compute :=
  cbv [dispatch commit handle onConnect onDisconnect onStompError
       onWebSocketError onWebSocketClose forceReconnect urlEffect retry
       connect cleanup createConnection setIsConnected setConnectionError
       setReconnectAttempts connectionEffect currentRender
       enabled isConnected connectionError reconnectAttempts
       reconnectTimeoutRef clientRef r_enabled r_reconnectAttempts
       timeout_render timeout_delay negb andb maxReconnectAttempts
       connectingAt failedState].

(** ** Sample data *)

(** The waypoints of the application. *)
Definition ISLAMABAD_WAYPOINTS : list Waypoint.t :=
  [ Waypoint.mk 1 "Faisal Mosque" 33.7294 73.0367;
    Waypoint.mk 2 "Pakistan Monument" 33.6938 73.0651;
    Waypoint.mk 3 "Daman-e-Koh" 33.7394 73.055;
    Waypoint.mk 4 "Lok Virsa Museum" 33.6844 73.0479;
    Waypoint.mk 5 "Rawal Lake" 33.7167 73.1333;
    Waypoint.mk 6 "Centaurus Mall" 33.7081 73.0434;
    Waypoint.mk 7 "Blue Area" 33.7077 73.0563;
    Waypoint.mk 8 "F-9 Park" 33.6969 73.0215;
    Waypoint.mk 9 "Margalla Hills" 33.7681 73.0339;
    Waypoint.mk 10 "Islamabad Airport" 33.6149 73.0993;
    Waypoint.mk 11 "Shakarparian" 33.6844 73.0479;
    Waypoint.mk 12 "Rose & Jasmine Garden" 33.6844 73.0279 ].

(** Two of them, on the same parallel. *)
Definition lokVirsaMuseum : Waypoint.t :=
  Waypoint.mk 4 "Lok Virsa Museum" 33.6844 73.0479.

Definition roseAndJasmineGarden : Waypoint.t :=
  Waypoint.mk 12 "Rose & Jasmine Garden" 33.6844 73.0279.

(** Kinematics of a vehicle half-way through its journey. *)
Definition sampleKinematics : SimulationData.t :=
  SimulationData.mk 50 33.6844 73.0479 (Num 270) (Text "moving")
    (toISOString 1000) 80 true (Num 1) (Some 1000)
    (Some (Num 33.6844)) (Some (Num 73.0379)) None None
    (Some (Num 0.5)) (Some 0%Z) None (Some false).

(** A vehicle on its way from waypoint 4 to waypoint 12. *)
Definition sampleVehicle : Vehicle.t :=
  Vehicle.mk 7 "ABC-123" "Corolla" "Toyota" "Sedan" (Some 4%Z) (Some 12%Z)
    50 0 (Some "moving"%string) (Some sampleKinematics)
    (Some (directLine lokVirsaMuseum roseAndJasmineGarden)).

(** A second vehicle of the same roster. *)
Definition otherVehicle : Vehicle.t :=
  Vehicle.mk 8 "XYZ-789" "Civic" "Honda" "Sedan" (Some 12%Z) (Some 4%Z)
    40 0 (Some "moving"%string) (Some sampleKinematics)
    (Some (directLine roseAndJasmineGarden lokVirsaMuseum)).

(** A producer session and a viewer session that hold the same roster. *)
Definition producerSession : State :=
  mkState (Some admin) true [sampleVehicle; otherVehicle] true false 1 false
    (Some (mkLoop true 1 true (Some admin))).

Definition viewerSession : State :=
  mkState (Some user) true [sampleVehicle; otherVehicle] true false 1 true None.

(** A delta entry for vehicle [id] at the given position. *)
Definition entryAt (id : Z) (currentLat currentLng : R) : PositionUpdate.t :=
  PositionUpdate.mk id None (Some currentLat) (Some currentLng)
    (Some 90) (Some 0.25) (Some "moving"%string) (Some 2) (Some 5000) None.

(** A vehicle as [placeVehicle] leaves it, ready to start without
    delay on the route between the two waypoints. *)
Definition readyVehicle : Vehicle.t :=
  Vehicle.mk 7 "ABC-123" "Corolla" "Toyota" "Sedan" (Some 4%Z) (Some 12%Z)
    50 0 (Some "idle"%string) None
    (Some (directLine lokVirsaMuseum roseAndJasmineGarden)).

(** The kinematics that [startSimulation] gives it at the instant 1000,
    [Math.random()] returning 0.6. *)
Definition startedKinematics : SimulationData.t :=
  SimulationData.mk 50 33.6844 73.0479 (Num 0) (Text "moving")
    (toISOString 1000) (0.6 * 50 + 50) true (Num 0) (Some 1000)
    (Some (Num 33.6844)) (Some (Num 73.0479)) None None
    (Some (Num 0)) (Some 0%Z) None (Some false).

(** The vehicle as the run starts. *)
Definition startedVehicle : Vehicle.t :=
  initializeVehicle 1000 0.6 readyVehicle.

(** A producer session that is about to play this vehicle at five times
    the speed, and the session once the run has started. *)
Definition readySession : State :=
  mkState (Some admin) true [readyVehicle] false false 5 false None.

Definition fastSession : State :=
  fst (startSimulation 1000 (fun _ => 0.6) readySession).

(** A delta that mentions vehicle 7 and an unknown vehicle 9. *)
Definition sampleDelta : list PositionUpdate.t :=
  [entryAt 7 33.6845 73.04; entryAt 9 33.7 73.1].

(** The sample vehicle as it is placed, before a run starts, with a
    start delay of ten seconds. *)
Definition placedVehicle : Vehicle.t :=
  Vehicle.mk 7 "ABC-123" "Corolla" "Toyota" "Sedan" (Some 4%Z) (Some 12%Z)
    50 10 (Some "idle"%string) None
    (Some (directLine lokVirsaMuseum roseAndJasmineGarden)).

(** * Planning, persistence, session and display

    The rest of [VehicleSimulator] ([src/app/page.tsx]), the login of
    [WelcomePage], the [NotificationPopup] and the vehicle layer of
    [MapComponent].

    Further conventions.
    - A string is a sequence of code units below 256.
    - An awaited [fetch] is an explicit argument that tells how it
      ended; an [async] function runs without another update of the
      state in between.
    - A vehicle or waypoint id is an integer, and [String(id)] is its
      decimal rendering. *)

(** ** Strings and integers *)

(** Truthiness of a possibly missing integer. *)
Definition truthyZ (a : option Z) : bool :=
  match a with
  | Some k => negb (Z.eqb k 0)
  | None => false
  end.

(** White space and line terminators, as [parseInt] strips them. *)
Definition isWhiteSpace (c : ascii) : bool :=
  let n := N_of_ascii c in
  ((9 <=? n) && (n <=? 13) || (n =? 32) || (n =? 160))%N.

Fixpoint trimStart (s : string) : string :=
  match s with
  | String c s' => if isWhiteSpace c then trimStart s' else s
  | EmptyString => s
  end.

(** The value of [c] as a digit of the given radix. *)
Definition digitOf (radix : N) (c : ascii) : option N :=
  let n := N_of_ascii c in
  let value :=
    (if (48 <=? n) && (n <=? 57) then Some (n - 48)
     else if (97 <=? n) && (n <=? 122) then Some (n - 87)
     else if (65 <=? n) && (n <=? 90) then Some (n - 55)
     else None)%N in
  value ≫= fun d => if (d <? radix)%N then Some d else None.

(** The longest prefix of digits, read from the left; [None] when it
    is empty. *)
Fixpoint parseDigits (radix : N) (value : N) (seen : bool) (s : string)
  : option N :=
  match s with
  | String c s' =>
      match digitOf radix c with
      | Some d => parseDigits radix (value * radix + d) true s'
      | None => if seen then Some value else None
      end
  | EmptyString => if seen then Some value else None
  end.

(** [Number.parseInt(s)]; [None] is NaN.  The value is the exact
    integer: JavaScript rounds it to a double above [2^53]. *)
Definition Number_parseInt (s : string) : option Z :=
  let s := trimStart s in
  let '(sign, s) :=
    match s with
    | String "-" s' => ((-1)%Z, s')
    | String "+" s' => (1%Z, s')
    | _ => (1%Z, s)
    end in
  let '(radix, s) :=
    match s with
    | String "0" (String "x" s') | String "0" (String "X" s') => (16%N, s')
    | _ => (10%N, s)
    end in
  (fun n => (sign * Z.of_N n)%Z) <$> parseDigits radix 0 false s.

(** [String(n)] for the result of [Number.parseInt]. *)
Definition Number_toString (n : option Z) : string :=
  match n with
  | Some k => pretty k
  | None => "NaN"
  end.

(** ** Backend *)

(** How an awaited [fetch], with the reading of its body, ends: a
    promise rejects with an [Error], the response is not [ok], or the
    body is read. *)
Inductive FetchResult (A : Type) : Type :=
| Rejected (message : string)
| HttpError (status : Z) (text : string)
| Fulfilled (body : A).

Arguments Rejected {A} message.
Arguments HttpError {A} status text.
Arguments Fulfilled {A} body.

(** [VehicleResponseDto.vehicleDto] *)
Module VehicleDto.
Record t : Type := mk {
  id : Z;
  licensePlate : string;
  model : string;
  brand : string;
  type : string;
  speed : R;
  Status : string
}.
End VehicleDto.

(** [interface VehicleResponseDto]; either field may be missing. *)
Module VehicleResponseDto.
Record t : Type := mk {
  vehicleDto : option VehicleDto.t;
  message : option string
}.
End VehicleResponseDto.

(** [interface WayPointDto] *)
Module WayPointDto.
Record t : Type := mk { latitude : R; longitude : R }.
End WayPointDto.

(** [interface VehicleInfoDto] *)
Module VehicleInfoDto.
Record t : Type := mk { vehicle_id : Z; speed : R; initialDelay : R }.
End VehicleInfoDto.

(** [interface SimulationRequest] *)
Module SimulationRequest.
Record t : Type := mk { wp : list WayPointDto.t; vi : list VehicleInfoDto.t }.
End SimulationRequest.

(** [interface SimulationRecord] *)
Module SimulationRecord.
Record t : Type := mk {
  simulationId : Z;
  name : string;
  vehicles : list VehicleInfoDto.t;
  waypoints : list WayPointDto.t
}.
End SimulationRecord.

(** ** RouteComposer: selection and placement *)

(** [selectionMode] *)
Inductive SelectionMode : Type := selectingSource | selectingDestination.

(** The part of the state of [VehicleSimulator] that plans a route. *)
Record Planner : Type := mkPlanner {
  selectedSourceWaypoint : option Z;
  selectedDestinationWaypoint : option Z;
  selectionMode : SelectionMode;
  vehicleIdInput : string;
  selectedVehicleSpeed : R;
  selectedInitialDelay : R
}.

(** The planner of a component that has just been mounted. *)
Definition initialPlanner : Planner :=
  mkPlanner None None selectingSource "" 50 0.

(** [handleWaypointSelect] *)
Definition handleWaypointSelect (waypointId : Z) (s : State) (p : Planner)
  : Planner * list Effect :=
  if negb (is_admin s) then
    (p, [toast "Access Denied" "Only admins can select waypoints"])
  else
    match selectionMode p with
    | selectingSource =>
        (mkPlanner (Some waypointId) (selectedDestinationWaypoint p)
           selectingDestination (vehicleIdInput p) (selectedVehicleSpeed p)
           (selectedInitialDelay p),
         [toast "Source Selected" "Now select destination waypoint"])
    | selectingDestination =>
        if bool_decide (Some waypointId = selectedSourceWaypoint p) then
          (p, [toast "Error" "Destination cannot be the same as source"])
        else
          (mkPlanner (selectedSourceWaypoint p) (Some waypointId)
             (selectionMode p) (vehicleIdInput p) (selectedVehicleSpeed p)
             (selectedInitialDelay p),
           [toast "Destination Selected" "Route planned. Ready to place vehicle."])
    end.

(** [resetSelection] *)
Definition resetSelection (p : Planner) : Planner :=
  mkPlanner None None selectingSource (vehicleIdInput p)
    (selectedVehicleSpeed p) (selectedInitialDelay p).

(** [fetchVehicle]; [response] is how the request for the vehicle
    ended. *)
Definition fetchVehicle (response : FetchResult VehicleResponseDto.t)
    (p : Planner) : option Vehicle.t * list Effect :=
  let failed (message : string) : option Vehicle.t * list Effect :=
    (None, [toast "Error" ("Failed to fetch vehicle: " +:+ message)]) in
  match response with
  | Rejected message => failed message
  | HttpError status _ => failed ("HTTP error! status: " +:+ pretty status)
  | Fulfilled data =>
      match VehicleResponseDto.vehicleDto data with
      | Some dto =>
          (Some (Vehicle.mk (VehicleDto.id dto) (VehicleDto.licensePlate dto)
                   (VehicleDto.model dto) (VehicleDto.brand dto)
                   (VehicleDto.type dto) None None
                   (selectedVehicleSpeed p) (selectedInitialDelay p)
                   (Some "idle"%string) None None),
           [])
      | None =>
          failed (orS (VehicleResponseDto.message data) "Vehicle not found")
      end
  end.

(** [waypoints.find((w) => w.id === id)] *)
Definition findWaypoint (waypoints : list Waypoint.t) (id : option Z)
  : option Waypoint.t :=
  List.find (fun w => bool_decide (Some (Waypoint.id w) = id)) waypoints.

(** [{ ...vehicle, currentWaypoint, targetWaypoint, speed, initialDelay,
       plannedPath }] *)
Definition withRoute (vehicle : Vehicle.t) (currentWaypoint targetWaypoint : option Z)
    (speed initialDelay : R) (plannedPath : list PathPoint.t) : Vehicle.t :=
  Vehicle.mk (Vehicle.id vehicle) (Vehicle.licensePlate vehicle)
    (Vehicle.model vehicle) (Vehicle.brand vehicle) (Vehicle.type vehicle)
    currentWaypoint targetWaypoint speed initialDelay
    (Vehicle.status vehicle) (Vehicle.simulationData vehicle) (Some plannedPath).

(** The session with another roster. *)
Definition setVehicles (roster : list Vehicle.t) (s : State) : State :=
  mkState (userType s) (wsConnected s) roster (isSimulationRunning s)
    (isPaused s) (playbackSpeed s) (isReceivingSimulation s)
    (simulationInterval s).

(** [placeVehicle]; [waypoints] is the waypoint list of the component
    and [response] is how the request for the vehicle ended.  The
    [vehicle] field that it writes on the source waypoint only feeds
    the popup of that waypoint on the map; [Waypoint.t] does not keep
    it. *)
Definition placeVehicle (waypoints : list Waypoint.t)
    (response : FetchResult VehicleResponseDto.t) (s : State) (p : Planner)
  : State * Planner * list Effect :=
  if negb (is_admin s) then
    (s, p, [toast "Access Denied" "Only admins can place vehicles"])
  else if negb (truthyZ (selectedSourceWaypoint p))
          || negb (truthyZ (selectedDestinationWaypoint p))
          || String.eqb (vehicleIdInput p) "" then
    (s, p, [toast "Error"
              "Please select source, destination waypoints and enter vehicle ID"])
  else if (10 <=? length (vehicles s))%nat then
    (s, p, [toast "Error" "Maximum 10 vehicles allowed"])
  else
    let vehicleId := Number_parseInt (vehicleIdInput p) in
    match List.find (fun v => bool_decide (Some (Vehicle.id v) = vehicleId))
                    (vehicles s) with
    | Some _ => (s, p, [toast "Error" "Vehicle is already placed on the map"])
    | None =>
        match fetchVehicle response p with
        | (None, effects) => (s, p, effects)
        | (Some vehicle, effects) =>
            match findWaypoint waypoints (selectedSourceWaypoint p),
                  findWaypoint waypoints (selectedDestinationWaypoint p) with
            | Some sourceWaypoint, Some destinationWaypoint =>
                let plannedPath :=
                  calculateOptimalPath waypoints sourceWaypoint destinationWaypoint in
                let vehicleWithPath :=
                  withRoute vehicle (selectedSourceWaypoint p)
                    (selectedDestinationWaypoint p) (selectedVehicleSpeed p)
                    (selectedInitialDelay p) plannedPath in
                let atSource :=
                  List.filter
                    (fun v => bool_decide (Vehicle.currentWaypoint v
                                           = selectedSourceWaypoint p))
                    (vehicles s) in
                (setVehicles (vehicles s ++ [vehicleWithPath]) s,
                 resetSelection
                   (mkPlanner (selectedSourceWaypoint p)
                      (selectedDestinationWaypoint p) (selectionMode p) ""
                      (selectedVehicleSpeed p) 0),
                 effects ++
                 [toast "Success"
                    ("Vehicle " +:+ Vehicle.licensePlate vehicle +:+ " placed at "
                     +:+ Waypoint.name sourceWaypoint +:+ " ("
                     +:+ pretty (length atSource + 1)%nat
                     +:+ " vehicles at this waypoint)")])
            | _, _ =>
                (s, p, effects ++ [toast "Error" "Invalid waypoint selection"])
            end
        end
    end.

(** ** Persistence *)

(** [usedWaypointIds.add(id)], behind the truthiness test of [id]. *)
Definition addUsed (id : option Z) (usedWaypointIds : gset Z) : gset Z :=
  match id with
  | Some k => if Z.eqb k 0 then usedWaypointIds else {[ k ]} ∪ usedWaypointIds
  | None => usedWaypointIds
  end.

(** The callback of [vehicle.plannedPath?.forEach]. *)
Definition addPathPoint (usedWaypointIds : gset Z) (point : PathPoint.t) : gset Z :=
  if bool_decide (PathPoint.isWaypoint point = Some true)
  then addUsed (PathPoint.waypointId point) usedWaypointIds
  else usedWaypointIds.

(** The callback of [vehicles.forEach] in [saveSimulation]. *)
Definition addVehicle (usedWaypointIds : gset Z) (vehicle : Vehicle.t) : gset Z :=
  foldl addPathPoint
    (addUsed (Vehicle.targetWaypoint vehicle)
       (addUsed (Vehicle.currentWaypoint vehicle) usedWaypointIds))
    (default [] (Vehicle.plannedPath vehicle)).

(** [usedWaypointIds] *)
Definition usedWaypointIds (roster : list Vehicle.t) : gset Z :=
  foldl addVehicle ∅ roster.

(** [usedWaypoints] *)
Definition usedWaypoints (waypoints : list Waypoint.t) (roster : list Vehicle.t)
  : list Waypoint.t :=
  List.filter (fun wp => bool_decide (Waypoint.id wp ∈ usedWaypointIds roster))
              waypoints.

(** [{ latitude: wp.lat, longitude: wp.lng }] *)
Definition toWayPointDto (wp : Waypoint.t) : WayPointDto.t :=
  WayPointDto.mk (Waypoint.lat wp) (Waypoint.lng wp).

(** [{ vehicle_id: vehicle.id, speed: vehicle.speed,
       initialDelay: vehicle.initialDelay }] *)
Definition toVehicleInfoDto (vehicle : Vehicle.t) : VehicleInfoDto.t :=
  VehicleInfoDto.mk (Vehicle.id vehicle) (Vehicle.speed vehicle)
                    (Vehicle.initialDelay vehicle).

(** [simulationRequest] *)
Definition simulationRequest (waypoints : list Waypoint.t) (roster : list Vehicle.t)
  : SimulationRequest.t :=
  SimulationRequest.mk (map toWayPointDto (usedWaypoints waypoints roster))
                       (map toVehicleInfoDto roster).

(** [saveSimulation]: the request that is posted, if any, and the
    toasts; [response] is how the request ended. *)
Definition saveSimulation (waypoints : list Waypoint.t)
    (response : FetchResult string) (s : State)
  : option SimulationRequest.t * list Effect :=
  if negb (is_admin s) then
    (None, [toast "Access Denied" "Only admins can save simulations"])
  else if bool_decide (length (vehicles s) = 0%nat) then
    (None, [toast "Error" "No vehicles to save in simulation"])
  else
    let request := simulationRequest waypoints (vehicles s) in
    let failed (message : string) : list Effect :=
      [toast "Error" ("Failed to save simulation: " +:+ message)] in
    (Some request,
     match response with
     | Fulfilled _ =>
         [toast "Simulation Saved"
            ("Simulation with " +:+ pretty (length (vehicles s)) +:+ " vehicles and "
             +:+ pretty (length (SimulationRequest.wp request))
             +:+ " waypoints saved successfully")]
     | HttpError status errorText =>
         failed ("HTTP error! status: " +:+ pretty status +:+ " - " +:+ errorText)
     | Rejected message => failed message
     end).

(** The callback of [ISLAMABAD_WAYPOINTS.find] in
    [loadSimulationRecord], in exact arithmetic: a difference that is
    [0.001] as a decimal does not match here, and may match in
    doubles. *)
Definition matchesRecord (recordWp : WayPointDto.t) (wp : Waypoint.t) : bool :=
  Rltb (Rabs (Waypoint.lat wp - WayPointDto.latitude recordWp)) 0.001 &&
  Rltb (Rabs (Waypoint.lng wp - WayPointDto.longitude recordWp)) 0.001.

(** [matchedWaypoint] *)
Definition matchedWaypoint (recordWp : WayPointDto.t) : option Waypoint.t :=
  List.find (matchesRecord recordWp) ISLAMABAD_WAYPOINTS.

(** [matchedWaypoints] *)
Definition matchedWaypoints (record : SimulationRecord.t) : list Waypoint.t :=
  omap matchedWaypoint (SimulationRecord.waypoints record).

(** The body of the loop over [record.vehicles]; [response] is how
    the request for this vehicle ended. *)
Definition loadVehicle (waypoints matched : list Waypoint.t) (p : Planner)
    (vehicleInfo : VehicleInfoDto.t) (response : FetchResult VehicleResponseDto.t)
  : option Vehicle.t * list Effect :=
  match fetchVehicle response p with
  | (Some vehicle, effects) =>
      let sourceWaypoint := matched !! 0%nat in
      let targetWaypoint :=
        match matched !! 1%nat with
        | Some w => Some w
        | None => matched !! 0%nat
        end in
      match sourceWaypoint, targetWaypoint with
      | Some sourceWaypoint, Some targetWaypoint =>
          let plannedPath :=
            if negb (Z.eqb (Waypoint.id targetWaypoint) (Waypoint.id sourceWaypoint))
            then calculateOptimalPath waypoints sourceWaypoint targetWaypoint
            else [anchor sourceWaypoint] in
          (Some (Vehicle.mk (VehicleInfoDto.vehicle_id vehicleInfo)
                   (Vehicle.licensePlate vehicle) (Vehicle.model vehicle)
                   (Vehicle.brand vehicle) (Vehicle.type vehicle)
                   (Some (Waypoint.id sourceWaypoint))
                   (Some (Waypoint.id targetWaypoint))
                   (VehicleInfoDto.speed vehicleInfo)
                   (VehicleInfoDto.initialDelay vehicleInfo)
                   (Some "idle"%string) None (Some plannedPath)),
           effects)
      | _, _ => (None, effects)
      end
  | (None, effects) => (None, effects)
  end.

(** [loadSimulationRecord]; [responses i] is how the request for the
    vehicle at index [i] of the record ended. *)
Definition loadSimulationRecord (waypoints : list Waypoint.t)
    (responses : nat -> FetchResult VehicleResponseDto.t)
    (record : SimulationRecord.t) (s : State) (p : Planner)
  : State * Planner * list Effect :=
  if negb (is_admin s) then
    (s, p, [toast "Access Denied" "Only admins can load simulation records"])
  else
    let matched := matchedWaypoints record in
    let results :=
      imap (fun i vehicleInfo =>
              loadVehicle waypoints matched p vehicleInfo (responses i))
           (SimulationRecord.vehicles record) in
    let loadedVehicles := omap fst results in
    (mkState (userType s) (wsConnected s) loadedVehicles false (isPaused s)
       (playbackSpeed s) (isReceivingSimulation s) None,
     resetSelection p,
     concat (map snd results) ++
     [toast "Simulation Record Loaded"
        ("Loaded " +:+ SimulationRecord.name record +:+ " with "
         +:+ pretty (length loadedVehicles)
         +:+ " vehicles. Ready to edit or run.")]).

(** ** Session *)

(** [loginType], as it is stored. *)
Definition loginTypeName (loginType : UserType) : string :=
  match loginType with
  | admin => "admin"
  | user => "user"
  end.

(** [handleLogin] of the welcome page: the storage, the route pushed,
    if any, and the toast; [response] is how the login request ended. *)
Definition handleLogin (loginType : UserType) (loginEmail : string)
    (response : FetchResult string) (localStorage : gmap string string)
  : gmap string string * option string * list Effect :=
  match response with
  | Fulfilled _ =>
      (<["isLoggedIn" := "true"]>
         (<["userEmail" := loginEmail]>
            (<["userType" := loginTypeName loginType]> localStorage)),
       Some "/"%string,
       [toast "Login Successful"
          ("Welcome "
           +:+ (match loginType with admin => "Admin" | user => "User" end)
           +:+ "!")])
  | HttpError _ errorText =>
      (localStorage, None,
       [toast "Login Failed" (orS (Some errorText) "Login failed")])
  | Rejected message => (localStorage, None, [toast "Login Failed" message])
  end.

(** The outcome of [checkAuth]. *)
Inductive AuthCheck : Type :=
| redirected (route : string)
| authenticated (storedUserType storedEmail : string).

(** [checkAuth] *)
Definition checkAuth (localStorage : gmap string string) : AuthCheck :=
  let loggedIn := bool_decide (localStorage !! "isLoggedIn" = Some "true"%string) in
  let storedUserType := localStorage !! "userType" in
  let storedEmail := orS (localStorage !! "userEmail") "" in
  if negb loggedIn || negb (truthyS storedUserType) then redirected "/welcome"
  else authenticated (default ""%string storedUserType) storedEmail.

(** [handleLogout]: the storage, the session, whose loop is cleared,
    the route pushed and the toast. *)
Definition handleLogout (localStorage : gmap string string) (s : State)
  : gmap string string * State * string * list Effect :=
  (delete "userEmail" (delete "userType" (delete "isLoggedIn" localStorage)),
   mkState (userType s) (wsConnected s) (vehicles s) (isSimulationRunning s)
     (isPaused s) (playbackSpeed s) (isReceivingSimulation s) None,
   "/welcome"%string,
   [toast "Logged Out" "You have been successfully logged out"]).

(** ** Notifications *)

(** [interface NotificationMessage] *)
Module NotificationMessage.
Record t : Type := mk { title : string; content : string; type : string }.
End NotificationMessage.

(** The [onNotification] callback handed to the hook. *)
Definition onNotification (message : NotificationMessage.t)
    (notifications : list NotificationMessage.t)
  : list NotificationMessage.t * list Effect :=
  (notifications ++ [message],
   [toast (NotificationMessage.title message) (NotificationMessage.content message)]).

(** [dismissNotification]: [prev.filter((_, i) => i !== index)] *)
Definition dismissNotification (index : Z) (prev : list NotificationMessage.t)
  : list NotificationMessage.t :=
  map snd (List.filter (fun entry => negb (Z.eqb (Z.of_nat (fst entry)) index))
                       (imap pair prev)).

(** [dismissAllNotifications] *)
Definition dismissAllNotifications (prev : list NotificationMessage.t)
  : list NotificationMessage.t := [].

(** [notifications.slice(-3)], the [visibleNotifications] of the popup
    once its effect has run. *)
Definition visibleNotifications (notifications : list NotificationMessage.t)
  : list NotificationMessage.t :=
  drop (length notifications - 3) notifications.

(** [actualIndex] of the card at [index]. *)
Definition actualIndex (notifications : list NotificationMessage.t) (index : nat) : Z :=
  (Z.of_nat (length notifications)
   - Z.of_nat (length (visibleNotifications notifications))
   + Z.of_nat index)%Z.

(** ** Map: the vehicle layer *)

(** The glyph of a vehicle marker. *)
Inductive Glyph : Type := car | chequeredFlag.

(** [vehicleMarkerIcon]: what the [divIcon] is rendered from. *)
Record Icon : Type := mkIcon {
  icon_color : string;
  icon_glyph : Glyph;
  icon_rotation : number;
  icon_pulse : bool
}.

(** A vehicle marker: where it stands, its icon, and the vehicle that
    its popup was rendered from. *)
Record Marker : Type := mkMarker {
  marker_latLng : number * number;
  marker_icon : Icon;
  marker_popup : Vehicle.t
}.

(** A polyline along a planned path. *)
Record Polyline : Type := mkPolyline {
  line_coords : list (R * R);
  line_color : string;
  line_dashed : bool
}.

(** [vehicleMarkersRef] and [pathLayersRef]: objects keyed by vehicle
    id, that is by [String(id)]. *)
Record Layers : Type := mkLayers {
  vehicleMarkersRef : gmap string Marker;
  pathLayersRef : gmap string Polyline
}.

(** [pathColor] *)
Definition pathColor (vehicle : Vehicle.t) : string :=
  if has_status "moving" vehicle then "#22c55e"
  else if has_status "stopped" vehicle then "#ef4444"
  else "#6b7280".

(** The polyline of a vehicle whose planned path has more than one
    point. *)
Definition pathLine (vehicle : Vehicle.t) : option Polyline :=
  match Vehicle.plannedPath vehicle with
  | Some ((_ :: _ :: _) as plannedPath) =>
      Some (mkPolyline
              (map (fun point => (PathPoint.lat point, PathPoint.lng point)) plannedPath)
              (pathColor vehicle) (has_status "idle" vehicle))
  | _ => None
  end.

(** [vehicleLat] and [vehicleLng]: the live coordinates, else the start
    of the planned path, else the current waypoint, else [0]. *)
Definition vehiclePosition (waypoints : list Waypoint.t) (vehicle : Vehicle.t)
  : number * number :=
  let currentLat := Vehicle.simulationData vehicle ≫= SimulationData.currentLat in
  let currentLng := Vehicle.simulationData vehicle ≫= SimulationData.currentLng in
  if truthyN currentLat && truthyN currentLng then
    (default (Num 0) currentLat, default (Num 0) currentLng)
  else
    match Vehicle.plannedPath vehicle with
    | Some (first :: _) => (Num (PathPoint.lat first), Num (PathPoint.lng first))
    | _ =>
        match findWaypoint waypoints (Vehicle.currentWaypoint vehicle) with
        | Some waypoint => (Num (Waypoint.lat waypoint), Num (Waypoint.lng waypoint))
        | None => (Num 0, Num 0)
        end
    end.

(** [vehicleMarkerIcon] *)
Definition vehicleMarkerIcon (vehicle : Vehicle.t) : Icon :=
  let rotation :=
    orN (SimulationData.heading <$> Vehicle.simulationData vehicle) (Num 0) in
  if has_status "moving" vehicle then mkIcon "#22c55e" car rotation true
  else if has_status "stopped" vehicle then mkIcon "#ef4444" chequeredFlag rotation false
  else mkIcon "#6b7280" car rotation false.

(** The callback of [vehicles.forEach] in the vehicle effect. *)
Definition drawVehicle (waypoints : list Waypoint.t) (layers : Layers)
    (vehicle : Vehicle.t) : Layers :=
  let key := pretty (Vehicle.id vehicle) in
  let paths :=
    match pathLine vehicle with
    | Some line => <[key := line]> (pathLayersRef layers)
    | None => pathLayersRef layers
    end in
  let '(vehicleLat, vehicleLng) := vehiclePosition waypoints vehicle in
  if truthy vehicleLat && truthy vehicleLng then
    let marker :=
      match vehicleMarkersRef layers !! key with
      | Some existingMarker =>
          mkMarker (vehicleLat, vehicleLng) (vehicleMarkerIcon vehicle)
                   (marker_popup existingMarker)
      | None =>
          mkMarker (vehicleLat, vehicleLng) (vehicleMarkerIcon vehicle) vehicle
      end in
    mkLayers (<[key := marker]> (vehicleMarkersRef layers)) paths
  else mkLayers (vehicleMarkersRef layers) paths.

(** The callback of [Object.keys(vehicleMarkersRef.current).forEach]. *)
Definition removeStale (roster : list Vehicle.t) (layers : Layers)
    (vehicleIdStr : string) : Layers :=
  let vehicleId := Number_parseInt vehicleIdStr in
  match List.find (fun v => bool_decide (Some (Vehicle.id v) = vehicleId)) roster with
  | Some _ => layers
  | None =>
      mkLayers (delete (Number_toString vehicleId) (vehicleMarkersRef layers))
               (delete (Number_toString vehicleId) (pathLayersRef layers))
  end.

(** The vehicle effect of [MapComponent]; [ready] tells whether the
    map has been created. *)
Definition updateVehicleLayers (ready : bool) (waypoints : list Waypoint.t)
    (roster : list Vehicle.t) (layers : Layers) : Layers :=
  if negb ready then layers
  else
    let layers := foldl (drawVehicle waypoints) layers roster in
    foldl (removeStale roster) layers
          (map fst (map_to_list (vehicleMarkersRef layers))).

(** ** Vocabulary of the further statements *)

(** The identity and the route of two vehicles agree. *)
Definition sameIdentity (v w : Vehicle.t) : Prop :=
  Vehicle.id v = Vehicle.id w /\
  Vehicle.licensePlate v = Vehicle.licensePlate w /\
  Vehicle.model v = Vehicle.model w /\
  Vehicle.brand v = Vehicle.brand w /\
  Vehicle.type v = Vehicle.type w /\
  Vehicle.targetWaypoint v = Vehicle.targetWaypoint w /\
  Vehicle.speed v = Vehicle.speed w /\
  Vehicle.initialDelay v = Vehicle.initialDelay w /\
  Vehicle.plannedPath v = Vehicle.plannedPath w.

(** The live position recorded in the kinematics of a vehicle. *)
Definition livePosition (v : Vehicle.t) : option number * option number :=
  (Vehicle.simulationData v ≫= SimulationData.currentLat,
   Vehicle.simulationData v ≫= SimulationData.currentLng).

(** The effect [useEffect(..., [playbackSpeed])]. *)
Definition playbackSpeedEffect (s : State) : State :=
  if isSimulationRunning s && negb (isPaused s) && is_admin s
  then restartSimulationWithNewSpeed s else s.

(** What a session goes through: a message arrives at a socket client
    that was built in the render holding [render], the operator uses a
    control, or the loop fires. *)
Inductive Action : Type :=
| Arrives (render : State) (now : R) (message : SimulationStateMessage)
| Starts (currentTime : R) (random : nat -> R)
| Pauses
| Resumes
| Stops
| ChangesSpeed (speed : R)
| Fires (currentTime random : R).

(** One action, with the effect that follows a change of the
    multiplier by a message; [None] when an update throws. *)
Definition act (a : Action) (s : State) : option (State * list Effect) :=
  match a with
  | Arrives render now message =>
      let s' := handleSimulationUpdateOf render now message s in
      Some (if Reqb (playbackSpeed s') (playbackSpeed s) then s'
            else playbackSpeedEffect s', [])
  | Starts currentTime random => Some (startSimulation currentTime random s)
  | Pauses => Some (pauseSimulation s)
  | Resumes => Some (resumeSimulation s)
  | Stops => Some (stopSimulation s)
  | ChangesSpeed speed => Some (changePlaybackSpeed speed s, [])
  | Fires currentTime random => tick currentTime random s
  end.

(** A run of actions, with all the effects in order. *)
Fixpoint acts (actions : list Action) (s : State) : option (State * list Effect) :=
  match actions with
  | [] => Some (s, [])
  | a :: actions' =>
      '(s', effects) ← act a s;
      '(s'', effects') ← acts actions' s';
      Some (s'', effects ++ effects')
  end.

(** An effect that reaches the other clients. *)
Definition isBroadcast (e : Effect) : bool :=
  match e with
  | toast _ _ => false
  | sendNotification _ _ _ | broadcastSimulationUpdate _ => true
  end.

(** The hook at rest: disabled, with nothing connected or pending. *)
Definition atRest : Hook := mkHook false false None 0 None None.

(** What the hook keeps true: the counter is at most the maximum; a
    client at hand was created by the current render and then no retry
    is pending; a pending retry was scheduled by the current render,
    after at least one failure, with the delay of the current counter;
    and a disabled hook is at rest. *)
Definition consistent (h : Hook) : Prop :=
  (reconnectAttempts h <= maxReconnectAttempts)%nat /\
  (forall r, clientRef h = Some r ->
     r = currentRender h /\ enabled h = true /\ reconnectTimeoutRef h = None) /\
  (forall t, reconnectTimeoutRef h = Some t ->
     t = mkTimeout (reconnectDelay (reconnectAttempts h)) (currentRender h) /\
     enabled h = true /\ (0 < reconnectAttempts h)%nat) /\
  (enabled h = false -> h = atRest).

(** A planner in which a chosen destination comes with a different
    chosen source. *)
Definition distinctEnds (p : Planner) : Prop :=
  forall destination,
    selectedDestinationWaypoint p = Some destination ->
    exists source,
      selectedSourceWaypoint p = Some source /\ source <> destination.

(** A run of waypoint clicks. *)
Definition handleWaypointSelects (clicks : list Z) (s : State) (p : Planner) : Planner :=
  foldl (fun p waypointId => fst (handleWaypointSelect waypointId s p)) p clicks.

(** A path point is flagged as a waypoint. *)
Definition isFlagged (point : PathPoint.t) : bool :=
  bool_decide (PathPoint.isWaypoint point = Some true).

(** Vehicle [v] uses the waypoint [k]: it stands at it, heads for it,
    or its route has a flagged point that carries its id. *)
Definition usesWaypoint (v : Vehicle.t) (k : Z) : Prop :=
  Vehicle.currentWaypoint v = Some k \/
  Vehicle.targetWaypoint v = Some k \/
  exists point, point ∈ default [] (Vehicle.plannedPath v) /\
                isFlagged point = true /\ PathPoint.waypointId point = Some k.

(** The layers after the vehicle effect has run for each roster of
    [rosters] in turn, on a map that is ready. *)
Definition layersAfter (waypoints : list Waypoint.t) (rosters : list (list Vehicle.t))
  : Layers :=
  foldl (fun layers roster => updateVehicleLayers true waypoints roster layers)
        (mkLayers ∅ ∅) rosters.

(** The marker keys are renderings of ids. *)
Definition canonical (markers : gmap string Marker) : Prop :=
  forall key marker, markers !! key = Some marker -> exists id : Z, key = pretty id.

(** The marker that [drawVehicle] leaves for a vehicle. *)
Definition drawn (waypoints : list Waypoint.t) (before : gmap string Marker)
    (v : Vehicle.t) : option Marker :=
  let position := vehiclePosition waypoints v in
  let key := pretty (Vehicle.id v) in
  if truthy (fst position) && truthy (snd position) then
    Some (mkMarker position (vehicleMarkerIcon v)
            (match before !! key with
             | Some existingMarker => marker_popup existingMarker
             | None => v
             end))
  else before !! key.

(** The test of the clean-up: some vehicle of the roster has the id
    that the key reads as. *)
Definition onRoster (roster : list Vehicle.t) (key : string) : bool :=
  match List.find (fun v => bool_decide (Some (Vehicle.id v) = Number_parseInt key))
                  roster with
  | Some _ => true
  | None => false
  end.

(** The waypoint of the table that a load reads back for a saved
    waypoint of the table. *)
Definition readBack (wp : Waypoint.t) : Waypoint.t :=
  if Z.eqb (Waypoint.id wp) 11 then lokVirsaMuseum else wp.

(** ** Further sample data *)

(** The answer of the backend for vehicle 7. *)
Definition corollaResponse : FetchResult VehicleResponseDto.t :=
  Fulfilled (VehicleResponseDto.mk
               (Some (VehicleDto.mk 7 "ABC-123" "Corolla" "Toyota" "Sedan" 60 "ACTIVE"))
               None).

(** An operator who has picked waypoints 4 and 12 and typed the id 7. *)
Definition readyPlanner : Planner :=
  mkPlanner (Some 4%Z) (Some 12%Z) selectingDestination "7" 50 0.

(** A producer session with nothing on the map. *)
Definition emptySession : State :=
  mkState (Some admin) true [] false false 1 false None.

(** A viewer that has not seen a run yet. *)
Definition waitingViewer : State :=
  mkState (Some user) true [] false false 1 false None.

(** A record of two vehicles between Lok Virsa Museum and the Rose &
    Jasmine Garden, as a save writes it. *)
Definition savedRecord : SimulationRecord.t :=
  SimulationRecord.mk 1 "Morning run"
    [VehicleInfoDto.mk 7 50 0; VehicleInfoDto.mk 8 40 0]
    [toWayPointDto lokVirsaMuseum; toWayPointDto roseAndJasmineGarden].

(** A producer session with the vehicle that waits ten seconds. *)
Definition placedSession : State :=
  mkState (Some admin) true [placedVehicle] false false 1 false None.

(** * Properties *)

(** ** Comparisons and truthiness on reals *)

#[local] Arguments orN : simpl never.
#[local] Arguments orR : simpl never.
#[local] Arguments orS : simpl never.
#[local] Arguments orL : simpl never.
#[local] Arguments truthy : simpl never.
#[local] Arguments truthyR : simpl never.
#[local] Arguments truthyN : simpl never.

Lemma Rltb_true (x y : R) : x < y -> Rltb x y = true.
Proof. intros H. unfold Rltb. destruct (Rlt_dec x y); [reflexivity | contradiction]. Qed.

Lemma Rltb_false (x y : R) : y <= x -> Rltb x y = false.
Proof. intros H. unfold Rltb. destruct (Rlt_dec x y); [lra | reflexivity]. Qed.

Lemma Rleb_true (x y : R) : x <= y -> Rleb x y = true.
Proof. intros H. unfold Rleb. destruct (Rle_dec x y); [reflexivity | contradiction]. Qed.

Lemma Rleb_false (x y : R) : y < x -> Rleb x y = false.
Proof. intros H. unfold Rleb. destruct (Rle_dec x y); [lra | reflexivity]. Qed.

Lemma Reqb_true (x y : R) : x = y -> Reqb x y = true.
Proof. intros H. unfold Reqb. destruct (Req_dec_T x y); [reflexivity | contradiction]. Qed.

Lemma Reqb_false (x y : R) : x <> y -> Reqb x y = false.
Proof. intros H. unfold Reqb. destruct (Req_dec_T x y); [contradiction | reflexivity]. Qed.

Lemma Rltb_spec (x y : R) : Rltb x y = true <-> x < y.
Proof.
  unfold Rltb. destruct (Rlt_dec x y); split; intros; try easy.
Qed.

Lemma Rleb_spec (x y : R) : Rleb x y = true <-> x <= y.
Proof.
  unfold Rleb. destruct (Rle_dec x y); split; intros; try easy.
Qed.

Lemma truthyR_Some (x : R) : x <> 0 -> truthyR (Some x) = true.
Proof. intros H. unfold truthyR. now rewrite Reqb_false. Qed.

Lemma truthyR_zero : truthyR (Some 0) = false.
Proof. unfold truthyR. now rewrite Reqb_true. Qed.

Lemma orN_zero (b : number) : orN (Some (Num 0)) b = b.
Proof. unfold orN, truthy. now rewrite Reqb_true. Qed.

Lemma orN_nonzero (x : R) (b : number) : x <> 0 -> orN (Some (Num x)) b = Num x.
Proof. intros H. unfold orN, truthy. now rewrite Reqb_false. Qed.

Lemma orN_keeps_finite (p : R) : orN (Some (Num p)) (Num 0) = Num p.
Proof.
  destruct (Req_dec_T p 0) as [-> | Hp].
  - apply orN_zero.
  - now apply orN_nonzero.
Qed.

Lemma orR_nonzero (x b : R) : x <> 0 -> orR (Some x) b = x.
Proof. intros H. unfold orR. now rewrite Reqb_false. Qed.

Lemma orR_zero (b : R) : orR (Some 0) b = b.
Proof. unfold orR. now rewrite Reqb_true. Qed.

(** ** Reconciler *)

Lemma foldl_record_lookup (l : list Vehicle.t) (m : gmap Z Vehicle.t)
    (k : Z) (v : Vehicle.t) :
  foldl recordVehicle m l !! k = Some v ->
  (v ∈ l /\ Vehicle.id v = k) \/ m !! k = Some v.
Proof.
  revert m. induction l as [|x l IH]; intros m H; simpl in H.
  - now right.
  - apply IH in H. destruct H as [[Hin Hid] | H].
    + left. split; [now apply elem_of_cons; right | exact Hid].
    + unfold recordVehicle in H. destruct (decide (Vehicle.id x = k)) as [Heq | Hne].
      * subst k. rewrite lookup_insert_eq in H. injection H as <-.
        left. split; [apply elem_of_cons; now left | reflexivity].
      * rewrite lookup_insert_ne in H by exact Hne. now right.
Qed.



(** A vehicle found under a key carries that key and comes from the
    roster. *)
Lemma existingVehiclesMap_lookup (prevVehicles : list Vehicle.t) (k : Z)
    (v : Vehicle.t) :
  existingVehiclesMap prevVehicles !! k = Some v ->
  v ∈ prevVehicles /\ Vehicle.id v = k.
Proof.
  intros H. apply foldl_record_lookup in H as [H | H]; [exact H |].
  now rewrite lookup_empty in H.
Qed.




(** The id of what a delta entry yields is the id of the entry. *)
Lemma applyPositionUpdate_id (now : R) (prevVehicles : list Vehicle.t)
    (positionUpdate : PositionUpdate.t) (v : Vehicle.t) :
  applyPositionUpdate now (existingVehiclesMap prevVehicles) positionUpdate = Some v ->
  Vehicle.id v = PositionUpdate.id positionUpdate.
Proof.
  unfold applyPositionUpdate.
  destruct (existingVehiclesMap prevVehicles !! PositionUpdate.id positionUpdate)
    as [e|] eqn:He.
  - apply existingVehiclesMap_lookup in He as [_ Hid].
    destruct (truthyR _ && truthyR _); intros [= <-]; exact Hid.
  - destruct (truthyR _ && truthyR _); [intros [= <-]; reflexivity | discriminate].
Qed.

(** Membership in the filtered roster. *)
Lemma elem_of_validUpdatedVehicles (l : list (option Vehicle.t)) (v : Vehicle.t) :
  v ∈ validUpdatedVehicles l <-> Some v ∈ l /\ Vehicle.id v <> 0%Z.
Proof.
  unfold validUpdatedVehicles. rewrite list_elem_of_omap. split.
  - intros [[w|] [Hin Hw]]; simpl in Hw; [| discriminate].
    destruct (Z.eqb_spec (Vehicle.id w) 0); [discriminate |].
    injection Hw as ->. now split.
  - intros [Hin Hid]. exists (Some v). split; [exact Hin |]. simpl.
    destruct (Z.eqb_spec (Vehicle.id v) 0); [contradiction | reflexivity].
Qed.

Lemma usablePosition_truthy (positionUpdate : PositionUpdate.t) :
  usablePosition positionUpdate <->
  truthyR (PositionUpdate.currentLat positionUpdate) &&
  truthyR (PositionUpdate.currentLng positionUpdate) = true.
Proof.
  unfold usablePosition. split.
  - intros (a & b & -> & Ha & -> & Hb). now rewrite !truthyR_Some.
  - intros H. apply andb_prop in H as [Ha Hb].
    destruct (PositionUpdate.currentLat positionUpdate) as [a|]; [| discriminate].
    destruct (PositionUpdate.currentLng positionUpdate) as [b|]; [| discriminate].
    unfold truthyR, Reqb in Ha, Hb. exists a, b.
    destruct (Req_dec_T a 0); [discriminate |].
    destruct (Req_dec_T b 0); [discriminate |]. easy.
Qed.

Lemma withIdle_idledFrom (v : Vehicle.t) : idledFrom v (withIdle v).
Proof. unfold idledFrom, sameStructure. simpl. repeat split. Qed.

(** C5, as the code has it: stopping a run sets the status of every
    vehicle of the roster to idle and leaves every other field, the
    kinematics ([simulationData]) among them, as it was, both when the
    producer runs [stopSimulation] and when a viewer handles the
    run-stopped message. *)
Theorem stop_idles_and_keeps_kinematics
    (producer viewer : State) (now : R) (data : option (list Vehicle.t)) :
  userType producer = Some admin ->
  userType viewer = Some user ->
  Forall2 idledFrom (vehicles producer) (vehicles (fst (stopSimulation producer))) /\
  simulationInterval (fst (stopSimulation producer)) = None /\
  Forall2 idledFrom (vehicles viewer)
          (vehicles (handleSimulationUpdate now (SIMULATION_STOPPED data) viewer)).
Proof.
  intros Hp Hv.
  unfold stopSimulation, handleSimulationUpdate, handleSimulationUpdateOf, is_admin,
    is_user.
  rewrite Hp, Hv. simpl. repeat split.
  - apply Forall2_fmap_r, Forall_Forall2_diag, Forall_forall.
    intros v _. apply withIdle_idledFrom.
  - apply Forall2_fmap_r, Forall_Forall2_diag, Forall_forall.
    intros v _. apply withIdle_idledFrom.
Qed.

Lemma stop_idles_and_keeps_kinematics_witness :
  Forall2 idledFrom (vehicles producerSession)
          (vehicles (fst (stopSimulation producerSession))) /\
  simulationInterval (fst (stopSimulation producerSession)) = None /\
  Forall2 idledFrom (vehicles viewerSession)
          (vehicles (handleSimulationUpdate 9000 (SIMULATION_STOPPED None)
                       viewerSession)).
Proof.
  apply (stop_idles_and_keeps_kinematics producerSession viewerSession 9000 None);
    reflexivity.
Defined.

(** C5 fails as stated: after [stopSimulation], and after the
    run-stopped message on a viewer, the sample roster still carries its
    kinematics. *)
Lemma stop_does_not_clear_kinematics :
  ~ idleAndCleared (vehicles (fst (stopSimulation producerSession))) /\
  ~ idleAndCleared
      (vehicles (handleSimulationUpdate 9000 (SIMULATION_STOPPED None)
                   viewerSession)) /\
  Vehicle.simulationData <$> vehicles (fst (stopSimulation producerSession))
    = [Some sampleKinematics; Some sampleKinematics].
Proof.
  repeat split.
  - intros H. apply Forall_cons in H as [[_ H] _]. discriminate H.
  - intros H. apply Forall_cons in H as [[_ H] _]. discriminate H.
Qed.

(** ** Reconciler: the roster after a position delta *)

(** Every vehicle of the roster is found under its id, itself or a
    later vehicle with the same id. *)
Lemma existingVehiclesMap_is_Some (prevVehicles : list Vehicle.t) (v : Vehicle.t) :
  v ∈ prevVehicles ->
  is_Some (existingVehiclesMap prevVehicles !! Vehicle.id v).
Proof.
  unfold existingVehiclesMap.
  induction prevVehicles as [|x l IH] using rev_ind; intros Hv.
  - now apply elem_of_nil in Hv.
  - rewrite foldl_app. cbn [foldl]. unfold recordVehicle at 1.
    destruct (decide (Vehicle.id x = Vehicle.id v)) as [Heq | Hne].
    + rewrite Heq, lookup_insert_eq. now eexists.
    + rewrite lookup_insert_ne by exact Hne. apply IH.
      apply elem_of_app in Hv as [Hv | Hv]; [exact Hv |].
      apply list_elem_of_singleton in Hv. congruence.
Qed.

Lemma existingVehiclesMap_None (prevVehicles : list Vehicle.t) (k : Z) :
  existingVehiclesMap prevVehicles !! k = None ->
  forall known, known ∈ prevVehicles -> Vehicle.id known <> k.
Proof.
  intros Hnone known Hknown <-.
  destruct (existingVehiclesMap_is_Some prevVehicles known Hknown) as [v Hv].
  congruence.
Qed.

(** What one entry of a delta yields: a vehicle derived from it when
    [yieldsVehicle] holds, and nothing otherwise. *)
Lemma applyPositionUpdate_derivedFrom (now : R) (prevVehicles : list Vehicle.t)
    (positionUpdate : PositionUpdate.t) :
  let kept :=
    applyPositionUpdate now (existingVehiclesMap prevVehicles) positionUpdate
      ≫= fun vehicle =>
           if Z.eqb (Vehicle.id vehicle) 0 then None else Some vehicle in
  if yieldsVehicle prevVehicles positionUpdate
  then exists v, kept = Some v /\ derivedFrom now prevVehicles positionUpdate v
  else kept = None.
Proof.
  cbv zeta. unfold yieldsVehicle, applyPositionUpdate.
  destruct (existingVehiclesMap prevVehicles !! PositionUpdate.id positionUpdate)
    as [existing|] eqn:Hlook.
  - apply existingVehiclesMap_lookup in Hlook as [Hin Hid].
    assert (Hknown : PositionUpdate.id positionUpdate ∈ map Vehicle.id prevVehicles).
    { apply list_elem_of_fmap. now exists existing. }
    rewrite (bool_decide_eq_true_2 _ Hknown), orb_true_r, andb_true_r.
    destruct (truthyR (PositionUpdate.currentLat positionUpdate)
              && truthyR (PositionUpdate.currentLng positionUpdate)) eqn:Husable.
    + cbn [mbind option_bind Vehicle.id]. rewrite Hid.
      destruct (Z.eqb_spec (PositionUpdate.id positionUpdate) 0) as [_ | Hne];
        [reflexivity |].
      cbn [negb]. eexists. split; [reflexivity |].
      apply usablePosition_truthy in Husable
        as (currentLat & currentLng & Hlat & Hlat0 & Hlng & Hlng0).
      split; [reflexivity |]. left. exists existing.
      split; [exact Hin |]. split; [exact Hid |]. right.
      exists currentLat, currentLng. rewrite Hlat, Hlng. cbn [default].
      repeat split; try assumption.
      eexists. repeat split.
    + cbn [mbind option_bind]. rewrite Hid.
      destruct (Z.eqb_spec (PositionUpdate.id positionUpdate) 0) as [_ | Hne];
        [reflexivity |].
      cbn [negb]. exists existing. split; [reflexivity |].
      split; [exact Hid |]. left. exists existing.
      split; [exact Hin |]. split; [exact Hid |]. left.
      split; [| reflexivity].
      intros Hu. apply usablePosition_truthy in Hu. congruence.
  - pose proof (existingVehiclesMap_None _ _ Hlook) as Hnone.
    rewrite bool_decide_eq_false_2, orb_false_r.
    2:{ intros Hknown. apply list_elem_of_fmap in Hknown as (known & Hid & Hin).
        now apply (Hnone known Hin). }
    destruct (truthyR (PositionUpdate.currentLat positionUpdate)
              && truthyR (PositionUpdate.currentLng positionUpdate)) eqn:Husable.
    + cbn [mbind option_bind Vehicle.id].
      destruct (Z.eqb_spec (PositionUpdate.id positionUpdate) 0) as [_ | Hne];
        [reflexivity |].
      cbn [negb andb]. eexists. split; [reflexivity |].
      apply usablePosition_truthy in Husable
        as (currentLat & currentLng & Hlat & Hlat0 & Hlng & Hlng0).
      split; [reflexivity |]. right. split; [exact Hnone |].
      exists currentLat, currentLng. rewrite Hlat, Hlng. cbn [default].
      repeat split; try assumption.
      eexists. repeat split.
    + rewrite andb_false_r. reflexivity.
Qed.

Lemma applyLivePositionUpdate_derivedFrom (now : R)
    (updates : list PositionUpdate.t) (prevVehicles : list Vehicle.t) :
  Forall2 (derivedFrom now prevVehicles)
          (List.filter (yieldsVehicle prevVehicles) updates)
          (applyLivePositionUpdate now (Some updates) prevVehicles).
Proof.
  unfold applyLivePositionUpdate, validUpdatedVehicles.
  induction updates as [|positionUpdate updates IH]; [constructor |].
  cbn [map omap list_omap List.filter].
  pose proof (applyPositionUpdate_derivedFrom now prevVehicles positionUpdate)
    as Hentry.
  cbv zeta in Hentry.
  destruct (yieldsVehicle prevVehicles positionUpdate).
  - destruct Hentry as (v & -> & Hv). now constructor.
  - rewrite Hentry. exact IH.
Qed.

(** C9: a position delta replaces the roster.  The handler that the
    socket client calls is the one of the render in which the client
    was built; when that render was a viewer receiving a run, a
    [LIVE_POSITION_UPDATE] replaces the roster, whatever it holds, by
    exactly the vehicles that the entries of the delta yield, one per
    entry and in the order of the delta: the entries with an id other
    than [0] that carry a usable position or whose id a vehicle of the
    roster has.  Each of these vehicles has the id of its entry and is
    merged, carried over or synthesized.  A vehicle of the roster whose
    id the delta does not mention has no successor in the new roster;
    the rest of the state is left as it is. *)
Theorem live_position_update_replaces_roster
    (now : R) (updates : option (list PositionUpdate.t)) (stats : option Stats)
    (render s : State) :
  userType render = Some user ->
  isReceivingSimulation render = true ->
  let s' := handleSimulationUpdateOf render now
              (LIVE_POSITION_UPDATE updates stats) s in
  Forall2 (derivedFrom now (vehicles s))
          (List.filter (yieldsVehicle (vehicles s)) (default [] updates))
          (vehicles s') /\
  (forall known,
     known ∈ vehicles s ->
     (forall positionUpdate, positionUpdate ∈ default [] updates ->
        PositionUpdate.id positionUpdate <> Vehicle.id known) ->
     forall v, v ∈ vehicles s' -> Vehicle.id v <> Vehicle.id known) /\
  s' = setVehicles (vehicles s') s.
Proof.
  intros Hu Hr s'.
  assert (Hs' : s' = setVehicles
                       (applyLivePositionUpdate now (Some (default [] updates))
                                                (vehicles s)) s).
  { unfold s', handleSimulationUpdateOf, is_user. rewrite Hu, Hr.
    cbn [isUserType andb]. now destruct updates. }
  assert (Hderived : Forall2 (derivedFrom now (vehicles s))
                       (List.filter (yieldsVehicle (vehicles s)) (default [] updates))
                       (vehicles s')).
  { rewrite Hs'. cbn [setVehicles vehicles].
    apply applyLivePositionUpdate_derivedFrom. }
  split; [exact Hderived |]. split.
  - intros known _ Hnone v Hv.
    apply list_elem_of_lookup in Hv as [i Hv].
    destruct (Forall2_lookup_r _ _ _ _ _ Hderived Hv)
      as (positionUpdate & Hentry & Hid & _).
    rewrite Hid. apply Hnone.
    apply list_elem_of_lookup_2 in Hentry.
    apply list_elem_of_In, filter_In in Hentry as [Hentry _].
    now apply list_elem_of_In.
  - rewrite Hs'. reflexivity.
Qed.

Lemma live_position_update_replaces_roster_witness :
  let s' := handleSimulationUpdateOf viewerSession 6000
              (LIVE_POSITION_UPDATE (Some [entryAt 7 33.6845 73.0400]) None)
              viewerSession in
  Forall2 (derivedFrom 6000 (vehicles viewerSession))
          (List.filter (yieldsVehicle (vehicles viewerSession))
                       (default [] (Some [entryAt 7 33.6845 73.0400])))
          (vehicles s') /\
  (forall known,
     known ∈ vehicles viewerSession ->
     (forall positionUpdate,
        positionUpdate ∈ default [] (Some [entryAt 7 33.6845 73.0400]) ->
        PositionUpdate.id positionUpdate <> Vehicle.id known) ->
     forall v, v ∈ vehicles s' -> Vehicle.id v <> Vehicle.id known) /\
  s' = setVehicles (vehicles s') viewerSession.
Proof.
  apply (live_position_update_replaces_roster 6000
           (Some [entryAt 7 33.6845 73.0400]) None viewerSession viewerSession);
    reflexivity.
Defined.

(** C10: the merge tests the numeric fields of a delta entry by
    truthiness.  An entry whose latitude or longitude is [0] carries no
    usable position: the vehicle it matches is returned as it is, and
    without a match nothing is returned.  With a usable position, a
    progress or a heading of [0] leaves the previous progress or heading
    of the vehicle in place. *)
Theorem zero_valued_fields_count_as_absent
    (now : R) (existingVehicles : gmap Z Vehicle.t)
    (existing : Vehicle.t) (sd : SimulationData.t) (previousProgress previousHeading : R)
    (id : Z) (licensePlate : option string) (currentLat currentLng : R)
    (other heading progress : option R) (status : option string)
    (distanceTravelled timestamp speed : option R) :
  existingVehicles !! id = Some existing ->
  Vehicle.simulationData existing = Some sd ->
  SimulationData.progress sd = Some (Num previousProgress) ->
  SimulationData.heading sd = Num previousHeading ->
  currentLat <> 0 ->
  currentLng <> 0 ->
  let entry lat lng heading progress :=
    PositionUpdate.mk id licensePlate lat lng heading progress status
                      distanceTravelled timestamp speed in
  applyPositionUpdate now existingVehicles
    (entry (Some 0) other heading progress) = Some existing /\
  applyPositionUpdate now existingVehicles
    (entry other (Some 0) heading progress) = Some existing /\
  applyPositionUpdate now (delete id existingVehicles)
    (entry (Some 0) other heading progress) = None /\
  applyPositionUpdate now (delete id existingVehicles)
    (entry other (Some 0) heading progress) = None /\
  (exists v sd',
     applyPositionUpdate now existingVehicles
       (entry (Some currentLat) (Some currentLng) heading (Some 0)) = Some v /\
     Vehicle.simulationData v = Some sd' /\
     SimulationData.progress sd' = Some (Num previousProgress)) /\
  (exists v sd',
     applyPositionUpdate now existingVehicles
       (entry (Some currentLat) (Some currentLng) (Some 0) progress) = Some v /\
     Vehicle.simulationData v = Some sd' /\
     SimulationData.heading sd' = Num previousHeading).
Proof.
  intros He Hsd Hp Hh Hlat Hlng entry.
  unfold applyPositionUpdate, entry.
  cbn [PositionUpdate.id PositionUpdate.currentLat PositionUpdate.currentLng].
  rewrite He, lookup_delete_eq, truthyR_zero, !truthyR_Some by assumption.
  rewrite andb_false_r. simpl. repeat split.
  - eexists _, _. repeat split. simpl.
    rewrite Hsd. simpl. rewrite Hp, orN_zero. f_equal. apply orN_keeps_finite.
  - eexists _, _. repeat split. simpl.
    rewrite Hsd. simpl. rewrite Hh, orN_zero. apply orN_keeps_finite.
Qed.

Lemma zero_valued_fields_count_as_absent_witness :
  let entry lat lng heading progress :=
    PositionUpdate.mk 7 None lat lng heading progress (Some "moving"%string)
                      (Some 2) (Some 5000) None in
  let existingVehicles : gmap Z Vehicle.t := {[ 7%Z := sampleVehicle ]} in
  applyPositionUpdate 6000 existingVehicles
    (entry (Some 0) (Some 73.04) (Some 90) (Some 0.25)) = Some sampleVehicle /\
  applyPositionUpdate 6000 existingVehicles
    (entry (Some 73.04) (Some 0) (Some 90) (Some 0.25)) = Some sampleVehicle /\
  applyPositionUpdate 6000 (delete 7%Z existingVehicles)
    (entry (Some 0) (Some 73.04) (Some 90) (Some 0.25)) = None /\
  applyPositionUpdate 6000 (delete 7%Z existingVehicles)
    (entry (Some 73.04) (Some 0) (Some 90) (Some 0.25)) = None /\
  (exists v sd',
     applyPositionUpdate 6000 existingVehicles
       (entry (Some 33.6845) (Some 73.04) (Some 90) (Some 0)) = Some v /\
     Vehicle.simulationData v = Some sd' /\
     SimulationData.progress sd' = Some (Num 0.5)) /\
  (exists v sd',
     applyPositionUpdate 6000 existingVehicles
       (entry (Some 33.6845) (Some 73.04) (Some 0) (Some 0.25)) = Some v /\
     Vehicle.simulationData v = Some sd' /\
     SimulationData.heading sd' = Num 270).
Proof.
  apply (zero_valued_fields_count_as_absent 6000 {[ 7%Z := sampleVehicle ]}
           sampleVehicle sampleKinematics 0.5 270 7 None 33.6845 73.04
           (Some 73.04) (Some 90) (Some 0.25) (Some "moving"%string) (Some 2)
           (Some 5000) None);
    first [ apply lookup_singleton_eq | reflexivity | lra ].
Defined.




(** ** MotionEngine: delayed start *)

Lemma Math_ceil_spec (x : R) : IZR (Math_ceil x) - 1 < x <= IZR (Math_ceil x).
Proof.
  unfold Math_ceil, Int_part.
  destruct (archimed (- x)) as [H1 H2].
  rewrite opp_IZR, minus_IZR. lra.
Qed.

(** One tick of a delayed vehicle before its delay has elapsed. *)
Lemma tickVehicle_still_delayed (fromStart wsConnected : bool)
    (playbackSpeed t0 d currentTime : R) (v : Vehicle.t) :
  t0 <> 0 ->
  delayedSince t0 d v ->
  currentTime - t0 < d * 1000 ->
  exists v',
    tickVehicle fromStart wsConnected playbackSpeed currentTime v = Some (v', []) /\
    delayedSince t0 d v' /\
    showsRemaining ((d * 1000 - (currentTime - t0)) / 1000) v'.
Proof.
  intros Ht0 (Hst & Hd & Hpath & sd & Hsd & Hdel & Hds) Hlt.
  unfold tickVehicle. rewrite Hsd.
  destruct (Vehicle.plannedPath v) as [path|] eqn:Hp; [| contradiction].
  rewrite Hdel, Hds, truthyR_Some by exact Ht0. simpl.
  rewrite Hd, Rltb_true by exact Hlt.
  eexists. split; [reflexivity |]. split.
  - unfold delayedSince. simpl. repeat split; try assumption.
    + now rewrite Hp.
    + exists (stillDelayed sd
                (DelayedFor (Math_ceil ((d * 1000 - (currentTime - t0)) / 1000)))).
      destruct sd; simpl in *. repeat split; assumption.
  - eexists _, _. simpl. split; [reflexivity |]. split.
    + destruct sd; reflexivity.
    + apply Math_ceil_spec.
Qed.

(** One tick of a delayed vehicle once its delay has elapsed. *)
Lemma tickVehicle_delay_elapsed (fromStart wsConnected : bool)
    (playbackSpeed t0 d currentTime : R) (v : Vehicle.t) :
  t0 <> 0 ->
  delayedSince t0 d v ->
  d * 1000 <= currentTime - t0 ->
  exists v' effects,
    tickVehicle fromStart wsConnected playbackSpeed currentTime v
      = Some (v', effects) /\
    movingSince currentTime v'.
Proof.
  intros Ht0 (Hst & Hd & Hpath & sd & Hsd & Hdel & Hds) Hge.
  unfold tickVehicle. rewrite Hsd.
  destruct (Vehicle.plannedPath v) as [path|] eqn:Hp; [| contradiction].
  rewrite Hdel, Hds, truthyR_Some by exact Ht0. simpl.
  rewrite Hd, Rltb_false by exact Hge.
  eexists _, _. split; [reflexivity |].
  unfold movingSince. simpl. split; [reflexivity |].
  eexists. split; [reflexivity |]. destruct sd; simpl. now split.
Qed.

(** Ticks that all fire before the delay has elapsed leave the vehicle
    delayed. *)
Lemma tickVehicleAt_still_delayed (fromStart wsConnected : bool)
    (playbackSpeed t0 d : R) (times : list R) (v : Vehicle.t) :
  t0 <> 0 ->
  delayedSince t0 d v ->
  Forall (fun t => t - t0 < d * 1000) times ->
  exists v',
    tickVehicleAt fromStart wsConnected playbackSpeed times v = Some v' /\
    delayedSince t0 d v'.
Proof.
  intros Ht0. revert v. induction times as [|t times IH]; intros v Hv Hall.
  - exists v. now split.
  - apply Forall_cons in Hall as [Ht Hall].
    destruct (tickVehicle_still_delayed fromStart wsConnected playbackSpeed
                t0 d t v Ht0 Hv Ht) as (v1 & Htick & Hv1 & _).
    simpl. rewrite Htick. now apply IH.
Qed.

Lemma tickVehicleAt_app (fromStart wsConnected : bool) (playbackSpeed : R)
    (times times' : list R) (v : Vehicle.t) :
  tickVehicleAt fromStart wsConnected playbackSpeed (times ++ times') v =
  tickVehicleAt fromStart wsConnected playbackSpeed times v
    ≫= tickVehicleAt fromStart wsConnected playbackSpeed times'.
Proof.
  revert v. induction times as [|t times IH]; intros v; simpl; [reflexivity |].
  destruct (tickVehicle _ _ _ t v) as [[v' effects]|]; [apply IH | reflexivity].
Qed.

(** The callbacks of the run start and of the loop, on one vehicle.
    When a run starts at [now], a vehicle with a non-empty path and no
    start delay is MOVING at once with [startTime = now]; one with a
    start delay of [d > 0] seconds is DELAYED with
    [delayStartTime = now], is still DELAYED after every tick that fires
    less than [d] seconds after [now], its label then showing the
    remaining seconds rounded up, and is MOVING after the first tick
    that fires [d] seconds after [now] or later, with [startTime] the
    time of that tick.  The clock reads a time after the epoch. *)
Lemma initializeVehicle_delayed_start
    (fromStart wsConnected : bool) (playbackSpeed now random : R)
    (vehicle : Vehicle.t) (first : PathPoint.t) (rest : list PathPoint.t) :
  Vehicle.plannedPath vehicle = Some (first :: rest) ->
  0 < now ->
  let started := initializeVehicle now random vehicle in
  let d := Vehicle.initialDelay vehicle in
  (d = 0 -> movingSince now started) /\
  (0 < d ->
   delayedSince now d started /\
   forall times t,
     Forall (fun t' => t' - now < d * 1000) times ->
     (t - now < d * 1000 ->
      exists v,
        tickVehicleAt fromStart wsConnected playbackSpeed (times ++ [t]) started
          = Some v /\
        delayedSince now d v /\
        showsRemaining ((d * 1000 - (t - now)) / 1000) v) /\
     (d * 1000 <= t - now ->
      exists v,
        tickVehicleAt fromStart wsConnected playbackSpeed (times ++ [t]) started
          = Some v /\
        movingSince t v)).
Proof.
  intros Hpath Hnow started d.
  assert (Hnow0 : now <> 0) by lra.
  split.
  - intros Hd. unfold started, initializeVehicle. rewrite Hpath.
    fold d. rewrite Hd, Rltb_false by lra.
    unfold movingSince. simpl. split; [reflexivity |].
    eexists. repeat split.
  - intros Hd.
    assert (Hstarted : delayedSince now d started).
    { unfold started, initializeVehicle. rewrite Hpath.
      fold d. rewrite Rltb_true by exact Hd.
      unfold delayedSince. simpl. rewrite Hpath. repeat split; [easy |].
      eexists. repeat split. }
    split; [exact Hstarted |].
    intros times t Hall.
    destruct (tickVehicleAt_still_delayed fromStart wsConnected playbackSpeed
                now d times started Hnow0 Hstarted Hall) as (v1 & Hrun & Hv1).
    split; intros Ht.
    + destruct (tickVehicle_still_delayed fromStart wsConnected playbackSpeed
                  now d t v1 Hnow0 Hv1 Ht) as (v2 & Htick & Hv2 & Hlabel).
      exists v2. rewrite tickVehicleAt_app, Hrun. simpl. rewrite Htick. easy.
    + destruct (tickVehicle_delay_elapsed fromStart wsConnected playbackSpeed
                  now d t v1 Hnow0 Hv1 Ht) as (v2 & effects & Htick & Hv2).
      exists v2. rewrite tickVehicleAt_app, Hrun. simpl. rewrite Htick. easy.
Qed.


(** ** RouteComposer: choice of the intermediate waypoints *)

Section SortByKey.

Context {A : Type} (key : A -> R).

Lemma sort_insert_perm (a : A) (l : list A) :
  Permutation (sort_insert (compareByKey key) a l) (a :: l).
Proof.
  induction l as [|b l IH]; simpl; [reflexivity |].
  destruct (Rltb (compareByKey key b a) 0); [| reflexivity].
  rewrite IH. apply perm_swap.
Qed.

Lemma Array_sort_perm (l : list A) :
  Permutation (Array_sort (compareByKey key) l) l.
Proof.
  induction l as [|a l IH]; simpl; [reflexivity |].
  unfold Array_sort in *. simpl. rewrite sort_insert_perm. now rewrite IH.
Qed.

Lemma sort_insert_sorted (a : A) (l : list A) :
  StronglySorted (fun x y => key x <= key y) l ->
  StronglySorted (fun x y => key x <= key y) (sort_insert (compareByKey key) a l).
Proof.
  induction 1 as [|b l Hl IH Hb]; simpl.
  - repeat constructor.
  - unfold compareByKey at 1. destruct (Rltb (key b - key a) 0) eqn:Hlt.
    + apply Rltb_spec in Hlt. constructor; [exact IH |].
      rewrite sort_insert_perm. constructor; [lra | exact Hb].
    + assert (key a <= key b).
      { destruct (Rlt_dec (key b - key a) 0) as [Hc|Hc].
        - apply Rltb_true in Hc. congruence.
        - lra. }
      constructor; [now constructor |].
      constructor; [assumption |].
      eapply Forall_impl; [exact Hb |]. simpl. intros y Hy. lra.
Qed.

Lemma Array_sort_sorted (l : list A) :
  StronglySorted (fun x y => key x <= key y) (Array_sort (compareByKey key) l).
Proof.
  induction l as [|a l IH]; simpl; [constructor |].
  unfold Array_sort in *. simpl. now apply sort_insert_sorted.
Qed.

End SortByKey.

Lemma List_filter_sublist {A : Type} (f : A -> bool) (l : list A) :
  sublist (List.filter f l) l.
Proof.
  induction l as [|a l IH]; simpl; [constructor |].
  destruct (f a); now constructor.
Qed.

(** C7: below 5 km the composer selects no intermediate waypoint.
    Otherwise it keeps exactly the waypoints of the pool, other than
    the source and the destination, through which the route is less
    than 1.3 times the direct distance, in ascending distance from the
    source, and selects the first two of them, or all when there are
    fewer. *)
Theorem intermediate_waypoints_choice
    (waypoints : list Waypoint.t) (source destination : Waypoint.t) :
  let selected := pathWaypoints waypoints source destination in
  (waypointDistance source destination < 5 /\ selected = []) \/
  (5 <= waypointDistance source destination /\
   exists kept,
     (forall w, w ∈ kept <->
        w ∈ waypoints /\
        Waypoint.id w <> Waypoint.id source /\
        Waypoint.id w <> Waypoint.id destination /\
        onTheWay source destination w) /\
     (exists pool, Permutation kept pool /\ sublist pool waypoints) /\
     StronglySorted (closerTo source) kept /\
     selected = take 2 kept /\
     (length selected <= 2)%nat).
Proof.
  intros selected. unfold selected, pathWaypoints, findPathWaypoints.
  fold (waypointDistance source destination).
  destruct (Rlt_dec (waypointDistance source destination) 5) as [Hlt | Hge].
  - left. split; [exact Hlt |]. now rewrite Rltb_true.
  - right. split; [lra |]. rewrite Rltb_false by lra.
    set (candidates := List.filter _ (nearbyWaypoints waypoints source destination)).
    exists (Array_sort (compareBySourceDistance source) candidates).
    pose proof (Array_sort_perm (fun w => waypointDistance source w) candidates)
      as Hperm.
    pose proof (Array_sort_sorted (fun w => waypointDistance source w) candidates)
      as Hsorted.
    split; [| split; [| split; [| split]]].
    + intros w. rewrite Hperm. unfold candidates, nearbyWaypoints.
      rewrite list_elem_of_In, !filter_In, <- list_elem_of_In.
      rewrite Rltb_spec, andb_true_iff, !negb_true_iff, !Z.eqb_neq.
      unfold onTheWay, waypointDistance. split.
      * intros [[Hin [Hs Hd]] Hway]. repeat split; try assumption. lra.
      * intros (Hin & Hs & Hd & Hway). repeat split; try assumption. lra.
    + exists candidates. split; [exact Hperm |].
      unfold candidates, nearbyWaypoints.
      etransitivity; apply List_filter_sublist.
    + exact Hsorted.
    + reflexivity.
    + rewrite length_take. lia.
Qed.

(** ** SyncChannel: reconnection *)

(** The delays of the successive retries: they double from one second
    up to sixteen, and are thirty seconds from the fifth retry on. *)
Lemma reconnectDelay_values :
  map reconnectDelay (seq 0 11) =
  [1000; 2000; 4000; 8000; 16000; 30000; 30000; 30000; 30000; 30000; 30000]%Z.
Proof. reflexivity. Qed.

Lemma reconnectDelay_ceiling (attempts : nat) :
  (reconnectDelay attempts <= 30000)%Z /\
  ((5 <= attempts)%nat -> reconnectDelay attempts = 30000%Z).
Proof.
  unfold reconnectDelay, baseReconnectDelay. split; [lia |].
  intros H. apply Z.min_r.
  assert (2 ^ 5 <= 2 ^ Z.of_nat attempts)%Z by (apply Z.pow_le_mono_r; lia).
  lia.
Qed.

Lemma reconnectDelay_increasing (attempts : nat) :
  (attempts < 5)%nat -> (reconnectDelay attempts < reconnectDelay (S attempts))%Z.
Proof.
  intros H.
  do 5 (destruct attempts as [|attempts]; [reflexivity |]). lia.
Qed.

(** While the client at hand was created below the maximum, a failure
    raises the counter by one and leaves exactly one retry pending,
    whose delay is [min(1000 * 2^attempts, 30000)] for the new value of
    the counter. *)
Lemma failure_schedules_retry (e : Event) (h : Hook) (attempts : nat) :
  isFailure e ->
  enabled h = true ->
  clientRef h = Some (mkRender true attempts) ->
  (attempts < maxReconnectAttempts)%nat ->
  let h' := dispatch e h in
  enabled h' = true /\
  reconnectAttempts h' = S (reconnectAttempts h) /\
  clientRef h' = None /\
  reconnectTimeoutRef h' =
    Some (mkTimeout (reconnectDelay (S (reconnectAttempts h)))
                    (mkRender true (S (reconnectAttempts h)))).
Proof.
  intros He Hen Hc Hlt h'. unfold h'. clear h'.
  destruct h as [en ic ce ra rt cr]. simpl in Hen, Hc. subst en cr.
  assert (Hlt' : (attempts <? maxReconnectAttempts)%nat = true)
    by now apply Nat.ltb_lt.
  assert (Hneq : forall n, (n =? S n)%nat = false)
    by (intros n; apply Nat.eqb_neq; lia).
  destruct e; simpl in He; try contradiction;
    cbv [dispatch commit handle onDisconnect onStompError onWebSocketError
         onWebSocketClose retry connect cleanup createConnection
         setIsConnected setConnectionError setReconnectAttempts
         connectionEffect currentRender
         enabled isConnected connectionError reconnectAttempts
         reconnectTimeoutRef clientRef r_enabled r_reconnectAttempts negb andb];
    rewrite ?Hlt'.
  all: try (apply Z.eqb_neq in He; rewrite He).
  all: destruct attempts; cbn [Nat.ltb Nat.leb negb andb];
    cbv [enabled isConnected connectionError reconnectAttempts
         reconnectTimeoutRef clientRef r_enabled r_reconnectAttempts negb andb];
    rewrite Hneq; simpl; auto.
Qed.

(** The retry timer fires: the pending attempt becomes the client at
    hand. *)
Lemma timeout_creates_client (h : Hook) (attempts : nat) (delay : Z) :
  enabled h = true ->
  reconnectAttempts h = attempts ->
  clientRef h = None ->
  reconnectTimeoutRef h = Some (mkTimeout delay (mkRender true attempts)) ->
  connectingAt attempts (dispatch TimeoutElapsed h).
Proof.
  destruct h as [en ic ce ra rt cr]. simpl. intros -> -> -> ->.
  unfold connectingAt, dispatch, commit. simpl.
  rewrite Nat.eqb_refl. simpl. easy.
Qed.

(** Once the client at hand was created at the maximum, a failure
    changes neither the counter nor the client, and schedules nothing. *)
Lemma failure_at_maximum_schedules_nothing (e : Event) (h : Hook) :
  isFailure e -> failedState h -> failedState (dispatch e h).
Proof.
  intros He (Hen & Hra & Hrt & Hcr).
  destruct h as [en ic ce ra rt cr]. simpl in *. subst.
  destruct e; simpl in He; try contradiction; hook_compute;
    try (destruct (code =? 1000)%Z); simpl; auto.
Qed.

(** After the first connection and up to ten reconnections have failed
    one after the other, the counter equals the number of failures and
    the client at hand is the attempt made at that count. *)
Lemma consecutive_failures (events : list Event) :
  Forall isFailure events ->
  (length events <= maxReconnectAttempts)%nat ->
  connectingAt (length events) (run (attemptsEndedBy events) (mount true)).
Proof.
  induction events as [|e events IH] using rev_ind; intros Hall Hlen.
  - cbv. auto.
  - apply Forall_app in Hall as [Hall He]. apply Forall_cons in He as [He _].
    rewrite length_app in *. simpl in *.
    unfold attemptsEndedBy, run in *. rewrite bind_app, foldl_app. simpl.
    destruct IH as (Hen & Hra & Hrt & Hcr); [exact Hall | lia |].
    set (h := foldl _ _ _) in *.
    destruct (failure_schedules_retry e h (length events) He Hen Hcr ltac:(lia))
      as (Hen' & Hra' & Hcr' & Hrt').
    rewrite Hra in Hra', Hrt'.
    replace (length events + 1)%nat with (S (length events)) by lia.
    eapply timeout_creates_client; eassumption.
Qed.

(** The channel leaves the FAILED state only with its counter cleared:
    every event either leaves it FAILED or resets the counter to 0. *)
Lemma failed_state_left_only_by_reset (e : Event) (h : Hook) :
  failedState h ->
  failedState (dispatch e h) \/ reconnectAttempts (dispatch e h) = 0%nat.
Proof.
  intros (Hen & Hra & Hrt & Hcr).
  destruct h as [en ic ce ra rt cr]. simpl in *. subst.
  destruct e; hook_compute; simpl; auto.
  - destruct (code =? 1000)%Z; simpl; auto.
  - destruct b; simpl; auto.
Qed.

(** [forceReconnect] takes the channel out of the FAILED state: the
    counter is 0 and a new client is created at once. *)
Lemma force_reconnect_leaves_failed_state (h : Hook) :
  failedState h ->
  connectingAt 0 (dispatch ForceReconnect h) /\
  connectionError (dispatch ForceReconnect h) = None.
Proof.
  intros (Hen & Hra & Hrt & Hcr).
  destruct h as [en ic ce ra rt cr]. simpl in *. subst.
  hook_compute. simpl. auto.
Qed.

(** C8, at the point where the code departs from it.  The first
    connection and ten reconnections fail one after the other.  The
    channel is then FAILED and nothing is scheduled, but the error
    "Max reconnection attempts reached" shows only when the last
    failure is reported by [onDisconnect]: reported by
    [onWebSocketClose] it leaves no error at all, and reported by
    [onWebSocketError] it leaves "WebSocket connection failed". *)
Theorem max_attempts_error_only_on_disconnect :
  let after e :=
    run (attemptsEndedBy (replicate 10 e) ++ [e]) (mount true) in
  (failedState (after (ClientWebSocketClose 1006)) /\
   attemptScheduled (after (ClientWebSocketClose 1006)) = false /\
   connectionError (after (ClientWebSocketClose 1006)) = None) /\
  (failedState (after ClientWebSocketError) /\
   attemptScheduled (after ClientWebSocketError) = false /\
   connectionError (after ClientWebSocketError)
     = Some "WebSocket connection failed"%string) /\
  (failedState (after ClientDisconnected) /\
   attemptScheduled (after ClientDisconnected) = false /\
   connectionError (after ClientDisconnected)
     = Some "Max reconnection attempts reached"%string).
Proof.
  intros after. unfold after, failedState, connectingAt.
  repeat split; vm_compute; reflexivity.
Qed.

(** ** GeoMath: the great-circle distance *)

Lemma sin_cos_unit (x : R) : sin x * sin x + cos x * cos x = 1.
Proof. pose proof (sin2_cos2 x) as H. unfold Rsqr in H. exact H. Qed.

Lemma sin_half_sqr (t : R) : sin (t / 2) * sin (t / 2) = (1 - cos t) / 2.
Proof.
  pose proof (cos_2a_sin (t / 2)) as H.
  replace (2 * (t / 2)) with t in H by field. lra.
Qed.

(** The haversine of two points is half of one minus the cosine of
    their central angle. *)
Lemma haversine_cosCentralAngle (lat1 lng1 lat2 lng2 : R) :
  haversine lat1 lng1 lat2 lng2 =
  (1 - cosCentralAngle (radians lat1) (radians lng1)
                       (radians lat2) (radians lng2)) / 2.
Proof.
  unfold haversine, cosCentralAngle, radians.
  replace (lat1 * PI / 180) with (radians lat1) by reflexivity.
  replace (lat2 * PI / 180) with (radians lat2) by reflexivity.
  replace ((lat2 - lat1) * PI / 180) with (radians lat2 - radians lat1)
    by (unfold radians; field).
  replace ((lng2 - lng1) * PI / 180) with (radians lng2 - radians lng1)
    by (unfold radians; field).
  replace (lng1 * PI / 180) with (radians lng1) by reflexivity.
  replace (lng2 * PI / 180) with (radians lng2) by reflexivity.
  rewrite Rmult_assoc, !sin_half_sqr, !cos_minus. field.
Qed.

(** The inner product of two unit vectors lies between -1 and 1. *)
Lemma cosCentralAngle_bounds (lat1 lng1 lat2 lng2 : R) :
  -1 <= cosCentralAngle lat1 lng1 lat2 lng2 <= 1.
Proof.
  unfold cosCentralAngle.
  pose proof (sin_cos_unit lat1) as H1. pose proof (sin_cos_unit lng1) as H2.
  pose proof (sin_cos_unit lat2) as H3. pose proof (sin_cos_unit lng2) as H4.
  set (a := cos lat1 * cos lng1) in *. set (b := cos lat1 * sin lng1) in *.
  set (c := sin lat1) in *.
  set (d := cos lat2 * cos lng2) in *. set (e := cos lat2 * sin lng2) in *.
  set (f := sin lat2) in *.
  assert (Hu : a * a + b * b + c * c = 1).
  { unfold a, b. replace (cos lat1 * cos lng1 * (cos lat1 * cos lng1)
                          + cos lat1 * sin lng1 * (cos lat1 * sin lng1) + c * c)
      with (cos lat1 * cos lat1 * (sin lng1 * sin lng1 + cos lng1 * cos lng1) + c * c)
      by ring.
    rewrite H2. lra. }
  assert (Hv : d * d + e * e + f * f = 1).
  { unfold d, e. replace (cos lat2 * cos lng2 * (cos lat2 * cos lng2)
                          + cos lat2 * sin lng2 * (cos lat2 * sin lng2) + f * f)
      with (cos lat2 * cos lat2 * (sin lng2 * sin lng2 + cos lng2 * cos lng2) + f * f)
      by ring.
    rewrite H4. lra. }
  clearbody a b c d e f.
  pose proof (Rle_0_sqr (a - d)) as Hm1. pose proof (Rle_0_sqr (b - e)) as Hm2.
  pose proof (Rle_0_sqr (c - f)) as Hm3.
  pose proof (Rle_0_sqr (a + d)) as Hp1. pose proof (Rle_0_sqr (b + e)) as Hp2.
  pose proof (Rle_0_sqr (c + f)) as Hp3.
  unfold Rsqr in *. split; lra.
Qed.

Lemma haversine_bounds (lat1 lng1 lat2 lng2 : R) :
  0 <= haversine lat1 lng1 lat2 lng2 <= 1.
Proof.
  rewrite haversine_cosCentralAngle.
  pose proof (cosCentralAngle_bounds (radians lat1) (radians lng1)
                (radians lat2) (radians lng2)).
  lra.
Qed.

(** On the values that [calculateDistance] feeds it, [Math.atan2] is an
    arc sine. *)
Lemma atan2_sqrt_asin (a : R) :
  0 <= a <= 1 ->
  Math_atan2 (Math_sqrt a) (Math_sqrt (1 - a)) = asin (sqrt a).
Proof.
  intros [H0 H1]. unfold Math_atan2, Math_sqrt.
  destruct (Req_dec a 1) as [-> | Hne].
  - replace (1 - 1) with 0 by ring. rewrite sqrt_0, sqrt_1.
    rewrite (Rltb_false 0 0), (Rltb_true 0 1) by lra.
    symmetry. apply asin_1.
  - assert (Hpos : 0 < sqrt (1 - a)) by (apply sqrt_lt_R0; lra).
    rewrite Rltb_true by exact Hpos.
    assert (Hs : 0 <= sqrt a < 1).
    { split; [apply sqrt_pos |]. rewrite <- sqrt_1. apply sqrt_lt_1; lra. }
    rewrite asin_atan by lra.
    unfold Rsqr. rewrite sqrt_sqrt by exact H0. reflexivity.
Qed.

(** [calculateDistance] is the Earth radius times the central angle. *)
Lemma calculateDistance_asin (lat1 lng1 lat2 lng2 : R) :
  calculateDistance lat1 lng1 lat2 lng2 =
  6371 * (2 * asin (sqrt (haversine lat1 lng1 lat2 lng2))).
Proof.
  unfold calculateDistance. fold (haversine lat1 lng1 lat2 lng2).
  now rewrite atan2_sqrt_asin by apply haversine_bounds.
Qed.

Lemma sqrt_unit_interval (a : R) : 0 <= a <= 1 -> 0 <= sqrt a <= 1.
Proof.
  intros [H0 H1]. split; [apply sqrt_pos |].
  rewrite <- sqrt_1. apply sqrt_le_1; lra.
Qed.

Lemma asin_nonneg (x : R) : 0 <= x <= 1 -> 0 <= asin x.
Proof.
  intros Hx. destruct (Rle_dec 0 (asin x)) as [H | H]; [exact H |].
  pose proof (asin_bound x) as Hb. pose proof PI_RGT_0 as Hpi.
  assert (Hneg : sin (asin x) < 0) by (apply sin_lt_0_var; lra).
  rewrite sin_asin in Hneg by lra. lra.
Qed.

Lemma calculateDistance_acos (lat1 lng1 lat2 lng2 : R) :
  calculateDistance lat1 lng1 lat2 lng2 =
  6371 * acos (cosCentralAngle (radians lat1) (radians lng1)
                               (radians lat2) (radians lng2)).
Proof.
  rewrite calculateDistance_asin. f_equal.
  pose proof (haversine_bounds lat1 lng1 lat2 lng2) as Ha.
  pose proof (sqrt_unit_interval _ Ha) as Hs.
  set (a := haversine lat1 lng1 lat2 lng2) in *.
  pose proof (asin_bound (sqrt a)) as Hb.
  pose proof (asin_nonneg _ Hs) as H0.
  rewrite <- (acos_cos (2 * asin (sqrt a))) by lra.
  f_equal. rewrite cos_2a_sin, sin_asin by lra.
  rewrite Rmult_assoc, sqrt_sqrt by lra. unfold a.
  rewrite haversine_cosCentralAngle. field.
Qed.

Lemma calculateDistance_nonneg (lat1 lng1 lat2 lng2 : R) :
  0 <= calculateDistance lat1 lng1 lat2 lng2.
Proof.
  rewrite calculateDistance_acos.
  pose proof (acos_bound (cosCentralAngle (radians lat1) (radians lng1)
                                          (radians lat2) (radians lng2))).
  lra.
Qed.

(** The Gram determinant of three unit vectors is a square. *)
Lemma gram_nonneg (a b c d e f g h i : R) :
  a * a + b * b + c * c = 1 ->
  d * d + e * e + f * f = 1 ->
  g * g + h * h + i * i = 1 ->
  let x := a * d + b * e + c * f in
  let y := d * g + e * h + f * i in
  let z := a * g + b * h + c * i in
  0 <= 1 + 2 * x * y * z - x * x - y * y - z * z.
Proof.
  intros Hu Hv Hw x y z.
  set (det := a * (e * i - f * h) - b * (d * i - f * g) + c * (d * h - e * g)).
  assert (E : (a * a + b * b + c * c) * (d * d + e * e + f * f)
              * (g * g + h * h + i * i)
              + 2 * x * y * z
              - (a * a + b * b + c * c) * (y * y)
              - (d * d + e * e + f * f) * (z * z)
              - (g * g + h * h + i * i) * (x * x)
              = det * det).
  { unfold det, x, y, z. ring. }
  rewrite Hu, Hv, Hw in E.
  pose proof (Rle_0_sqr det) as Hd. unfold Rsqr in Hd. lra.
Qed.

(** The triangle inequality for angles, from the Gram determinant. *)
Lemma acos_triangle (x y z : R) :
  -1 <= x <= 1 -> -1 <= y <= 1 -> -1 <= z <= 1 ->
  0 <= 1 + 2 * x * y * z - x * x - y * y - z * z ->
  acos z <= acos x + acos y.
Proof.
  intros Hx Hy Hz Hgram.
  pose proof (acos_bound x) as Ha. pose proof (acos_bound y) as Hb.
  pose proof (acos_bound z) as Hc.
  destruct (Rle_dec PI (acos x + acos y)) as [Hbig | Hsmall]; [lra |].
  apply cos_decr_0; try lra.
  rewrite cos_plus, !cos_acos, !sin_acos by assumption.
  set (A := sqrt (1 - x²)). set (B := sqrt (1 - y²)).
  assert (HA : 0 <= A) by apply sqrt_pos.
  assert (HB : 0 <= B) by apply sqrt_pos.
  assert (HA2 : A * A = 1 - x * x).
  { unfold A. rewrite sqrt_sqrt; unfold Rsqr; nra. }
  assert (HB2 : B * B = 1 - y * y).
  { unfold B. rewrite sqrt_sqrt; unfold Rsqr; nra. }
  destruct (Rle_dec (x * y - z) 0) as [Hle | Hgt]; [nra |].
  assert (Hsq : (x * y - z) * (x * y - z) <= (A * B) * (A * B)).
  { replace (A * B * (A * B)) with ((A * A) * (B * B)) by ring.
    rewrite HA2, HB2. nra. }
  assert (HAB : 0 <= A * B) by nra.
  nra.
Qed.

(** The triangle inequality of the great-circle distance. *)
Lemma calculateDistance_triangle (lat1 lng1 lat2 lng2 lat3 lng3 : R) :
  calculateDistance lat1 lng1 lat3 lng3 <=
  calculateDistance lat1 lng1 lat2 lng2 + calculateDistance lat2 lng2 lat3 lng3.
Proof.
  rewrite !calculateDistance_acos.
  set (p1 := radians lat1). set (l1 := radians lng1).
  set (p2 := radians lat2). set (l2 := radians lng2).
  set (p3 := radians lat3). set (l3 := radians lng3).
  enough (acos (cosCentralAngle p1 l1 p3 l3)
          <= acos (cosCentralAngle p1 l1 p2 l2) + acos (cosCentralAngle p2 l2 p3 l3))
    by lra.
  apply acos_triangle; try apply cosCentralAngle_bounds.
  unfold cosCentralAngle.
  assert (Hunit : forall p l,
            cos p * cos l * (cos p * cos l) + cos p * sin l * (cos p * sin l)
            + sin p * sin p = 1).
  { intros p l. pose proof (sin_cos_unit p). pose proof (sin_cos_unit l). nra. }
  apply (gram_nonneg (cos p1 * cos l1) (cos p1 * sin l1) (sin p1)
                     (cos p2 * cos l2) (cos p2 * sin l2) (sin p2)
                     (cos p3 * cos l3) (cos p3 * sin l3) (sin p3));
    apply Hunit.
Qed.

Lemma calculateDistance_same_point (lat lng : R) :
  calculateDistance lat lng lat lng = 0.
Proof.
  rewrite calculateDistance_asin. unfold haversine.
  replace ((lat - lat) * PI / 180 / 2) with 0 by field.
  replace ((lng - lng) * PI / 180 / 2) with 0 by field.
  rewrite sin_0.
  replace (0 * 0 + cos (lat * PI / 180) * cos (lat * PI / 180) * 0 * 0)
    with 0 by ring.
  rewrite sqrt_0, asin_0. ring.
Qed.

(** ** RouteComposer: length of the route *)

Lemma pathDistanceFrom_shift (totalDistance : R) (path : list PathPoint.t) :
  pathDistanceFrom totalDistance path = totalDistance + pathDistanceFrom 0 path.
Proof.
  revert totalDistance.
  induction path as [|p path IH]; intros totalDistance; [simpl; ring |].
  destruct path as [|q rest]; [simpl; ring |].
  change (pathDistanceFrom totalDistance (p :: q :: rest))
    with (pathDistanceFrom (totalDistance + pointDistance p q) (q :: rest)).
  change (pathDistanceFrom 0 (p :: q :: rest))
    with (pathDistanceFrom (0 + pointDistance p q) (q :: rest)).
  rewrite IH, (IH (0 + pointDistance p q)). ring.
Qed.

Lemma calculatePathDistance_cons (p q : PathPoint.t) (rest : list PathPoint.t) :
  calculatePathDistance (p :: q :: rest) =
  pointDistance p q + calculatePathDistance (q :: rest).
Proof.
  unfold calculatePathDistance.
  change (pathDistanceFrom 0 (p :: q :: rest))
    with (pathDistanceFrom (0 + pointDistance p q) (q :: rest)).
  rewrite pathDistanceFrom_shift. ring.
Qed.

(** A path is at least as long as the distance between its ends. *)
Lemma calculatePathDistance_ends (path : list PathPoint.t) (p q : PathPoint.t) :
  head path = Some p -> last path = Some q ->
  pointDistance p q <= calculatePathDistance path.
Proof.
  revert p. induction path as [|a path IH]; intros p Hhead Hlast.
  - discriminate.
  - simpl in Hhead. injection Hhead as <-.
    destruct path as [|b rest].
    + simpl in Hlast. injection Hlast as <-.
      unfold pointDistance, calculatePathDistance. simpl.
      rewrite calculateDistance_same_point. lra.
    + rewrite calculatePathDistance_cons.
      assert (Hlast' : last (b :: rest) = Some q) by exact Hlast.
      specialize (IH b eq_refl Hlast').
      pose proof (calculateDistance_triangle
                    (PathPoint.lat a) (PathPoint.lng a)
                    (PathPoint.lat b) (PathPoint.lng b)
                    (PathPoint.lat q) (PathPoint.lng q)) as Htri.
      unfold pointDistance in *. lra.
Qed.

Lemma smooth_head (p : PathPoint.t) (rest : list PathPoint.t) :
  rest <> [] -> head (smooth (p :: rest)) = Some p.
Proof. destruct rest; [contradiction | reflexivity]. Qed.

(** A composed route starts at the source and ends at the destination. *)
Lemma calculateOptimalPath_ends (waypoints : list Waypoint.t)
    (source destination : Waypoint.t) :
  head (calculateOptimalPath waypoints source destination) = Some (anchor source) /\
  last (calculateOptimalPath waypoints source destination)
    = Some (anchor destination).
Proof.
  unfold calculateOptimalPath. split.
  - destruct (map anchor (pathWaypoints waypoints source destination)); reflexivity.
  - apply last_snoc.
Qed.

(** Below 5 km the route is the direct line. *)
Lemma calculateOptimalPath_direct (waypoints : list Waypoint.t)
    (source destination : Waypoint.t) :
  waypointDistance source destination < 5 ->
  calculateOptimalPath waypoints source destination = directLine source destination.
Proof.
  intros H. unfold calculateOptimalPath, pathWaypoints, findPathWaypoints.
  fold (waypointDistance source destination).
  rewrite Rltb_true by exact H. reflexivity.
Qed.

(** C6, as the code has it, in exact arithmetic: the length of a
    composed route is at least the direct distance from the source to
    the destination; below 5 km no intermediate waypoint is chosen and
    the route is the direct line, interpolated linearly in latitude and
    longitude. *)
Theorem route_at_least_direct_distance
    (waypoints : list Waypoint.t) (source destination : Waypoint.t) :
  let route := calculateOptimalPath waypoints source destination in
  waypointDistance source destination <= calculatePathDistance route /\
  ((waypointDistance source destination < 5 /\
    pathWaypoints waypoints source destination = [] /\
    route = directLine source destination) \/
   5 <= waypointDistance source destination).
Proof.
  intros route. split.
  - destruct (calculateOptimalPath_ends waypoints source destination)
      as [Hhead Hlast].
    apply (calculatePathDistance_ends route _ _ Hhead Hlast).
  - destruct (Rlt_dec (waypointDistance source destination) 5) as [Hlt | Hge];
      [left | right; lra].
    split; [exact Hlt |]. split.
    + unfold pathWaypoints, findPathWaypoints.
      fold (waypointDistance source destination).
      now rewrite Rltb_true.
    + now apply calculateOptimalPath_direct.
Qed.

(** *** Along a parallel *)

Lemma calculateDistance_same_latitude (lat lng1 lng2 : R) :
  calculateDistance lat lng1 lat lng2 =
  12742 * asin (Rabs (cos (radians lat) * sin (radians (lng2 - lng1) / 2))).
Proof.
  rewrite calculateDistance_asin. unfold haversine.
  replace ((lat - lat) * PI / 180 / 2) with 0 by field.
  fold (radians lat). fold (radians (lng2 - lng1)).
  rewrite sin_0.
  replace (0 * 0 + cos (radians lat) * cos (radians lat)
           * sin (radians (lng2 - lng1) / 2) * sin (radians (lng2 - lng1) / 2))
    with (Rsqr (cos (radians lat) * sin (radians (lng2 - lng1) / 2)))
    by (unfold Rsqr; ring).
  rewrite sqrt_Rsqr_abs. ring.
Qed.

(** The distance between two points of the parallel [lat] that are
    [halfAngle] radians of half longitude apart, westward or eastward. *)
Lemma calculateDistance_on_parallel (lat halfAngle lat1 lng1 lat2 lng2 : R) :
  lat1 = lat -> lat2 = lat ->
  radians (lng2 - lng1) / 2 = halfAngle \/ radians (lng2 - lng1) / 2 = - halfAngle ->
  0 <= cos (radians lat) -> 0 <= sin halfAngle ->
  calculateDistance lat1 lng1 lat2 lng2 =
  12742 * asin (cos (radians lat) * sin halfAngle).
Proof.
  intros -> -> Hangle Hc Hs. rewrite calculateDistance_same_latitude.
  do 2 f_equal. destruct Hangle as [-> | ->].
  - apply Rabs_right. nra.
  - rewrite sin_neg. replace (cos (radians lat) * - sin halfAngle)
      with (- (cos (radians lat) * sin halfAngle)) by ring.
    rewrite Rabs_Ropp. apply Rabs_right. nra.
Qed.

Lemma sin_5 (x : R) :
  sin (5 * x) =
  16 * (sin x * sin x * sin x * sin x * sin x)
  - 20 * (sin x * sin x * sin x) + 5 * sin x.
Proof.
  replace (5 * x) with (2 * (2 * x) + x) by ring.
  rewrite sin_plus, (sin_2a (2 * x)), (cos_2a_sin (2 * x)), !(sin_2a x),
    (cos_2a_sin x).
  pose proof (sin_cos_unit x) as H.
  assert (Hc : cos x * cos x = 1 - sin x * sin x) by lra.
  set (s := sin x) in *. set (c := cos x) in *.
  replace (2 * (2 * s * c) * (1 - 2 * s * s) * c
           + (1 - 2 * (2 * s * c) * (2 * s * c)) * s)
    with (4 * s * (c * c) * (1 - 2 * s * s) + s - 8 * s * s * s * (c * c))
    by ring.
  rewrite Hc. ring.
Qed.

(** Five equal steps along a parallel cover more than the great circle
    between its ends: the two angles differ. *)
Lemma five_arcs_differ (k x : R) :
  0 < k < 1 -> 0 < sin x < 1 / 2 ->
  5 * asin (k * sin x) <> asin (k * sin (5 * x)).
Proof.
  intros Hk Hx E.
  pose proof (SIN_bound (5 * x)) as Hb5.
  apply (f_equal sin) in E.
  rewrite sin_5, !sin_asin, sin_5 in E by nra.
  set (t := sin x) in *.
  assert (F : k * (t * t * t) * ((k * k - 1) * (16 * (t * t) * (k * k + 1) - 20)) = 0).
  { replace (k * (t * t * t) * ((k * k - 1) * (16 * (t * t) * (k * k + 1) - 20)))
      with (16 * (k * t * (k * t) * (k * t) * (k * t) * (k * t))
            - 20 * (k * t * (k * t) * (k * t)) + 5 * (k * t)
            - k * (16 * (t * t * t * t * t) - 20 * (t * t * t) + 5 * t))
      by ring.
    lra. }
  assert (H1 : 0 < k * (t * t * t)).
  { apply Rmult_lt_0_compat; [lra |].
    repeat apply Rmult_lt_0_compat; lra. }
  assert (H2 : k * k - 1 < 0) by nra.
  assert (H3 : 16 * (t * t) * (k * k + 1) - 20 < 0) by nra.
  assert (H4 : 0 < (k * k - 1) * (16 * (t * t) * (k * k + 1) - 20)) by nra.
  nra.
Qed.

(** *** The route from the Lok Virsa Museum to the Rose & Jasmine Garden *)

(** Halving the angle at least halves the sine. *)
Lemma sin_halving (n : nat) : 1 / 2 ^ (S n) <= sin (PI / (6 * 2 ^ n)).
Proof.
  induction n as [|n IH].
  - replace (PI / (6 * 2 ^ 0)) with (PI / 6) by (simpl; field).
    rewrite sin_PI6. simpl. lra.
  - assert (Hpow : 0 < 2 ^ n) by (apply pow_lt; lra).
    pose proof PI_RGT_0 as Hpi. pose proof PI_4 as Hpi4.
    set (y := PI / (6 * 2 ^ S n)).
    assert (Hy : PI / (6 * 2 ^ n) = 2 * y).
    { unfold y. simpl. field. lra. }
    assert (Hy0 : 0 < y).
    { unfold y. apply Rdiv_lt_0_compat; [lra |]. simpl. lra. }
    assert (Hy1 : y <= PI / 2).
    { assert (Hprod : y * (6 * (2 * 2 ^ n)) = PI).
      { unfold y. simpl. field. lra. }
      assert (Hone : 1 <= 2 ^ n) by (apply pow_R1_Rle; lra).
      assert (Hmul : 0 <= y * (2 ^ n - 1)) by (apply Rmult_le_pos; lra).
      lra. }
    rewrite Hy, sin_2a in IH.
    assert (Hs : 0 <= sin y) by (apply sin_ge_0; lra).
    pose proof (COS_bound y) as Hc.
    assert (Hhalf : 1 / 2 ^ S (S n) = 1 / 2 ^ S n / 2).
    { simpl. field. lra. }
    rewrite Hhalf. nra.
Qed.

Lemma parallel_cosine_bounds : 1 / 2 < cos (radians 33.6844) < 1.
Proof.
  pose proof PI_RGT_0 as Hpi. unfold radians. split.
  - rewrite <- cos_PI3. apply cos_decreasing_1; lra.
  - rewrite <- cos_0. apply cos_decreasing_1; lra.
Qed.

Lemma step_sine_bounds : 1 / 32768 <= sin (PI / 90000) < 1 / 2.
Proof.
  pose proof PI_RGT_0 as Hpi. pose proof PI_4 as Hpi4. split.
  - apply Rle_trans with (sin (PI / (6 * 2 ^ 14))).
    + pose proof (sin_halving 14) as H. simpl in H |- *. lra.
    + apply sin_incr_1; simpl; lra.
  - apply Rlt_trans with (PI / 90000); [apply sin_lt_x; lra | lra].
Qed.

Lemma asin_below (y c : R) :
  -1 <= y <= 1 -> - (PI / 2) <= c <= PI / 2 -> y < sin c -> asin y < c.
Proof.
  intros Hy Hc Hlt. destruct (Rlt_dec (asin y) c) as [H | H]; [exact H |].
  pose proof (asin_bound y) as Hb.
  assert (Hle : sin c <= sin (asin y)) by (apply sin_incr_1; lra).
  rewrite sin_asin in Hle by exact Hy. lra.
Qed.

Lemma asin_above (y : R) : 0 <= y <= 1 -> y <= asin y.
Proof.
  intros Hy. pose proof (asin_nonneg y Hy) as H0.
  destruct (Req_dec (asin y) 0) as [E | Hne].
  - apply (f_equal sin) in E. rewrite sin_asin, sin_0 in E by lra. lra.
  - rewrite <- (sin_asin y) at 1 by lra. left. apply sin_lt_x. lra.
Qed.

(** The length of the direct line between the two waypoints, and their
    direct distance. *)
Lemma garden_route_distances :
  calculatePathDistance (directLine lokVirsaMuseum roseAndJasmineGarden)
    = 5 * (12742 * asin (cos (radians 33.6844) * sin (PI / 90000))) /\
  waypointDistance lokVirsaMuseum roseAndJasmineGarden
    = 12742 * asin (cos (radians 33.6844) * sin (5 * (PI / 90000))).
Proof.
  pose proof parallel_cosine_bounds as Hk.
  pose proof step_sine_bounds as Hs.
  pose proof PI_RGT_0 as Hpi. pose proof PI_4 as Hpi4.
  assert (Hs5 : 0 <= sin (5 * (PI / 90000))) by (apply sin_ge_0; lra).
  split.
  - unfold directLine. cbn [interpolate app].
    rewrite !calculatePathDistance_cons.
    unfold pointDistance, anchor, lokVirsaMuseum, roseAndJasmineGarden.
    cbn [PathPoint.lat PathPoint.lng Waypoint.lat Waypoint.lng].
    rewrite !(calculateDistance_on_parallel 33.6844 (PI / 90000));
      try lra; try (right; unfold radians; simpl; lra).
    unfold calculatePathDistance. simpl. ring.
  - unfold waypointDistance, lokVirsaMuseum, roseAndJasmineGarden.
    cbn [Waypoint.lat Waypoint.lng].
    apply calculateDistance_on_parallel; try lra.
    right. unfold radians. lra.
Qed.

(** The two waypoints are less than 5 km apart. *)
Lemma garden_route_is_short :
  waypointDistance lokVirsaMuseum roseAndJasmineGarden < 5.
Proof.
  destruct garden_route_distances as [_ ->].
  pose proof parallel_cosine_bounds as Hk.
  pose proof PI_RGT_0 as Hpi. pose proof PI_4 as Hpi4.
  set (s := sin (5 * (PI / 90000))).
  assert (Hs : 0 < s < 1 / 4096).
  { unfold s. split; [apply sin_gt_0; lra |].
    apply Rlt_trans with (5 * (PI / 90000)); [apply sin_lt_x; lra | lra]. }
  assert (Hlow : 1 / 4096 <= sin (PI / 12288)).
  { pose proof (sin_halving 11) as H. simpl in H. 
    replace (PI / 12288) with (PI / (6 * (2 * (2 * (2 * (2 * (2 * (2 * (2 * (2 * (2 * (2 * (2 * 1)))))))))))))
      by field.
    lra. }
  assert (Hasin : asin (cos (radians 33.6844) * s) < PI / 12288).
  { apply asin_below; [nra | lra | nra]. }
  lra.
Qed.

(** C6 fails as stated, in exact arithmetic: the Lok Virsa Museum and
    the Rose & Jasmine Garden lie on the same parallel, less than 5 km
    apart; the route between them is the direct line, which follows the
    parallel, and its length is not the direct distance. *)
Lemma direct_line_is_longer_than_direct_distance :
  waypointDistance lokVirsaMuseum roseAndJasmineGarden < 5 /\
  calculatePathDistance
    (calculateOptimalPath ISLAMABAD_WAYPOINTS lokVirsaMuseum roseAndJasmineGarden)
  <> waypointDistance lokVirsaMuseum roseAndJasmineGarden.
Proof.
  split; [exact garden_route_is_short |].
  rewrite calculateOptimalPath_direct by exact garden_route_is_short.
  destruct garden_route_distances as [-> ->].
  pose proof parallel_cosine_bounds as Hk.
  pose proof step_sine_bounds as Hs.
  pose proof (five_arcs_differ (cos (radians 33.6844)) (PI / 90000)
                ltac:(lra) ltac:(lra)) as Hne.
  lra.
Qed.

(** ** MotionEngine: the moving tick *)


Lemma calculatePathDistance_head (p q : PathPoint.t) (l : list PathPoint.t) :
  head l = Some q ->
  calculatePathDistance (p :: l) = pointDistance p q + calculatePathDistance l.
Proof.
  destruct l as [|q' l]; [discriminate |]. simpl. intros [= ->].
  apply calculatePathDistance_cons.
Qed.


Lemma segmentDistances_total (path : list PathPoint.t) (acc : R) :
  fold_left Rplus (segmentDistances path) acc = acc + calculatePathDistance path.
Proof.
  revert acc. induction path as [|p path IH]; intros acc.
  - unfold calculatePathDistance. simpl. ring.
  - destruct path as [|q rest].
    + unfold calculatePathDistance. simpl. ring.
    + change (segmentDistances (p :: q :: rest))
        with (pointDistance p q :: segmentDistances (q :: rest)).
      simpl fold_left. rewrite IH, calculatePathDistance_cons. ring.
Qed.

(** The search of [getPositionAlongPath] finds the segment that
    contains the target distance. *)
Lemma findSegment_spec (path : list PathPoint.t) (acc target : R) :
  acc < target ->
  target <= acc + calculatePathDistance path ->
  exists before startPoint endPoint after,
    path = before ++ startPoint :: endPoint :: after /\
    let covered := acc + calculatePathDistance (before ++ [startPoint]) in
    let segment := pointDistance startPoint endPoint in
    let ratio := (target - covered) / segment in
    covered < target <= covered + segment /\
    findSegment (segmentDistances path) path acc (Num target) =
    Some (mkPosition
            (Num (PathPoint.lat startPoint
                  + (PathPoint.lat endPoint - PathPoint.lat startPoint) * ratio))
            (Num (PathPoint.lng startPoint
                  + (PathPoint.lng endPoint - PathPoint.lng startPoint) * ratio))
            (Some (calculateBearing
                     (PathPoint.lat startPoint) (PathPoint.lng startPoint)
                     (PathPoint.lat endPoint) (PathPoint.lng endPoint)))).
Proof.
  revert acc. induction path as [|p path IH]; intros acc Hlt Hle.
  - unfold calculatePathDistance in Hle. simpl in Hle. lra.
  - destruct path as [|q rest].
    + unfold calculatePathDistance in Hle. simpl in Hle. lra.
    + rewrite calculatePathDistance_cons in Hle.
      change (segmentDistances (p :: q :: rest))
        with (pointDistance p q :: segmentDistances (q :: rest)).
      cbn [findSegment]. unfold num_ge, num_le.
      destruct (Rle_dec target (acc + pointDistance p q)) as [Hin | Hout].
      * rewrite Rleb_true by exact Hin.
        exists [], p, q, rest. split; [reflexivity |].
        assert (Hc : calculatePathDistance ([] ++ [p]) = 0)
          by (unfold calculatePathDistance; simpl; reflexivity).
        cbv zeta. rewrite Hc.
        assert (Hd : pointDistance p q <> 0) by lra.
        split; [lra |].
        unfold num_div, num_sub, num_add, num_neg, num_mul.
        rewrite Reqb_false by exact Hd.
        do 2 f_equal; f_equal; f_equal; f_equal; f_equal; lra.
      * rewrite Rleb_false by lra.
        destruct (IH (acc + pointDistance p q) ltac:(lra) ltac:(lra))
          as (before & s & e & after & Hpath & Hcov & Hfind).
        exists (p :: before), s, e, after.
        split; [simpl; now rewrite Hpath |].
        assert (Hhead : head (before ++ [s]) = Some q).
        { destruct before as [|b before]; simpl in Hpath |- *.
          - now injection Hpath as -> _.
          - now injection Hpath as -> _. }
        cbv zeta in Hcov, Hfind |- *.
        change ((p :: before) ++ [s]) with (p :: (before ++ [s])).
        rewrite (calculatePathDistance_head p q _ Hhead).
        replace (acc + (pointDistance p q + calculatePathDistance (before ++ [s])))
          with (acc + pointDistance p q + calculatePathDistance (before ++ [s]))
          by ring.
        split; [exact Hcov | exact Hfind].
Qed.

(** [getPositionAlongPath] strictly inside the journey. *)
Lemma getPositionAlongPath_inside (path : list PathPoint.t) (progress : R) :
  0 < progress < 1 ->
  0 < calculatePathDistance path ->
  exists position,
    getPositionAlongPath path (Num progress) = Some position /\
    positionedAlong path (calculatePathDistance path * progress) position.
Proof.
  intros Hp HD. unfold getPositionAlongPath, num_ge, num_le.
  rewrite (Rleb_false progress 0), (Rleb_false 1 progress) by lra.
  rewrite segmentDistances_total. unfold num_mul.
  replace (0 + calculatePathDistance path) with (calculatePathDistance path) by ring.
  set (D := calculatePathDistance path) in *.
  destruct (findSegment_spec path 0 (D * progress)) as
    (before & s & e & after & Hpath & Hcov & Hfind); [nra | fold D; nra |].
  cbv zeta in Hcov, Hfind. rewrite Hfind.
  eexists. split; [reflexivity |].
  exists before, s, e, after. split; [exact Hpath |].
  cbv zeta. cbn [pos_lat pos_lng pos_heading].
  replace (0 + calculatePathDistance (before ++ [s]))
    with (calculatePathDistance (before ++ [s])) in * by ring.
  repeat split; try lra.
Qed.

(** [getPositionAlongPath] at the very start. *)
Lemma getPositionAlongPath_start (path : list PathPoint.t) :
  getPositionAlongPath path (Num 0) = atPoint <$> head path.
Proof.
  unfold getPositionAlongPath, num_le. now rewrite Rleb_true by lra.
Qed.

Lemma journeyDuration_value (totalDistance speed playbackSpeed : R) :
  0 < speed -> 0 < playbackSpeed ->
  journeyDuration totalDistance speed playbackSpeed =
  Num (totalDistance / (speed / 3600) * 1000 / playbackSpeed).
Proof.
  intros Hs Hm. unfold journeyDuration, num_div, num_mul.
  rewrite (Reqb_false (speed / 3600) 0) by lra.
  now rewrite (Reqb_false playbackSpeed 0) by lra.
Qed.

Lemma journeyDuration_sign (totalDistance speed playbackSpeed : R) :
  0 < speed -> 0 < playbackSpeed ->
  (0 < totalDistance -> 0 < totalDistance / (speed / 3600) * 1000 / playbackSpeed) /\
  (totalDistance = 0 -> totalDistance / (speed / 3600) * 1000 / playbackSpeed = 0).
Proof.
  intros Hs Hm. split.
  - intros HD.
    apply Rdiv_lt_0_compat; [| exact Hm].
    apply Rmult_lt_0_compat; [| lra].
    apply Rdiv_lt_0_compat; lra.
  - intros ->. unfold Rdiv. ring.
Qed.

(** The progress computed by the tick, on a path of positive length. *)
Lemma overallProgress_value (elapsedTime totalDistance speed playbackSpeed : R) :
  0 < speed -> 0 < playbackSpeed -> 0 < totalDistance ->
  overallProgress elapsedTime (journeyDuration totalDistance speed playbackSpeed) =
  Num (Rmin (elapsedTime / (totalDistance / (speed / 3600) * 1000 / playbackSpeed)) 1).
Proof.
  intros Hs Hm HD. rewrite journeyDuration_value by assumption.
  destruct (journeyDuration_sign totalDistance speed playbackSpeed Hs Hm) as [Hpos _].
  specialize (Hpos HD).
  unfold overallProgress, num_div. rewrite Reqb_false by lra.
  unfold Math_min, num_le, Rmin.
  destruct (Rle_dec _ 1) as [Hle | Hgt].
  - now rewrite Rleb_true.
  - now rewrite Rleb_false by lra.
Qed.


(** The tick of a vehicle in the MOVING state, unfolded. *)
Lemma tickVehicle_enRoute (fromStart wsConnected : bool)
    (playbackSpeed currentTime startTime : R) (v : Vehicle.t)
    (sd : SimulationData.t) (path : list PathPoint.t) :
  enRoute startTime path sd v ->
  let totalDistance := calculatePathDistance path in
  let progress :=
    overallProgress (currentTime - startTime)
      (journeyDuration totalDistance (Vehicle.speed v) playbackSpeed) in
  tickVehicle fromStart wsConnected playbackSpeed currentTime v =
  if num_ge progress (Num 1) then
    finalPoint ← last path;
    Some (withArrival v (Vehicle.targetWaypoint v) (Some "stopped"%string)
            (arrived sd (Vehicle.speed v) finalPoint currentTime totalDistance),
          (if fromStart && wsConnected then
             [sendNotification "Journey Complete"
                (String.append "Vehicle "
                   (String.append (Vehicle.licensePlate v)
                                  " has reached its destination"))
                "SUCCESS"]
           else [])
          ++ [completionEvent (Vehicle.licensePlate v)])
  else
    pathPosition ← getPositionAlongPath path progress;
    Some (withMotion v (Vehicle.status v)
            (advanced sd (pos_lat pathPosition) (pos_lng pathPosition)
                      (Num (orR (pos_heading pathPosition) 0)) progress
                      (num_mul (Num totalDistance) progress)),
          []).
Proof.
  intros (Hst & Hpath & Hsd & Hdel & Hstart & Hne) totalDistance progress.
  unfold tickVehicle. rewrite Hsd, Hpath.
  rewrite (bool_decide_eq_false_2 _ Hdel). cbn [andb].
  rewrite (bool_decide_eq_true_2 _ Hst), Hstart, truthyR_Some by exact Hne.
  cbn [andb default]. reflexivity.
Qed.

Lemma last_nonempty {A : Type} (l : list A) : l <> [] -> exists x, last l = Some x.
Proof.
  intros H. destruct (last l) as [x|] eqn:E; [now exists x |].
  apply last_None in E. contradiction.
Qed.

Lemma orR_heading (h : R) : orR (Some h) 0 = h.
Proof.
  destruct (Req_dec_T h 0) as [-> | Hne]; [apply orR_zero | now apply orR_nonzero].
Qed.

(** The tick on which the journey completes. *)
Lemma tickVehicle_arrival (fromStart wsConnected : bool)
    (playbackSpeed currentTime startTime : R) (v : Vehicle.t)
    (sd : SimulationData.t) (path : list PathPoint.t) :
  enRoute startTime path sd v ->
  path <> [] ->
  overallProgress (currentTime - startTime)
    (journeyDuration (calculatePathDistance path) (Vehicle.speed v) playbackSpeed)
    = Num 1 ->
  exists v' effects finalPoint,
    tickVehicle fromStart wsConnected playbackSpeed currentTime v
      = Some (v', effects) /\
    last path = Some finalPoint /\
    arrivedAt finalPoint (calculatePathDistance path) v v' /\
    completionEvent (Vehicle.licensePlate v) ∈ effects.
Proof.
  intros Hv Hpath Hprogress.
  rewrite (tickVehicle_enRoute _ _ _ _ _ _ _ _ Hv). cbv zeta.
  rewrite Hprogress. unfold num_ge, num_le. rewrite Rleb_true by lra.
  destruct (last_nonempty path Hpath) as [finalPoint Hlast]. rewrite Hlast.
  cbn [mbind option_bind].
  eexists _, _, finalPoint. split; [reflexivity |]. split; [reflexivity |]. split.
  - unfold arrivedAt. cbn. repeat split.
    eexists. split; [reflexivity |]. destruct sd; cbn. repeat split.
  - apply elem_of_app. right. apply list_elem_of_singleton. reflexivity.
Qed.

(** A tick strictly inside the journey. *)
Lemma tickVehicle_inside (fromStart wsConnected : bool)
    (playbackSpeed currentTime startTime progress : R) (v : Vehicle.t)
    (sd : SimulationData.t) (path : list PathPoint.t) :
  enRoute startTime path sd v ->
  0 < calculatePathDistance path ->
  0 < progress < 1 ->
  overallProgress (currentTime - startTime)
    (journeyDuration (calculatePathDistance path) (Vehicle.speed v) playbackSpeed)
    = Num progress ->
  exists v' position heading,
    tickVehicle fromStart wsConnected playbackSpeed currentTime v = Some (v', []) /\
    positionedAlong path (calculatePathDistance path * progress) position /\
    pos_heading position = Some heading /\
    underWay position heading progress (calculatePathDistance path * progress) v' /\
    Vehicle.speed v' = Vehicle.speed v /\
    enRoute startTime path
      (advanced sd (pos_lat position) (pos_lng position) (Num heading)
                (Num progress) (Num (calculatePathDistance path * progress))) v'.
Proof.
  intros Hv HD Hp Hprogress.
  rewrite (tickVehicle_enRoute _ _ _ _ _ _ _ _ Hv). cbv zeta.
  rewrite Hprogress. unfold num_ge, num_le. rewrite Rleb_false by lra.
  destruct (getPositionAlongPath_inside path progress Hp HD)
    as (position & Hget & Hpos).
  rewrite Hget. cbn [mbind option_bind].
  pose proof Hpos as (before & s & e & after & _ & _ & _ & _ & _ & Hheading).
  cbv zeta in Hheading.
  eexists _, position, _. split; [| split; [exact Hpos | split; [exact Hheading |]]].
  - rewrite Hheading, orR_heading. unfold num_mul. reflexivity.
  - destruct Hv as (Hst & Hpath & Hsd & Hdel & Hstart & Hne).
    split; [| split; [reflexivity |]].
    + unfold underWay. cbn. split; [exact Hst |].
      eexists. split; [reflexivity |]. destruct sd; cbn. repeat split.
    + unfold enRoute. cbn. repeat split; try assumption;
        destruct sd; cbn in *; assumption.
Qed.

(** A tick that fires at [startTime] itself, on a path of positive
    length: no progress, the first point, and no heading. *)
Lemma tickVehicle_at_start (fromStart wsConnected : bool)
    (playbackSpeed startTime : R) (v : Vehicle.t)
    (sd : SimulationData.t) (path : list PathPoint.t) (first : PathPoint.t) :
  enRoute startTime path sd v ->
  head path = Some first ->
  0 < Vehicle.speed v -> 0 < playbackSpeed ->
  0 < calculatePathDistance path ->
  exists v',
    tickVehicle fromStart wsConnected playbackSpeed startTime v = Some (v', []) /\
    underWay (atPoint first) 0 0 0 v' /\
    Vehicle.speed v' = Vehicle.speed v /\
    exists sd', enRoute startTime path sd' v'.
Proof.
  intros Hv Hhead Hs Hm HD.
  rewrite (tickVehicle_enRoute _ _ _ _ _ _ _ _ Hv). cbv zeta.
  rewrite overallProgress_value by assumption.
  replace (startTime - startTime) with 0 by ring.
  replace (0 / _) with 0 by (unfold Rdiv; ring).
  rewrite Rmin_left by lra.
  unfold num_ge, num_le. rewrite Rleb_false by lra.
  rewrite getPositionAlongPath_start, Hhead. cbn [fmap option_fmap option_map mbind option_bind].
  eexists. split; [reflexivity |].
  destruct Hv as (Hst & Hpath & Hsd & Hdel & Hstart & Hne).
  split; [| split; [reflexivity |]].
  - unfold underWay. cbn. split; [exact Hst |].
    eexists. split; [reflexivity |]. destruct sd; cbn.
    unfold num_mul. rewrite Rmult_0_r. repeat split.
  - eexists. unfold enRoute. cbn. repeat split; try assumption;
      destruct sd; cbn in *; assumption.
Qed.


(** [startSimulation] on the sample producer session: the vehicle has
    no delay and starts at once, and the loop captures the multiplier. *)
Lemma startedVehicle_value :
  startedVehicle = withMotion readyVehicle (Some "moving"%string) startedKinematics.
Proof.
  unfold startedVehicle, initializeVehicle, readyVehicle.
  cbn [Vehicle.plannedPath Vehicle.initialDelay directLine].
  rewrite Rltb_false by lra. reflexivity.
Qed.

Lemma fastSession_value :
  fastSession =
  mkState (Some admin) true [startedVehicle] true false 5 false
    (Some (mkLoop true 5 true (Some admin))).
Proof. reflexivity. Qed.

(** The started vehicle is under way since the instant 1000, on a route
    of more than 900 m. *)
Lemma startedVehicle_enRoute :
  enRoute 1000 (directLine lokVirsaMuseum roseAndJasmineGarden)
          startedKinematics startedVehicle.
Proof.
  rewrite startedVehicle_value.
  unfold enRoute. cbn. repeat split; try reflexivity; try discriminate. lra.
Qed.

Lemma startedVehicle_speed : Vehicle.speed startedVehicle = 50.
Proof. rewrite startedVehicle_value. reflexivity. Qed.

Lemma garden_route_length :
  9 / 10 < calculatePathDistance (directLine lokVirsaMuseum roseAndJasmineGarden).
Proof.
  destruct garden_route_distances as [-> _].
  pose proof parallel_cosine_bounds as Hk.
  pose proof step_sine_bounds as Hs.
  pose proof (asin_above (cos (radians 33.6844) * sin (PI / 90000)) ltac:(nra))
    as Ha.
  nra.
Qed.


(** *** The bearing of a westward segment *)

Lemma Math_atan2_negative (y x : R) : y < 0 -> - PI < Math_atan2 y x < 0.
Proof.
  intros Hy. pose proof PI_RGT_0 as Hpi. unfold Math_atan2.
  destruct (Rlt_dec 0 x) as [Hx | Hx].
  - rewrite Rltb_true by exact Hx.
    pose proof (atan_bound (y / x)) as Hb.
    assert (Hneg : y / x < 0).
    { unfold Rdiv. apply Rmult_neg_pos; [exact Hy |]. now apply Rinv_0_lt_compat. }
    assert (atan (y / x) < 0) by (rewrite <- atan_0; now apply atan_increasing).
    lra.
  - rewrite Rltb_false by lra.
    destruct (Rlt_dec x 0) as [Hx' | Hx'].
    + rewrite Rltb_true, Rleb_false by lra.
      pose proof (atan_bound (y / x)) as Hb.
      assert (Hposq : 0 < y / x).
      { unfold Rdiv. replace (y * / x) with ((- y) * / (- x)).
        - apply Rmult_lt_0_compat; [lra |]. apply Rinv_0_lt_compat. lra.
        - field. lra. }
      assert (0 < atan (y / x)) by (rewrite <- atan_0; now apply atan_increasing).
      lra.
    + rewrite (Rltb_false x 0), (Rltb_false 0 y), Rltb_true by lra. lra.
Qed.

Lemma truncate_unit_interval (x : R) : 0 <= x < 1 -> truncate x = 0%Z.
Proof.
  intros Hx. unfold truncate. rewrite Rleb_true by lra.
  symmetry. apply Int_part_spec. simpl. lra.
Qed.

(** A bearing computed from a negative [y] lies strictly between 180
    and 360 degrees. *)
Lemma calculateBearing_westward (lat1 lng1 lat2 lng2 : R) :
  sin ((lng2 - lng1) * PI / 180) * cos (lat2 * PI / 180) < 0 ->
  180 < calculateBearing lat1 lng1 lat2 lng2 < 360.
Proof.
  intros Hy. unfold calculateBearing. cbv zeta.
  set (x := cos (lat1 * PI / 180) * sin (lat2 * PI / 180) - _).
  pose proof (Math_atan2_negative _ x Hy) as Ha.
  set (a := Math_atan2 _ x) in *.
  pose proof PI_RGT_0 as Hpi.
  assert (Hb : -180 < a * 180 / PI < 0).
  { split.
    - apply Rmult_lt_reg_r with PI; [lra |].
      unfold Rdiv. rewrite Rmult_assoc, Rinv_l by lra. lra.
    - apply Rmult_lt_reg_r with PI; [lra |].
      unfold Rdiv. rewrite Rmult_assoc, Rinv_l by lra. lra. }
  unfold js_rem. rewrite truncate_unit_interval by lra. simpl. lra.
Qed.

(** A remark on the instant of the start.  A tick at [startTime]
    itself would find that the sample vehicle has made no progress and
    take the branch of [progress < 1]: the first segment of its path
    bears west, but the heading set by such a tick is 0.  The loop
    fires one period after [startTime] is read at the earliest, so
    that no firing of a run reads that instant. *)
Lemma heading_at_start_is_not_the_bearing :
  exists v' sd' startPoint endPoint rest,
    tickVehicle true true 1 1000 startedVehicle = Some (v', []) /\
    Vehicle.simulationData v' = Some sd' /\
    SimulationData.progress sd' = Some (Num 0) /\
    SimulationData.heading sd' = Num 0 /\
    Vehicle.plannedPath startedVehicle = Some (startPoint :: endPoint :: rest) /\
    0 < pointDistance startPoint endPoint /\
    calculateBearing (PathPoint.lat startPoint) (PathPoint.lng startPoint)
                     (PathPoint.lat endPoint) (PathPoint.lng endPoint) <> 0.
Proof.
  pose proof garden_route_length as HD.
  destruct (tickVehicle_at_start true true 1 1000 startedVehicle startedKinematics
              (directLine lokVirsaMuseum roseAndJasmineGarden)
              (anchor lokVirsaMuseum) startedVehicle_enRoute eq_refl)
    as (v' & Htick & (_ & sd' & Hsd' & _ & _ & Hheading & Hprogress & _) & _);
    [cbn; lra | lra | lra |].
  pose proof parallel_cosine_bounds as Hk.
  pose proof step_sine_bounds as Hs.
  pose proof PI_RGT_0 as Hpi. pose proof PI_4 as Hpi4.
  eexists v', sd', _, _, _.
  split; [exact Htick |]. split; [exact Hsd' |]. split; [exact Hprogress |].
  split; [exact Hheading |]. split; [reflexivity |].
  unfold pointDistance, anchor, lokVirsaMuseum, roseAndJasmineGarden.
  cbn [PathPoint.lat PathPoint.lng Waypoint.lat Waypoint.lng]. split.
  - rewrite (calculateDistance_on_parallel 33.6844 (PI / 90000));
      try lra; [| right; unfold radians; simpl; lra].
    pose proof (asin_above (cos (radians 33.6844) * sin (PI / 90000)) ltac:(nra)).
    nra.
  - enough (180 < calculateBearing 33.6844 73.0479
                    (33.6844 + (33.6844 - 33.6844) * (INR 1 / INR 5))
                    (73.0479 + (73.0279 - 73.0479) * (INR 1 / INR 5)) < 360) by lra.
    apply calculateBearing_westward.
    replace ((33.6844 + (33.6844 - 33.6844) * (INR 1 / INR 5)) * PI / 180)
      with (radians 33.6844) by (unfold radians; simpl; lra).
    replace ((73.0479 + (73.0279 - 73.0479) * (INR 1 / INR 5) - 73.0479) * PI / 180)
      with (- (PI / 45000)) by (simpl; lra).
    rewrite sin_neg.
    assert (0 < sin (PI / 45000)) by (apply sin_gt_0; lra).
    nra.
Qed.

(** ** MotionEngine: progress from tick to tick *)

(** The progress that a tick records, on a path of positive length. *)
Lemma tickVehicle_progress (fromStart wsConnected : bool)
    (playbackSpeed now startTime : R) (v : Vehicle.t)
    (sd : SimulationData.t) (path : list PathPoint.t) :
  enRoute startTime path sd v ->
  0 < calculatePathDistance path ->
  0 < Vehicle.speed v -> 0 < playbackSpeed -> startTime <= now ->
  let p :=
    Rmin ((now - startTime)
          / (calculatePathDistance path / (Vehicle.speed v / 3600) * 1000
             / playbackSpeed)) 1 in
  exists v' effects,
    tickVehicle fromStart wsConnected playbackSpeed now v = Some (v', effects) /\
    progressOf v' = Some (Num p) /\
    ((p < 1 /\ Vehicle.status v' = Some "moving"%string /\
      Vehicle.speed v' = Vehicle.speed v /\
      exists sd', enRoute startTime path sd' v') \/
     (p = 1 /\ Vehicle.status v' = Some "stopped"%string)).
Proof.
  intros Hv HD Hs Hm Hnow p.
  assert (Hpath : path <> []).
  { intros ->. unfold calculatePathDistance in HD. simpl in HD. lra. }
  pose proof (overallProgress_value (now - startTime) _ _ _ Hs Hm HD) as Hvalue.
  fold p in Hvalue.
  destruct (journeyDuration_sign (calculatePathDistance path) (Vehicle.speed v)
              playbackSpeed Hs Hm) as [Hdur _].
  specialize (Hdur HD).
  set (dur := calculatePathDistance path / (Vehicle.speed v / 3600) * 1000
              / playbackSpeed) in *.
  assert (Hp0 : 0 <= p).
  { unfold p. apply Rmin_glb; [| lra].
    apply Rmult_le_pos; [lra |]. left. now apply Rinv_0_lt_compat. }
  assert (Hp1 : p <= 1) by (unfold p; apply Rmin_r).
  destruct (Req_dec p 1) as [Hone | Hless].
  - destruct (tickVehicle_arrival fromStart wsConnected playbackSpeed now
                startTime v sd path Hv Hpath)
      as (v' & effects & finalPoint & Htick & _ & Harr & _).
    { now rewrite Hvalue, Hone. }
    exists v', effects. split; [exact Htick |].
    destruct Harr as (Hst & _ & sd' & Hsd' & _ & _ & _ & _ & _ & Hprog).
    split.
    + unfold progressOf. rewrite Hsd'. cbn. now rewrite Hprog, Hone.
    + right. now split.
  - destruct (Req_dec p 0) as [Hzero | Hpos].
    + assert (Hsame : now = startTime).
      { unfold p in Hzero.
        destruct (Rle_dec ((now - startTime) / dur) 1) as [Hle | Hgt].
        - rewrite Rmin_left in Hzero by exact Hle.
          apply (f_equal (fun x => x * dur)) in Hzero.
          unfold Rdiv in Hzero.
          rewrite Rmult_assoc, Rinv_l, Rmult_0_l in Hzero by lra. lra.
        - rewrite Rmin_right in Hzero by lra. lra. }
      destruct (last_nonempty path Hpath) as [finalPoint _].
      destruct path as [|first rest]; [contradiction |].
      subst now.
      destruct (tickVehicle_at_start fromStart wsConnected playbackSpeed
                  startTime v sd (first :: rest) first Hv eq_refl Hs Hm HD)
        as (v' & Htick & (Hst & sd' & Hsd' & _ & _ & _ & Hprog & _) & Hspeed & Hen).
      exists v', []. split; [exact Htick |]. split.
      * unfold progressOf. rewrite Hsd'. cbn. now rewrite Hprog, Hzero.
      * left. repeat split; try assumption. lra.
    + destruct (tickVehicle_inside fromStart wsConnected playbackSpeed now
                  startTime p v sd path Hv HD ltac:(lra) Hvalue)
        as (v' & position & heading & Htick & _ & _
            & (Hst & sd' & Hsd' & _ & _ & _ & Hprog & _) & Hspeed & Hen).
      exists v', []. split; [exact Htick |]. split.
      * unfold progressOf. rewrite Hsd'. cbn. exact Hprog.
      * left. repeat split; try assumption; [lra |]. eexists. exact Hen.
Qed.

(** C4, as the code has it: while a vehicle moves on a path of positive
    length, its progress does not decrease from one tick to the next,
    whatever loop runs either tick, provided that the clock does not
    run backwards and that the multiplier of the second tick is not
    lower than that of the first. *)
Theorem progress_monotone
    (fromStart1 wsConnected1 fromStart2 wsConnected2 : bool)
    (multiplier1 multiplier2 startTime time1 time2 : R)
    (v v1 v2 : Vehicle.t) (effects1 effects2 : list Effect)
    (sd : SimulationData.t) (path : list PathPoint.t) :
  enRoute startTime path sd v ->
  0 < calculatePathDistance path ->
  0 < Vehicle.speed v ->
  0 < multiplier1 -> multiplier1 <= multiplier2 ->
  startTime <= time1 -> time1 <= time2 ->
  tickVehicle fromStart1 wsConnected1 multiplier1 time1 v = Some (v1, effects1) ->
  Vehicle.status v1 = Some "moving"%string ->
  tickVehicle fromStart2 wsConnected2 multiplier2 time2 v1 = Some (v2, effects2) ->
  exists progress1 progress2,
    progressOf v1 = Some (Num progress1) /\
    progressOf v2 = Some (Num progress2) /\
    progress1 <= progress2.
Proof.
  intros Hv HD Hs Hm1 Hm Ht1 Ht2 Htick1 Hmoving Htick2.
  destruct (tickVehicle_progress fromStart1 wsConnected1 multiplier1 time1
              startTime v sd path Hv HD Hs Hm1 Ht1)
    as (v1' & e1' & Htick1' & Hp1 & Hcase1).
  rewrite Htick1 in Htick1'. injection Htick1' as <- <-.
  destruct Hcase1 as [(Hlt & _ & Hspeed & sd1 & Hv1) | (_ & Hstopped)];
    [| rewrite Hmoving in Hstopped; discriminate].
  destruct (tickVehicle_progress fromStart2 wsConnected2 multiplier2 time2
              startTime v1 sd1 path Hv1 HD ltac:(lra) ltac:(lra) ltac:(lra))
    as (v2' & e2' & Htick2' & Hp2 & _).
  rewrite Htick2 in Htick2'. injection Htick2' as <- <-.
  eexists _, _. split; [exact Hp1 |]. split; [exact Hp2 |].
  rewrite Hspeed.
  set (K := calculatePathDistance path / (Vehicle.speed v / 3600) * 1000).
  assert (HK : 0 < K).
  { unfold K. apply Rmult_lt_0_compat; [| lra].
    apply Rdiv_lt_0_compat; lra. }
  apply Rle_min_compat_r.
  replace ((time1 - startTime) / (K / multiplier1))
    with ((time1 - startTime) * multiplier1 / K) by (field; lra).
  replace ((time2 - startTime) / (K / multiplier2))
    with ((time2 - startTime) * multiplier2 / K) by (field; lra).
  apply Rmult_le_compat_r; [left; now apply Rinv_0_lt_compat |].
  nra.
Qed.

(** A tick of a vehicle that drives the garden route at 50 km/h, early
    enough in its journey. *)
Lemma garden_tick (fromStart wsConnected : bool) (multiplier now : R)
    (v : Vehicle.t) (sd : SimulationData.t) :
  let path := directLine lokVirsaMuseum roseAndJasmineGarden in
  enRoute 1000 path sd v ->
  Vehicle.speed v = 50 ->
  0 < multiplier -> 1000 <= now -> (now - 1000) * multiplier < 64800 ->
  exists v' effects sd',
    tickVehicle fromStart wsConnected multiplier now v = Some (v', effects) /\
    Vehicle.status v' = Some "moving"%string /\
    progressOf v' =
      Some (Num ((now - 1000) * multiplier / (72000 * calculatePathDistance path))) /\
    Vehicle.speed v' = 50 /\
    enRoute 1000 path sd' v'.
Proof.
  intros path Hv Hspeed Hm Hnow Hearly.
  pose proof garden_route_length as HD. fold path in HD.
  destruct (tickVehicle_progress fromStart wsConnected multiplier now 1000 v sd
              path Hv ltac:(lra) ltac:(lra) Hm Hnow)
    as (v' & effects & Htick & Hp & Hcase).
  rewrite Hspeed in *.
  assert (Hratio : (now - 1000) / (calculatePathDistance path / (50 / 3600) * 1000
                                   / multiplier)
                   = (now - 1000) * multiplier / (72000 * calculatePathDistance path))
    by (field; lra).
  rewrite Hratio in *.
  assert (Hless : (now - 1000) * multiplier / (72000 * calculatePathDistance path) < 1).
  { apply Rmult_lt_reg_r with (72000 * calculatePathDistance path); [lra |].
    unfold Rdiv. rewrite Rmult_assoc, Rinv_l by lra. lra. }
  rewrite Rmin_left in * by lra.
  destruct Hcase as [(_ & Hst & Hsp & sd' & Hv') | (Hone & _)]; [| lra].
  exists v', effects, sd'.
  split; [exact Htick |]. split; [exact Hst |]. split; [exact Hp |].
  split; [exact Hsp | exact Hv'].
Qed.

Lemma progress_monotone_witness :
  exists v1 v2 effects1 effects2 progress1 progress2,
    tickVehicle true true 1 2000 startedVehicle = Some (v1, effects1) /\
    tickVehicle false true 2 3000 v1 = Some (v2, effects2) /\
    progressOf v1 = Some (Num progress1) /\
    progressOf v2 = Some (Num progress2) /\
    progress1 <= progress2.
Proof.
  pose proof garden_route_length as HD.
  destruct (garden_tick true true 1 2000 startedVehicle startedKinematics
              startedVehicle_enRoute startedVehicle_speed
              ltac:(lra) ltac:(lra) ltac:(lra))
    as (v1 & effects1 & sd1 & Htick1 & Hst1 & _ & Hsp1 & Hv1).
  destruct (garden_tick false true 2 3000 v1 sd1 Hv1 Hsp1
              ltac:(lra) ltac:(lra) ltac:(lra))
    as (v2 & effects2 & sd2 & Htick2 & _).
  assert (Hs : 0 < Vehicle.speed startedVehicle)
    by (rewrite startedVehicle_speed; lra).
  destruct (progress_monotone true true false true 1 2 1000 2000 3000
              startedVehicle v1 v2 effects1 effects2 startedKinematics
              (directLine lokVirsaMuseum roseAndJasmineGarden)
              startedVehicle_enRoute ltac:(lra) Hs ltac:(lra) ltac:(lra)
              ltac:(lra) ltac:(lra) Htick1 Hst1 Htick2)
    as (progress1 & progress2 & H1 & H2 & Hle).
  exists v1, v2, effects1, effects2, progress1, progress2. easy.
Defined.

(** Pausing, resuming and changing the multiplier leave the roster, and
    with it every [startTime], as they are; the loop that runs
    afterwards has captured the current multiplier. *)
Lemma controls_keep_roster (speed : R) (s : State) :
  vehicles (fst (pauseSimulation s)) = vehicles s /\
  vehicles (fst (resumeSimulation s)) = vehicles s /\
  vehicles (changePlaybackSpeed speed s) = vehicles s /\
  (is_admin s = true ->
   simulationInterval (fst (pauseSimulation s)) = None /\
   (loop_playbackSpeed <$> simulationInterval (fst (resumeSimulation s)))
     = Some (playbackSpeed s) /\
   (isSimulationRunning s = true -> isPaused s = false ->
    (loop_playbackSpeed <$> simulationInterval (changePlaybackSpeed speed s))
      = Some speed)).
Proof.
  unfold pauseSimulation, resumeSimulation, changePlaybackSpeed.
  destruct (is_admin s) eqn:Ha; cbn.
  - repeat split.
    + destruct (isSimulationRunning s && negb (isPaused s)); reflexivity.
    + intros -> ->. reflexivity.
  - repeat split; discriminate.
Qed.

(** C4 fails as stated: the sample vehicle is played at five times the
    speed and ticks one second into its journey; the multiplier is then
    set back to one, and at the next tick, one second later, the
    vehicle still moves but its progress has dropped. *)
Lemma slower_playback_lowers_progress :
  exists s1 effects1 s2 effects2 v1 v2 progress1 progress2,
    tick 2000 0.5 fastSession = Some (s1, effects1) /\
    vehicles s1 = [v1] /\
    Vehicle.status v1 = Some "moving"%string /\
    progressOf v1 = Some (Num progress1) /\
    tick 3000 0.5 (changePlaybackSpeed 1 s1) = Some (s2, effects2) /\
    vehicles s2 = [v2] /\
    Vehicle.status v2 = Some "moving"%string /\
    progressOf v2 = Some (Num progress2) /\
    progress2 < progress1.
Proof.
  pose proof garden_route_length as HD.
  destruct (garden_tick true true 5 2000 startedVehicle startedKinematics
              startedVehicle_enRoute startedVehicle_speed
              ltac:(lra) ltac:(lra) ltac:(lra))
    as (v1 & effects1 & sd1 & Htick1 & Hst1 & Hp1 & Hsp1 & Hv1).
  destruct (garden_tick false true 1 3000 v1 sd1 Hv1 Hsp1
              ltac:(lra) ltac:(lra) ltac:(lra))
    as (v2 & effects2 & sd2 & Htick2 & Hst2 & Hp2 & _).
  assert (Hstep1 : exists effects,
            tick 2000 0.5 fastSession =
            Some (mkState (Some admin) true [v1] true false 5 false
                    (Some (mkLoop true 5 true (Some admin))), effects)).
  { rewrite fastSession_value. unfold tick. cbn [simulationInterval vehicles mapM
      loop_fromStart loop_wsConnected loop_playbackSpeed].
    rewrite Htick1. cbn. eexists. reflexivity. }
  destruct Hstep1 as [e1 Hstep1].
  assert (Hstep2 : exists effects,
            tick 3000 0.5
              (changePlaybackSpeed 1
                 (mkState (Some admin) true [v1] true false 5 false
                    (Some (mkLoop true 5 true (Some admin))))) =
            Some (mkState (Some admin) true [v2] true false 1 false
                    (Some (mkLoop false 1 true (Some admin))), effects)).
  { unfold tick, changePlaybackSpeed. cbn [is_admin isAdminType userType negb
      isSimulationRunning isPaused andb restartSimulationWithNewSpeed
      simulationInterval vehicles mapM wsConnected playbackSpeed
      isReceivingSimulation loop_fromStart loop_wsConnected loop_playbackSpeed].
    rewrite Htick2. cbn. eexists. reflexivity. }
  destruct Hstep2 as [e2 Hstep2].
  eexists _, e1, _, e2, v1, v2, _, _.
  split; [exact Hstep1 |]. split; [reflexivity |]. split; [exact Hst1 |].
  split; [exact Hp1 |]. split; [exact Hstep2 |]. split; [reflexivity |].
  split; [exact Hst2 |]. split; [exact Hp2 |].
  set (D := calculatePathDistance (directLine lokVirsaMuseum roseAndJasmineGarden)) in *.
  apply Rmult_lt_reg_r with (72000 * D); [lra |].
  unfold Rdiv. rewrite !Rmult_assoc, Rinv_l by lra. lra.
Qed.


(** * Further properties *)

(** ** GeoMath: distance and bearing *)

Lemma cosCentralAngle_sym (lat1 lng1 lat2 lng2 : R) :
  cosCentralAngle lat1 lng1 lat2 lng2 = cosCentralAngle lat2 lng2 lat1 lng1.
Proof. unfold cosCentralAngle. ring. Qed.

Lemma calculateDistance_sym (lat1 lng1 lat2 lng2 : R) :
  calculateDistance lat1 lng1 lat2 lng2 = calculateDistance lat2 lng2 lat1 lng1.
Proof. now rewrite !calculateDistance_acos, cosCentralAngle_sym. Qed.

(** No two points are further apart than half a great circle. *)
Lemma calculateDistance_antipodal (lat1 lng1 lat2 lng2 : R) :
  calculateDistance lat1 lng1 lat2 lng2 <= 6371 * PI.
Proof.
  rewrite calculateDistance_acos.
  pose proof (acos_bound (cosCentralAngle (radians lat1) (radians lng1)
                                          (radians lat2) (radians lng2))).
  lra.
Qed.

(** X1: [calculateDistance] is a pseudometric.  For coordinates in
    their ranges and points at most 20000 km apart, so that no two of
    them are antipodal or nearly so, the distance is never negative,
    it vanishes between a point and itself, it does not depend on the
    direction of travel, and going through a third point is never
    shorter. *)
Theorem calculateDistance_pseudometric (lat1 lng1 lat2 lng2 lat3 lng3 : R) :
  validCoordinates lat1 lng1 ->
  validCoordinates lat2 lng2 ->
  validCoordinates lat3 lng3 ->
  calculateDistance lat1 lng1 lat2 lng2 <= 20000 ->
  calculateDistance lat2 lng2 lat3 lng3 <= 20000 ->
  calculateDistance lat1 lng1 lat3 lng3 <= 20000 ->
  0 <= calculateDistance lat1 lng1 lat2 lng2 /\
  calculateDistance lat1 lng1 lat1 lng1 = 0 /\
  calculateDistance lat1 lng1 lat2 lng2 = calculateDistance lat2 lng2 lat1 lng1 /\
  calculateDistance lat1 lng1 lat3 lng3 <=
    calculateDistance lat1 lng1 lat2 lng2 + calculateDistance lat2 lng2 lat3 lng3.
Proof.
  intros _ _ _ _ _ _.
  split; [apply calculateDistance_nonneg |].
  split; [apply calculateDistance_same_point |].
  split; [apply calculateDistance_sym | apply calculateDistance_triangle].
Qed.

(** Lok Virsa Museum, the Rose & Jasmine Garden and back. *)
Lemma calculateDistance_pseudometric_witness :
  0 <= calculateDistance 33.6844 73.0479 33.6844 73.0279 /\
  calculateDistance 33.6844 73.0479 33.6844 73.0479 = 0 /\
  calculateDistance 33.6844 73.0479 33.6844 73.0279
    = calculateDistance 33.6844 73.0279 33.6844 73.0479 /\
  calculateDistance 33.6844 73.0479 33.6844 73.0479 <=
    calculateDistance 33.6844 73.0479 33.6844 73.0279
    + calculateDistance 33.6844 73.0279 33.6844 73.0479.
Proof.
  pose proof garden_route_is_short as Hshort.
  unfold waypointDistance, lokVirsaMuseum, roseAndJasmineGarden in Hshort.
  cbn [Waypoint.lat Waypoint.lng] in Hshort.
  apply (calculateDistance_pseudometric 33.6844 73.0479 33.6844 73.0279
           33.6844 73.0479).
  - unfold validCoordinates. lra.
  - unfold validCoordinates. lra.
  - unfold validCoordinates. lra.
  - lra.
  - rewrite calculateDistance_sym. lra.
  - rewrite calculateDistance_same_point. lra.
Defined.

(** [Math.atan2] returns an angle in the half-open interval from -pi
    to pi. *)
Lemma Math_atan2_bounds (y x : R) : - PI < Math_atan2 y x <= PI.
Proof.
  pose proof PI_RGT_0 as Hpi. pose proof (atan_bound (y / x)) as Hb.
  unfold Math_atan2.
  destruct (Rlt_dec 0 x) as [Hx | Hx].
  - rewrite Rltb_true by exact Hx. lra.
  - rewrite Rltb_false by lra.
    destruct (Rlt_dec x 0) as [Hneg | Hzero].
    + rewrite Rltb_true by exact Hneg.
      assert (Hinv : / x < 0) by now apply Rinv_lt_0_compat.
      destruct (Rle_dec 0 y) as [Hy | Hy].
      * rewrite Rleb_true by exact Hy.
        assert (Hq : y / x <= 0) by (unfold Rdiv; nra).
        assert (atan (y / x) <= 0).
        { destruct Hq as [Hq | Hq].
          - left. rewrite <- atan_0. now apply atan_increasing.
          - rewrite Hq, atan_0. lra. }
        lra.
      * rewrite Rleb_false by lra.
        assert (Hq : 0 < y / x) by (unfold Rdiv; nra).
        assert (0 < atan (y / x)) by (rewrite <- atan_0; now apply atan_increasing).
        lra.
    + rewrite (Rltb_false x 0) by lra.
      destruct (Rlt_dec 0 y) as [Hy | Hy].
      * rewrite Rltb_true by exact Hy. lra.
      * rewrite Rltb_false by lra.
        destruct (Rlt_dec y 0) as [Hy' | Hy'].
        -- rewrite Rltb_true by exact Hy'. lra.
        -- rewrite Rltb_false by lra. lra.
Qed.

Lemma truncate_from_one (x : R) : 1 <= x < 2 -> truncate x = 1%Z.
Proof.
  intros Hx. unfold truncate. rewrite Rleb_true by lra.
  symmetry. apply Int_part_spec. simpl. lra.
Qed.

(** The remainder by 360 of an angle between 0 and 720 degrees. *)
Lemma js_rem_360 (x : R) :
  (0 <= x < 360 -> js_rem x 360 = x) /\
  (360 <= x < 720 -> js_rem x 360 = x - 360).
Proof.
  unfold js_rem. split; intros Hx.
  - rewrite truncate_unit_interval; [simpl; lra |].
    split.
    + apply Rmult_le_reg_r with 360; [lra |].
      unfold Rdiv. rewrite Rmult_assoc, Rinv_l by lra. lra.
    + apply Rmult_lt_reg_r with 360; [lra |].
      unfold Rdiv. rewrite Rmult_assoc, Rinv_l by lra. lra.
  - rewrite truncate_from_one; [simpl; lra |].
    split.
    + apply Rmult_le_reg_r with 360; [lra |].
      unfold Rdiv. rewrite Rmult_assoc, Rinv_l by lra. lra.
    + apply Rmult_lt_reg_r with 360; [lra |].
      unfold Rdiv. rewrite Rmult_assoc, Rinv_l by lra. lra.
Qed.

(** Radians to degrees, within bounds. *)
Lemma degrees_bounds (a : R) :
  - PI < a <= PI -> -180 < a * 180 / PI <= 180.
Proof.
  intros Ha. pose proof PI_RGT_0 as Hpi. split.
  - apply Rmult_lt_reg_r with PI; [lra |].
    unfold Rdiv. rewrite Rmult_assoc, Rinv_l by lra. lra.
  - apply Rmult_le_reg_r with PI; [lra |].
    unfold Rdiv. rewrite Rmult_assoc, Rinv_l by lra. lra.
Qed.

(** The bearing in terms of the angle that [Math.atan2] returns. *)
Lemma calculateBearing_of_angle (lat1 lng1 lat2 lng2 : R) :
  let dLng := (lng2 - lng1) * PI / 180 in
  let y := sin dLng * cos (lat2 * PI / 180) in
  let x := cos (lat1 * PI / 180) * sin (lat2 * PI / 180)
           - sin (lat1 * PI / 180) * cos (lat2 * PI / 180) * cos dLng in
  let bearing := Math_atan2 y x * 180 / PI in
  calculateBearing lat1 lng1 lat2 lng2 =
  if Rltb bearing 0 then bearing + 360 else bearing.
Proof.
  intros dLng y x bearing. unfold calculateBearing. cbv zeta.
  fold dLng. fold y. fold x. fold bearing.
  pose proof (degrees_bounds _ (Math_atan2_bounds y x)) as Hb. fold bearing in Hb.
  destruct (js_rem_360 (bearing + 360)) as [Hlow Hhigh].
  destruct (Rlt_dec bearing 0) as [Hneg | Hpos].
  - rewrite Rltb_true by exact Hneg. apply Hlow. lra.
  - rewrite Rltb_false by lra. rewrite Hhigh by lra. lra.
Qed.

(** X2: the bearing that [calculateBearing] returns is an angle of the
    compass: at least 0 and below 360 degrees, whatever the
    coordinates. *)
Theorem calculateBearing_range (lat1 lng1 lat2 lng2 : R) :
  0 <= calculateBearing lat1 lng1 lat2 lng2 < 360.
Proof.
  rewrite calculateBearing_of_angle. cbv zeta.
  match goal with |- context [Math_atan2 ?y ?x] =>
    pose proof (degrees_bounds _ (Math_atan2_bounds y x)) as Hb;
    set (bearing := Math_atan2 y x * 180 / PI) in *
  end.
  destruct (Rlt_dec bearing 0) as [Hneg | Hpos].
  - rewrite Rltb_true by exact Hneg. lra.
  - rewrite Rltb_false by lra. lra.
Qed.

Lemma sin_between_0_PI (degrees : R) :
  0 < degrees < 180 -> 0 < sin (degrees * PI / 180).
Proof.
  intros Hd. pose proof PI_RGT_0 as Hpi. apply sin_gt_0.
  - apply Rmult_lt_reg_r with (180 / PI).
    + apply Rdiv_lt_0_compat; lra.
    + replace (degrees * PI / 180 * (180 / PI)) with degrees by (field; lra). lra.
  - apply Rmult_lt_reg_r with (180 / PI).
    + apply Rdiv_lt_0_compat; lra.
    + replace (degrees * PI / 180 * (180 / PI)) with degrees by (field; lra).
      replace (PI * (180 / PI)) with 180 by (field; lra). lra.
Qed.

(** [Math.atan2] along the axes. *)
Lemma Math_atan2_axes (t : R) :
  0 < t ->
  Math_atan2 0 t = 0 /\ Math_atan2 0 (- t) = PI /\
  Math_atan2 t 0 = PI / 2 /\ Math_atan2 (- t) 0 = - (PI / 2).
Proof.
  intros Ht. unfold Math_atan2. repeat split.
  - rewrite Rltb_true by exact Ht. unfold Rdiv. now rewrite Rmult_0_l, atan_0.
  - rewrite Rltb_false, Rltb_true, Rleb_true by lra.
    unfold Rdiv. rewrite Rmult_0_l, atan_0. lra.
  - now rewrite (Rltb_false 0 0), Rltb_true by lra.
  - now rewrite (Rltb_false 0 0), (Rltb_false 0 (- t)), Rltb_true by lra.
Qed.

(** X3: the four cardinal directions.  For coordinates in their
    ranges and two latitudes, or two longitudes, that are between a
    millionth of a degree and 179 degrees apart, the bearing along a
    meridian is 0 towards the north and 180 towards the south, and
    along the equator it is 90 towards the east and 270 towards the
    west. *)
Theorem calculateBearing_cardinal (lat1 lat2 lng1 lng2 : R) :
  validCoordinates lat1 lng1 ->
  validCoordinates lat2 lng2 ->
  1 / 1000000 <= lat2 - lat1 <= 179 ->
  1 / 1000000 <= lng2 - lng1 <= 179 ->
  calculateBearing lat1 lng1 lat2 lng1 = 0 /\
  calculateBearing lat2 lng1 lat1 lng1 = 180 /\
  calculateBearing 0 lng1 0 lng2 = 90 /\
  calculateBearing 0 lng2 0 lng1 = 270.
Proof.
  intros _ _ Hlatitudes Hlongitudes. pose proof PI_RGT_0 as Hpi.
  assert (Hlat : 0 < lat2 - lat1 < 180) by lra.
  assert (Hlng : 0 < lng2 - lng1 < 180) by lra.
  destruct (Math_atan2_axes _ (sin_between_0_PI _ Hlat)) as (Hnorth & Hsouth & _).
  destruct (Math_atan2_axes _ (sin_between_0_PI _ Hlng)) as (_ & _ & Heast & Hwest).
  assert (Hzero : (lng1 - lng1) * PI / 180 = 0) by (unfold Rdiv; ring).
  assert (Horigin : 0 * PI / 180 = 0) by (unfold Rdiv; ring).
  assert (Hdiff : sin ((lat2 - lat1) * PI / 180) =
                  cos (lat1 * PI / 180) * sin (lat2 * PI / 180)
                  - sin (lat1 * PI / 180) * cos (lat2 * PI / 180)).
  { replace ((lat2 - lat1) * PI / 180)
      with (lat2 * PI / 180 - lat1 * PI / 180) by (unfold Rdiv; ring).
    rewrite sin_minus. ring. }
  repeat split; rewrite calculateBearing_of_angle; cbv zeta.
  - rewrite Hzero, sin_0, cos_0, Rmult_0_l, Rmult_1_r, <- Hdiff, Hnorth.
    replace (0 * 180 / PI) with 0 by (unfold Rdiv; ring).
    now rewrite Rltb_false by lra.
  - rewrite Hzero, sin_0, cos_0, Rmult_0_l, Rmult_1_r.
    replace (cos (lat2 * PI / 180) * sin (lat1 * PI / 180)
             - sin (lat2 * PI / 180) * cos (lat1 * PI / 180))
      with (- sin ((lat2 - lat1) * PI / 180)) by (rewrite Hdiff; ring).
    rewrite Hsouth.
    replace (PI * 180 / PI) with 180 by (field; lra).
    now rewrite Rltb_false by lra.
  - rewrite Horigin, sin_0, cos_0.
    replace (1 * 0 - 0 * 1 * cos ((lng2 - lng1) * PI / 180)) with 0 by ring.
    rewrite Rmult_1_r, Heast.
    replace (PI / 2 * 180 / PI) with 90 by (field; lra).
    now rewrite Rltb_false by lra.
  - rewrite Horigin, sin_0, cos_0.
    replace (1 * 0 - 0 * 1 * cos ((lng1 - lng2) * PI / 180)) with 0 by ring.
    replace ((lng1 - lng2) * PI / 180) with (- ((lng2 - lng1) * PI / 180))
      by (unfold Rdiv; ring).
    rewrite Rmult_1_r, sin_neg, Hwest.
    replace (- (PI / 2) * 180 / PI) with (-90) by (field; lra).
    rewrite Rltb_true by lra. lra.
Qed.

Lemma calculateBearing_cardinal_witness :
  calculateBearing 33 73 34 73 = 0 /\
  calculateBearing 34 73 33 73 = 180 /\
  calculateBearing 0 73 0 74 = 90 /\
  calculateBearing 0 74 0 73 = 270.
Proof.
  apply (calculateBearing_cardinal 33 34 73 74); unfold validCoordinates; lra.
Defined.

(** ** MotionEngine: distance along a path *)

Lemma calculatePathDistance_short (x : PathPoint.t) :
  calculatePathDistance [] = 0 /\ calculatePathDistance [x] = 0.
Proof. split; reflexivity. Qed.

(** The distance along a path is the distance up to any of its points
    plus the distance from that point on. *)
Lemma calculatePathDistance_app (before after : list PathPoint.t) (x : PathPoint.t) :
  calculatePathDistance (before ++ x :: after) =
  calculatePathDistance (before ++ [x]) + calculatePathDistance (x :: after).
Proof.
  induction before as [|p before IH].
  - simpl. destruct (calculatePathDistance_short x) as [_ ->]. ring.
  - assert (Hhead : exists q, head (before ++ x :: after) = Some q /\
                              head (before ++ [x]) = Some q)
      by (destruct before; simpl; eauto).
    destruct Hhead as (q & Hlong & Hshort).
    change ((p :: before) ++ x :: after) with (p :: (before ++ x :: after)).
    change ((p :: before) ++ [x]) with (p :: (before ++ [x])).
    rewrite (calculatePathDistance_head p q _ Hlong),
      (calculatePathDistance_head p q _ Hshort), IH.
    ring.
Qed.

Lemma pointDistance_sym (p q : PathPoint.t) : pointDistance p q = pointDistance q p.
Proof. apply calculateDistance_sym. Qed.

Lemma calculatePathDistance_pair (p q : PathPoint.t) :
  calculatePathDistance [p; q] = pointDistance p q.
Proof.
  rewrite calculatePathDistance_cons.
  destruct (calculatePathDistance_short q) as [_ ->]. ring.
Qed.

(** Driving a path backwards covers the same distance. *)
Lemma calculatePathDistance_rev (path : list PathPoint.t) :
  calculatePathDistance (rev path) = calculatePathDistance path.
Proof.
  induction path as [|p path IH]; [reflexivity |].
  destruct path as [|q rest]; [reflexivity |].
  rewrite calculatePathDistance_cons, <- IH.
  change (rev (p :: q :: rest)) with ((rev rest ++ [q]) ++ [p]).
  rewrite <- app_assoc. change ([q] ++ [p]) with [q; p].
  rewrite calculatePathDistance_app, calculatePathDistance_pair.
  change (rev (q :: rest)) with (rev rest ++ [q]).
  rewrite (pointDistance_sym p q). ring.
Qed.

(** X4: the length of a path composes.  A path cut at any of its
    points is as long as its two parts together, a path is as long
    driven backwards as forwards, and a path of fewer than two points
    has length 0. *)
Theorem calculatePathDistance_composes (before after : list PathPoint.t)
    (x : PathPoint.t) :
  calculatePathDistance (before ++ x :: after) =
    calculatePathDistance (before ++ [x]) + calculatePathDistance (x :: after) /\
  calculatePathDistance (rev (before ++ x :: after)) =
    calculatePathDistance (before ++ x :: after) /\
  calculatePathDistance [x] = 0 /\
  calculatePathDistance [] = 0.
Proof.
  split; [apply calculatePathDistance_app |].
  split; [apply calculatePathDistance_rev |].
  split; reflexivity.
Qed.

(** ** MotionEngine: the position along a path *)

(** No segment contains a target distance that is not a number. *)
Lemma findSegment_NaN (segments : list R) (path : list PathPoint.t) (acc : R) :
  findSegment segments path acc NaN = None.
Proof.
  revert path acc. induction segments as [|d segments IH]; intros path acc.
  - reflexivity.
  - destruct path as [|p [|q rest]]; try reflexivity.
    cbn [findSegment]. unfold num_ge, num_le. apply IH.
Qed.

(** X5: [getPositionAlongPath] returns a position exactly when the path
    has a point.  On a path with a point, a progress of 0 or less
    gives the first point, and a progress of 1 or more, or one that is
    not a number, gives the last point, both without a heading. *)
Theorem getPositionAlongPath_ends (path : list PathPoint.t)
    (first final : PathPoint.t) (progress : number) (low high : R) :
  head path = Some first ->
  last path = Some final ->
  low <= 0 ->
  1 <= high ->
  getPositionAlongPath [] progress = None /\
  is_Some (getPositionAlongPath path progress) /\
  getPositionAlongPath path (Num low) = Some (atPoint first) /\
  getPositionAlongPath path NegInfinity = Some (atPoint first) /\
  getPositionAlongPath path (Num high) = Some (atPoint final) /\
  getPositionAlongPath path Infinity = Some (atPoint final) /\
  getPositionAlongPath path NaN = Some (atPoint final).
Proof.
  intros Hfirst Hfinal Hlow Hhigh. unfold getPositionAlongPath.
  rewrite Hfirst, Hfinal.
  split.
  { destruct (num_le progress (Num 0)); [reflexivity |].
    destruct (num_ge progress (Num 1)); reflexivity. }
  split.
  { destruct (num_le progress (Num 0)); [eexists; reflexivity |].
    destruct (num_ge progress (Num 1)); [eexists; reflexivity |].
    destruct (findSegment _ _ _ _); eexists; reflexivity. }
  split.
  { unfold num_le. now rewrite Rleb_true by exact Hlow. }
  split; [reflexivity |].
  split.
  { unfold num_ge, num_le. now rewrite Rleb_false, Rleb_true by lra. }
  split; [reflexivity |].
  unfold num_ge, num_le, num_mul. now rewrite findSegment_NaN.
Qed.

Lemma getPositionAlongPath_ends_witness :
  let path := directLine lokVirsaMuseum roseAndJasmineGarden in
  getPositionAlongPath [] (Num 0.5) = None /\
  is_Some (getPositionAlongPath path (Num 0.5)) /\
  getPositionAlongPath path (Num 0) = Some (atPoint (anchor lokVirsaMuseum)) /\
  getPositionAlongPath path NegInfinity = Some (atPoint (anchor lokVirsaMuseum)) /\
  getPositionAlongPath path (Num 1) = Some (atPoint (anchor roseAndJasmineGarden)) /\
  getPositionAlongPath path Infinity = Some (atPoint (anchor roseAndJasmineGarden)) /\
  getPositionAlongPath path NaN = Some (atPoint (anchor roseAndJasmineGarden)).
Proof.
  apply (getPositionAlongPath_ends
           (directLine lokVirsaMuseum roseAndJasmineGarden)
           (anchor lokVirsaMuseum) (anchor roseAndJasmineGarden) (Num 0.5) 0 1);
    first [reflexivity | lra].
Defined.

(** A point of the segment between two numbers lies between them. *)
Lemma between_ends (a b ratio : R) :
  0 <= ratio <= 1 -> Rmin a b <= a + (b - a) * ratio <= Rmax a b.
Proof.
  intros Hr. unfold Rmin, Rmax. destruct (Rle_dec a b); split; nra.
Qed.

(** X6: strictly inside the journey, on a path of positive length, the
    vehicle is placed between two consecutive points of its path: its
    latitude and its longitude lie between theirs, and its heading is
    the bearing from the one to the other. *)
Theorem position_between_path_points (path : list PathPoint.t) (progress : R) :
  0 < progress < 1 ->
  0 < calculatePathDistance path ->
  exists before startPoint endPoint after lat lng,
    path = before ++ startPoint :: endPoint :: after /\
    getPositionAlongPath path (Num progress) =
      Some (mkPosition (Num lat) (Num lng)
              (Some (calculateBearing
                       (PathPoint.lat startPoint) (PathPoint.lng startPoint)
                       (PathPoint.lat endPoint) (PathPoint.lng endPoint)))) /\
    Rmin (PathPoint.lat startPoint) (PathPoint.lat endPoint) <= lat
      <= Rmax (PathPoint.lat startPoint) (PathPoint.lat endPoint) /\
    Rmin (PathPoint.lng startPoint) (PathPoint.lng endPoint) <= lng
      <= Rmax (PathPoint.lng startPoint) (PathPoint.lng endPoint).
Proof.
  intros Hp HD.
  destruct (getPositionAlongPath_inside path progress Hp HD)
    as ([lat lng heading] & Hget & before & s & e & after & Hpath & Hin).
  cbv zeta in Hin. cbn [pos_lat pos_lng pos_heading] in Hin.
  destruct Hin as (Hcov & Hseg & -> & -> & ->).
  set (ratio := (calculatePathDistance path * progress
                 - calculatePathDistance (before ++ [s])) / pointDistance s e) in *.
  assert (Hratio : 0 <= ratio <= 1).
  { unfold ratio. split.
    - apply Rmult_le_reg_r with (pointDistance s e); [exact Hseg |].
      unfold Rdiv. rewrite Rmult_assoc, Rinv_l by lra. lra.
    - apply Rmult_le_reg_r with (pointDistance s e); [exact Hseg |].
      unfold Rdiv. rewrite Rmult_assoc, Rinv_l by lra. lra. }
  exists before, s, e, after. eexists _, _.
  split; [exact Hpath |]. split; [exact Hget |].
  split; apply between_ends; exact Hratio.
Qed.

Lemma position_between_path_points_witness :
  exists before startPoint endPoint after lat lng,
    directLine lokVirsaMuseum roseAndJasmineGarden
      = before ++ startPoint :: endPoint :: after /\
    getPositionAlongPath (directLine lokVirsaMuseum roseAndJasmineGarden) (Num (1 / 2)) =
      Some (mkPosition (Num lat) (Num lng)
              (Some (calculateBearing
                       (PathPoint.lat startPoint) (PathPoint.lng startPoint)
                       (PathPoint.lat endPoint) (PathPoint.lng endPoint)))) /\
    Rmin (PathPoint.lat startPoint) (PathPoint.lat endPoint) <= lat
      <= Rmax (PathPoint.lat startPoint) (PathPoint.lat endPoint) /\
    Rmin (PathPoint.lng startPoint) (PathPoint.lng endPoint) <= lng
      <= Rmax (PathPoint.lng startPoint) (PathPoint.lng endPoint).
Proof.
  apply (position_between_path_points
           (directLine lokVirsaMuseum roseAndJasmineGarden) (1 / 2)).
  - lra.
  - pose proof garden_route_length. lra.
Defined.

(** ** MotionEngine: what a tick leaves alone *)

(** A vehicle that neither moves nor waits for its delay is left as it
    is. *)
Lemma tickVehicle_at_rest (fromStart wsConnected : bool)
    (playbackSpeed currentTime : R) (v : Vehicle.t) :
  Vehicle.status v <> Some "moving"%string ->
  (forall sd, Vehicle.simulationData v = Some sd ->
              SimulationData.isDelayed sd <> Some true) ->
  tickVehicle fromStart wsConnected playbackSpeed currentTime v = Some (v, []).
Proof.
  intros Hstatus Hdelay. unfold tickVehicle.
  destruct (Vehicle.simulationData v) as [sd|]; [| reflexivity].
  destruct (Vehicle.plannedPath v) as [path|]; [| reflexivity].
  rewrite (bool_decide_eq_false_2 _ (Hdelay sd eq_refl)).
  now rewrite (bool_decide_eq_false_2 _ Hstatus).
Qed.

Lemma arrived_isDelayed (sd : SimulationData.t) (speed : R) (finalPoint : PathPoint.t)
    (currentTime totalDistance : R) :
  SimulationData.isDelayed (arrived sd speed finalPoint currentTime totalDistance)
  = SimulationData.isDelayed sd.
Proof. now destruct sd. Qed.

(** X7: arrival is final.  Once a tick has stopped a moving vehicle at
    the end of its path, no later tick, of whatever loop, changes the
    vehicle or emits anything for it: the completion is announced
    once. *)
Theorem arrival_is_final (fromStart wsConnected : bool)
    (playbackSpeed now startTime : R) (v v' : Vehicle.t) (effects : list Effect)
    (sd : SimulationData.t) (path : list PathPoint.t) :
  enRoute startTime path sd v ->
  tickVehicle fromStart wsConnected playbackSpeed now v = Some (v', effects) ->
  Vehicle.status v' = Some "stopped"%string ->
  forall (fromStart' wsConnected' : bool) (playbackSpeed' later : R),
    tickVehicle fromStart' wsConnected' playbackSpeed' later v' = Some (v', []).
Proof.
  intros Hv Htick Hstopped fromStart' wsConnected' playbackSpeed' later.
  apply tickVehicle_at_rest; [rewrite Hstopped; discriminate |].
  intros sd' Hsd'.
  rewrite (tickVehicle_enRoute fromStart wsConnected playbackSpeed now startTime
             v sd path Hv) in Htick.
  cbv zeta in Htick.
  destruct Hv as (Hmoving & _ & _ & Hdelayed & _).
  destruct (num_ge _ (Num 1)).
  - destruct (last path) as [finalPoint|]; [| discriminate].
    cbn in Htick. injection Htick as <- _. cbn in Hsd'.
    injection Hsd' as <-. now rewrite arrived_isDelayed.
  - destruct (getPositionAlongPath path _) as [position|]; [| discriminate].
    cbn in Htick. injection Htick as <- _. cbn in Hstopped.
    rewrite Hmoving in Hstopped. discriminate.
Qed.

(** The garden route is well below 130000 km. *)
Lemma garden_route_bound :
  calculatePathDistance (directLine lokVirsaMuseum roseAndJasmineGarden) <= 130000.
Proof.
  destruct garden_route_distances as [-> _].
  pose proof (asin_bound (cos (radians 33.6844) * sin (PI / 90000))) as Hb.
  pose proof PI_4 as Hpi. lra.
Qed.

Lemma arrival_is_final_witness :
  exists v' effects,
    tickVehicle true true 1 10000001000 startedVehicle = Some (v', effects) /\
    Vehicle.status v' = Some "stopped"%string /\
    forall (fromStart' wsConnected' : bool) (playbackSpeed' later : R),
      tickVehicle fromStart' wsConnected' playbackSpeed' later v' = Some (v', []).
Proof.
  pose proof garden_route_length as Hlow. pose proof garden_route_bound as Hhigh.
  pose proof startedVehicle_speed as Hspeed.
  destruct (tickVehicle_progress true true 1 10000001000 1000 startedVehicle
              startedKinematics (directLine lokVirsaMuseum roseAndJasmineGarden)
              startedVehicle_enRoute ltac:(lra) ltac:(lra) ltac:(lra) ltac:(lra))
    as (v' & effects & Htick & _ & [(Hless & _) | (_ & Hstopped)]).
  - exfalso. rewrite Hspeed in Hless.
    set (D := calculatePathDistance (directLine lokVirsaMuseum roseAndJasmineGarden))
      in *.
    replace (D / (50 / 3600) * 1000 / 1) with (D * 72000) in Hless by field.
    set (duration := D * 72000) in *.
    assert (Hduration : 0 < duration <= 9360000000) by (unfold duration; lra).
    assert (Hone : 1 <= (10000001000 - 1000) / duration).
    { apply Rmult_le_reg_r with duration; [lra |].
      unfold Rdiv. rewrite Rmult_assoc, Rinv_l by lra. lra. }
    rewrite Rmin_right in Hless by exact Hone. lra.
  - exists v', effects. split; [exact Htick |]. split; [exact Hstopped |].
    exact (arrival_is_final true true 1 10000001000 1000 startedVehicle v' effects
             startedKinematics (directLine lokVirsaMuseum roseAndJasmineGarden)
             startedVehicle_enRoute Htick Hstopped).
Defined.

(** ** MotionEngine: the roster across a tick *)

Lemma getPositionAlongPath_defined (path : list PathPoint.t) (progress : number) :
  path <> [] -> is_Some (getPositionAlongPath path progress).
Proof.
  intros Hpath. destruct (last_nonempty path Hpath) as [final Hfinal].
  destruct path as [|first rest]; [congruence |].
  unfold getPositionAlongPath. rewrite Hfinal. cbn [head fmap option_fmap option_map].
  destruct (num_le progress (Num 0)); [eexists; reflexivity |].
  destruct (num_ge progress (Num 1)); [eexists; reflexivity |].
  destruct (findSegment _ _ _ _); eexists; reflexivity.
Qed.

Lemma withMotion_sameIdentity (v : Vehicle.t) (status : option string)
    (sd : SimulationData.t) : sameIdentity (withMotion v status sd) v.
Proof. repeat split. Qed.

Lemma withArrival_sameIdentity (v : Vehicle.t) (currentWaypoint : option Z)
    (status : option string) (sd : SimulationData.t) :
  sameIdentity (withArrival v currentWaypoint status sd) v.
Proof. repeat split. Qed.

Lemma sameIdentity_refl (v : Vehicle.t) : sameIdentity v v.
Proof. repeat split. Qed.

(** One vehicle across a tick: the update returns, unless the vehicle
    has an empty path, and it keeps the identity and the route. *)
Lemma tickVehicle_sameIdentity (fromStart wsConnected : bool)
    (playbackSpeed currentTime : R) (v : Vehicle.t) :
  (Vehicle.plannedPath v <> Some [] ->
   is_Some (tickVehicle fromStart wsConnected playbackSpeed currentTime v)) /\
  (forall v' effects,
     tickVehicle fromStart wsConnected playbackSpeed currentTime v = Some (v', effects) ->
     sameIdentity v' v).
Proof.
  unfold tickVehicle.
  destruct (Vehicle.simulationData v) as [sd|];
    [| split; [eexists; reflexivity | intros v' e [= <- _]; apply sameIdentity_refl]].
  destruct (Vehicle.plannedPath v) as [path|];
    [| split; [eexists; reflexivity | intros v' e [= <- _]; apply sameIdentity_refl]].
  destruct (bool_decide _ && truthyR (SimulationData.delayStartTime sd)).
  { destruct (Rltb _ _);
      (split; [eexists; reflexivity
              | intros v' e [= <- _]; apply withMotion_sameIdentity]). }
  destruct (bool_decide _ && truthyR (SimulationData.startTime sd));
    [| split; [eexists; reflexivity | intros v' e [= <- _]; apply sameIdentity_refl]].
  destruct (num_ge _ (Num 1)).
  - split.
    + intros Hpath. assert (Hne : path <> []) by congruence.
      destruct (last_nonempty path Hne) as [final ->]. eexists. reflexivity.
    + intros v' e. destruct (last path); [| discriminate].
      intros [= <- _]. apply withArrival_sameIdentity.
  - split.
    + intros Hpath. assert (Hne : path <> []) by congruence.
      destruct (getPositionAlongPath_defined path
                  (overallProgress
                     (currentTime - default 0 (SimulationData.startTime sd))
                     (journeyDuration (calculatePathDistance path) (Vehicle.speed v)
                        playbackSpeed)) Hne) as [position ->].
      eexists. reflexivity.
    + intros v' e. destruct (getPositionAlongPath path _); [| discriminate].
      intros [= <- _]. apply withMotion_sameIdentity.
Qed.

(** X8: a firing of the simulation loop returns for every roster in
    which no vehicle has an empty path, and it keeps the roster in
    shape: the same vehicles in the same order, each with its id,
    description, speed, delay, target and planned path, and the same
    controls of the session. *)
Theorem tick_keeps_the_roster (currentTime random : R) (s : State) :
  Forall (fun v => Vehicle.plannedPath v <> Some []) (vehicles s) ->
  exists s' effects,
    tick currentTime random s = Some (s', effects) /\
    Forall2 sameIdentity (vehicles s') (vehicles s) /\
    userType s' = userType s /\
    isSimulationRunning s' = isSimulationRunning s /\
    isPaused s' = isPaused s /\
    playbackSpeed s' = playbackSpeed s /\
    simulationInterval s' = simulationInterval s.
Proof.
  intros Hpaths. unfold tick.
  destruct (simulationInterval s) as [loop|] eqn:Hloop.
  - assert (Hsome : is_Some (mapM (M := option)
                      (tickVehicle (loop_fromStart loop) (loop_wsConnected loop)
                                   (loop_playbackSpeed loop) currentTime)
                      (vehicles s))).
    { apply mapM_is_Some_2. eapply Forall_impl; [exact Hpaths |].
      intros v Hv. now apply tickVehicle_sameIdentity. }
    destruct Hsome as [results Hresults]. rewrite Hresults. cbn.
    eexists _, _. split; [reflexivity |]. cbn.
    split; [| repeat split].
    apply mapM_Some_1 in Hresults. apply Forall2_fmap_l, Forall2_flip.
    eapply Forall2_impl; [exact Hresults |].
    intros v [v' e] Htick.
    exact (proj2 (tickVehicle_sameIdentity _ _ _ _ _) _ _ Htick).
  - exists s, []. split; [reflexivity |].
    split; [| repeat split; exact Hloop].
    apply Forall2_same_length_lookup_2; [reflexivity |].
    intros i v w Hv Hw. rewrite Hv in Hw. injection Hw as <-.
    apply sameIdentity_refl.
Qed.

Lemma tick_keeps_the_roster_witness :
  exists s' effects,
    tick 2000 0.5 fastSession = Some (s', effects) /\
    Forall2 sameIdentity (vehicles s') (vehicles fastSession) /\
    userType s' = userType fastSession /\
    isSimulationRunning s' = isSimulationRunning fastSession /\
    isPaused s' = isPaused fastSession /\
    playbackSpeed s' = playbackSpeed fastSession /\
    simulationInterval s' = simulationInterval fastSession.
Proof.
  apply (tick_keeps_the_roster 2000 0.5 fastSession).
  rewrite fastSession_value. cbn [vehicles].
  repeat constructor. rewrite startedVehicle_value. discriminate.
Defined.

(** ** Dashboard counters *)

Lemma has_status_exclusive (v : Vehicle.t) :
  has_status "moving" v && has_status "stopped" v = false.
Proof.
  unfold has_status. destruct (Vehicle.status v) as [status|]; [| reflexivity].
  destruct (bool_decide (Some status = Some "moving"%string)) eqn:Hmoving;
    [| reflexivity].
  apply bool_decide_eq_true_1 in Hmoving. injection Hmoving as ->. reflexivity.
Qed.

Lemma withIdle_status (status : string) (v : Vehicle.t) :
  status <> "idle"%string -> has_status status (withIdle v) = false.
Proof.
  intros Hstatus. unfold has_status. apply bool_decide_eq_false_2.
  cbn. congruence.
Qed.

(** X9: the dashboard counters.  The vehicles counted as active and
    those counted as completed are different vehicles of the roster, so
    that the two counters together never exceed the total; and a roster
    that has been stopped counts no active and no completed vehicle. *)
Theorem currentStats_counts (roster : list Vehicle.t) :
  totalVehicles (currentStats roster) = length roster /\
  (activeVehicles (currentStats roster) + completedJourneys (currentStats roster)
   <= totalVehicles (currentStats roster))%nat /\
  currentStats (map withIdle roster) = mkStats (length roster) 0 0.
Proof.
  split; [reflexivity |]. split.
  - unfold currentStats. cbn [totalVehicles activeVehicles completedJourneys].
    induction roster as [|v roster IH]; [reflexivity |].
    pose proof (has_status_exclusive v) as Hv. cbn [List.filter length].
    destruct (has_status "moving" v), (has_status "stopped" v);
      cbn [length] in *; try discriminate; lia.
  - unfold currentStats. f_equal.
    + now rewrite length_map.
    + induction roster as [|v roster IH]; [reflexivity |].
      cbn [map List.filter]. now rewrite withIdle_status by discriminate.
    + induction roster as [|v roster IH]; [reflexivity |].
      cbn [map List.filter]. now rewrite withIdle_status by discriminate.
Qed.

(** ** From the producer to the viewers *)

Lemma elem_of_positionUpdates (now : R) (updated : list Vehicle.t)
    (entry : PositionUpdate.t) :
  entry ∈ positionUpdates now updated ->
  exists w,
    w ∈ updated /\ has_status "moving" w = true /\
    PositionUpdate.id entry = Vehicle.id w /\
    PositionUpdate.status entry = Vehicle.status w /\
    PositionUpdate.currentLat entry
      = (Vehicle.simulationData w ≫= SimulationData.currentLat) ≫= toJSON /\
    PositionUpdate.currentLng entry
      = (Vehicle.simulationData w ≫= SimulationData.currentLng) ≫= toJSON.
Proof.
  unfold positionUpdates. rewrite list_elem_of_fmap.
  intros (w & -> & Hw). rewrite list_elem_of_In, filter_In in Hw.
  destruct Hw as [Hw Hkept]. rewrite <- list_elem_of_In in Hw.
  apply andb_prop in Hkept as [Hkept _]. apply andb_prop in Hkept as [Hmoving _].
  exists w. repeat split; assumption.
Qed.

Lemma positionUpdates_elem_of (now : R) (updated : list Vehicle.t) (w : Vehicle.t)
    (sd : SimulationData.t) (lat lng : R) :
  w ∈ updated ->
  Vehicle.status w = Some "moving"%string ->
  Vehicle.simulationData w = Some sd ->
  SimulationData.currentLat sd = Some (Num lat) -> lat <> 0 ->
  SimulationData.currentLng sd = Some (Num lng) -> lng <> 0 ->
  exists entry,
    entry ∈ positionUpdates now updated /\
    PositionUpdate.id entry = Vehicle.id w /\
    PositionUpdate.status entry = Some "moving"%string /\
    PositionUpdate.currentLat entry = Some lat /\
    PositionUpdate.currentLng entry = Some lng.
Proof.
  intros Hw Hstatus Hsd Hlat Hlat0 Hlng Hlng0.
  eexists. split.
  - unfold positionUpdates. apply list_elem_of_fmap. exists w.
    split; [reflexivity |].
    rewrite list_elem_of_In, filter_In, <- list_elem_of_In.
    split; [exact Hw |].
    unfold has_status. rewrite Hstatus, Hsd. cbn. rewrite Hlat, Hlng.
    unfold truthyN, truthy. now rewrite !Reqb_false by assumption.
  - cbn. rewrite Hsd. cbn. rewrite Hlat, Hlng. cbn.
    repeat split; [exact Hstatus].
Qed.

(** The outcome of a delta entry with a usable position. *)
Lemma applyPositionUpdate_usable (now : R) (existingVehicles : gmap Z Vehicle.t)
    (entry : PositionUpdate.t) (lat lng : R) :
  PositionUpdate.currentLat entry = Some lat -> lat <> 0 ->
  PositionUpdate.currentLng entry = Some lng -> lng <> 0 ->
  PositionUpdate.status entry = Some "moving"%string ->
  exists v',
    applyPositionUpdate now existingVehicles entry = Some v' /\
    Vehicle.status v' = Some "moving"%string /\
    livePosition v' = (Some (Num lat), Some (Num lng)).
Proof.
  intros Hlat Hlat0 Hlng Hlng0 Hstatus. unfold applyPositionUpdate.
  rewrite Hlat, Hlng, !truthyR_Some by assumption. cbn [andb default].
  destruct (existingVehicles !! PositionUpdate.id entry) as [existing|];
    eexists; (split; [reflexivity |]); cbn; rewrite Hstatus; split; reflexivity.
Qed.

(** X10: what a position delta carries across.  Every vehicle of the
    producer that is moving at a non-zero position, under a non-zero
    id, is in the roster of a viewer that applies the delta built from
    the producer's roster, moving and at the same position, whatever
    the viewer held before; and every vehicle of that roster has the id
    of a moving vehicle of the producer, so that a vehicle that has
    stopped is not in it. *)
Theorem position_delta_round_trip (now received : R)
    (updated prevVehicles : list Vehicle.t) (v : Vehicle.t)
    (sd : SimulationData.t) (lat lng : R) :
  v ∈ updated ->
  Vehicle.status v = Some "moving"%string ->
  Vehicle.simulationData v = Some sd ->
  SimulationData.currentLat sd = Some (Num lat) -> lat <> 0 ->
  SimulationData.currentLng sd = Some (Num lng) -> lng <> 0 ->
  Vehicle.id v <> 0%Z ->
  let roster :=
    applyLivePositionUpdate received (Some (positionUpdates now updated))
                            prevVehicles in
  (exists v',
     v' ∈ roster /\
     Vehicle.id v' = Vehicle.id v /\
     Vehicle.status v' = Some "moving"%string /\
     livePosition v' = (Some (Num lat), Some (Num lng))) /\
  (forall v',
     v' ∈ roster ->
     exists w,
       w ∈ updated /\ Vehicle.id w = Vehicle.id v' /\
       Vehicle.status w = Some "moving"%string).
Proof.
  intros Hv Hstatus Hsd Hlat Hlat0 Hlng Hlng0 Hid roster. split.
  - destruct (positionUpdates_elem_of now updated v sd lat lng
                Hv Hstatus Hsd Hlat Hlat0 Hlng Hlng0)
      as (entry & Hentry & Heid & Hestatus & Helat & Helng).
    destruct (applyPositionUpdate_usable received
                (existingVehiclesMap prevVehicles) entry lat lng
                Helat Hlat0 Helng Hlng0 Hestatus)
      as (v' & Happly & Hmoving & Hposition).
    pose proof (applyPositionUpdate_id _ _ _ _ Happly) as Hsame.
    exists v'. split; [| split; [congruence | split; assumption]].
    unfold roster, applyLivePositionUpdate.
    apply elem_of_validUpdatedVehicles. split; [| congruence].
    apply list_elem_of_fmap. exists entry. split; [now rewrite Happly | exact Hentry].
  - intros v' Hv'. unfold roster, applyLivePositionUpdate in Hv'.
    apply elem_of_validUpdatedVehicles in Hv' as [Hv' _].
    apply list_elem_of_fmap in Hv' as (entry & Happly & Hentry).
    symmetry in Happly. apply applyPositionUpdate_id in Happly.
    destruct (elem_of_positionUpdates now updated entry Hentry)
      as (w & Hw & Hmoving & Hwid & _).
    exists w. split; [exact Hw |]. split; [congruence |].
    unfold has_status in Hmoving. now apply bool_decide_eq_true_1 in Hmoving.
Qed.

Lemma position_delta_round_trip_witness :
  let roster :=
    applyLivePositionUpdate 2100 (Some (positionUpdates 2000 [startedVehicle]))
                            [sampleVehicle; otherVehicle] in
  (exists v',
     v' ∈ roster /\
     Vehicle.id v' = Vehicle.id startedVehicle /\
     Vehicle.status v' = Some "moving"%string /\
     livePosition v' = (Some (Num 33.6844), Some (Num 73.0479))) /\
  (forall v',
     v' ∈ roster ->
     exists w,
       w ∈ [startedVehicle] /\ Vehicle.id w = Vehicle.id v' /\
       Vehicle.status w = Some "moving"%string).
Proof.
  apply (position_delta_round_trip 2000 2100 [startedVehicle]
           [sampleVehicle; otherVehicle] startedVehicle startedKinematics
           33.6844 73.0479);
    rewrite ?startedVehicle_value;
    first [reflexivity | apply list_elem_of_singleton; reflexivity
          | lra | discriminate].
Defined.

(** ** Roles *)

Lemma not_admin (s : State) : userType s <> Some admin -> is_admin s = false.
Proof.
  unfold is_admin, isAdminType. destruct (userType s) as [[|]|]; congruence.
Qed.

Lemma not_user (s : State) : userType s <> Some user -> is_user s = false.
Proof.
  unfold is_user, isUserType. destruct (userType s) as [[|]|]; congruence.
Qed.

(** X11: the producer's controls are reserved to the admin.  In a
    session whose user is not an admin, starting, pausing, resuming
    and stopping a run, changing the multiplier, selecting a waypoint,
    placing a vehicle, saving the simulation and loading a record leave
    the session and the planner as they are.  All that they emit is
    their "Access Denied" toast (the toasts of [changePlaybackSpeed]
    are not modelled): nothing is posted or broadcast. *)
Theorem controls_require_admin (s : State) (p : Planner)
    (currentTime speed : R) (random : nat -> R) (waypointId : Z)
    (waypoints : list Waypoint.t) (response : FetchResult VehicleResponseDto.t)
    (saved : FetchResult string)
    (responses : nat -> FetchResult VehicleResponseDto.t)
    (record : SimulationRecord.t) :
  userType s <> Some admin ->
  startSimulation currentTime random s
    = (s, [toast "Access Denied" "Only admins can start simulations"]) /\
  pauseSimulation s
    = (s, [toast "Access Denied" "Only admins can pause simulations"]) /\
  resumeSimulation s
    = (s, [toast "Access Denied" "Only admins can resume simulations"]) /\
  stopSimulation s
    = (s, [toast "Access Denied" "Only admins can stop simulations"]) /\
  changePlaybackSpeed speed s = s /\
  handleWaypointSelect waypointId s p
    = (p, [toast "Access Denied" "Only admins can select waypoints"]) /\
  placeVehicle waypoints response s p
    = (s, p, [toast "Access Denied" "Only admins can place vehicles"]) /\
  saveSimulation waypoints saved s
    = (None, [toast "Access Denied" "Only admins can save simulations"]) /\
  loadSimulationRecord waypoints responses record s p
    = (s, p, [toast "Access Denied" "Only admins can load simulation records"]).
Proof.
  intros Hrole. apply not_admin in Hrole.
  unfold startSimulation, pauseSimulation, resumeSimulation, stopSimulation,
    changePlaybackSpeed, handleWaypointSelect, placeVehicle, saveSimulation,
    loadSimulationRecord.
  rewrite Hrole. repeat split.
Qed.

Lemma controls_require_admin_witness :
  startSimulation 1000 (fun _ => 0.6) viewerSession
    = (viewerSession, [toast "Access Denied" "Only admins can start simulations"]) /\
  pauseSimulation viewerSession
    = (viewerSession, [toast "Access Denied" "Only admins can pause simulations"]) /\
  resumeSimulation viewerSession
    = (viewerSession, [toast "Access Denied" "Only admins can resume simulations"]) /\
  stopSimulation viewerSession
    = (viewerSession, [toast "Access Denied" "Only admins can stop simulations"]) /\
  changePlaybackSpeed 2 viewerSession = viewerSession /\
  handleWaypointSelect 4 viewerSession readyPlanner
    = (readyPlanner, [toast "Access Denied" "Only admins can select waypoints"]) /\
  placeVehicle ISLAMABAD_WAYPOINTS corollaResponse viewerSession readyPlanner
    = (viewerSession, readyPlanner,
       [toast "Access Denied" "Only admins can place vehicles"]) /\
  saveSimulation ISLAMABAD_WAYPOINTS (Fulfilled "saved"%string) viewerSession
    = (None, [toast "Access Denied" "Only admins can save simulations"]) /\
  loadSimulationRecord ISLAMABAD_WAYPOINTS (fun _ => corollaResponse)
      (SimulationRecord.mk 1 "simulation_record_1" [] []) viewerSession readyPlanner
    = (viewerSession, readyPlanner,
       [toast "Access Denied" "Only admins can load simulation records"]).
Proof.
  apply (controls_require_admin viewerSession). discriminate.
Defined.

(** X12: simulation messages are for viewers, and the tests are those
    of the render that built the socket client.  A handler created in
    a render whose user was not a viewer, the producer among them,
    leaves every state as it is, for every message.  A handler created
    in a render that was not receiving a run ignores full and sparse
    vehicle updates, and any handler ignores a state message of a run
    that is not running.  So a viewer whose client was built before
    the run started is marked as receiving by the start message, but
    its roster is not updated by the vehicle updates that follow, for
    as long as that client lives. *)
Theorem messages_require_viewer (now later : R) (message : SimulationStateMessage)
    (other render s : State) (roster : option (list Vehicle.t))
    (updates : option (list PositionUpdate.t)) (stats : option Stats)
    (paused : option bool) (speed : option R) :
  userType other <> Some user ->
  userType render = Some user ->
  isReceivingSimulation render = false ->
  handleSimulationUpdateOf other now message s = s /\
  handleSimulationUpdateOf render now (VEHICLE_UPDATE roster stats) s = s /\
  handleSimulationUpdateOf render now (LIVE_POSITION_UPDATE updates stats) s = s /\
  handleSimulationUpdateOf render now
    (SIMULATION_STATE false paused roster speed stats) s = s /\
  let started :=
    handleSimulationUpdateOf render now (SIMULATION_STARTED roster speed) s in
  isReceivingSimulation started = true /\
  vehicles started = default [] roster /\
  handleSimulationUpdateOf render later (VEHICLE_UPDATE roster stats) started
    = started /\
  handleSimulationUpdateOf render later (LIVE_POSITION_UPDATE updates stats) started
    = started.
Proof.
  intros Hother Hrender Hreceiving. apply not_user in Hother.
  unfold handleSimulationUpdateOf, is_user in *.
  rewrite Hother, Hrender, Hreceiving. cbn [isUserType andb].
  split; [now destruct message |]. repeat split.
Qed.

Lemma messages_require_viewer_witness :
  handleSimulationUpdateOf producerSession 6000 (VEHICLE_UPDATE (Some []) None)
    viewerSession = viewerSession /\
  handleSimulationUpdateOf waitingViewer 6000 (VEHICLE_UPDATE (Some []) None)
    viewerSession = viewerSession /\
  handleSimulationUpdateOf waitingViewer 6000
    (LIVE_POSITION_UPDATE (Some sampleDelta) None) viewerSession = viewerSession /\
  handleSimulationUpdateOf waitingViewer 6000
    (SIMULATION_STATE false (Some true) (Some []) (Some 2) None) viewerSession
    = viewerSession /\
  let started :=
    handleSimulationUpdateOf waitingViewer 6000
      (SIMULATION_STARTED (Some []) (Some 2)) viewerSession in
  isReceivingSimulation started = true /\
  vehicles started = default [] (Some []) /\
  handleSimulationUpdateOf waitingViewer 7000 (VEHICLE_UPDATE (Some []) None) started
    = started /\
  handleSimulationUpdateOf waitingViewer 7000
    (LIVE_POSITION_UPDATE (Some sampleDelta) None) started = started.
Proof.
  apply (messages_require_viewer 6000 7000 (VEHICLE_UPDATE (Some []) None)
           producerSession waitingViewer viewerSession (Some []) (Some sampleDelta)
           None (Some true) (Some 2));
    [discriminate | reflexivity | reflexivity].
Defined.

Lemma handleSimulationUpdate_viewer (now : R) (message : SimulationStateMessage)
    (render s : State) :
  userType (handleSimulationUpdateOf render now message s) = userType s /\
  simulationInterval (handleSimulationUpdateOf render now message s)
    = simulationInterval s.
Proof.
  unfold handleSimulationUpdateOf.
  destruct message; repeat match goal with
                      | |- context [if ?b then _ else _] => destruct b
                      end; split; reflexivity.
Qed.

(** One action of a viewer without a loop. *)
Lemma act_viewer (a : Action) (s : State) :
  userType s = Some user ->
  simulationInterval s = None ->
  exists s' effects,
    act a s = Some (s', effects) /\
    userType s' = Some user /\
    simulationInterval s' = None /\
    Forall (fun e => isBroadcast e = false) effects.
Proof.
  intros Hrole Hloop.
  assert (Hadmin : is_admin s = false) by (apply not_admin; congruence).
  destruct a as [render now message | currentTime random | | | | speed
                | currentTime random];
    cbn [act].
  - destruct (handleSimulationUpdate_viewer now message render s) as [Hu Hi].
    set (s' := handleSimulationUpdateOf render now message s) in *.
    assert (Heffect : playbackSpeedEffect s' = s').
    { unfold playbackSpeedEffect, is_admin. rewrite Hu, Hrole.
      now rewrite andb_false_r. }
    rewrite Heffect.
    exists s', []. split; [now destruct (Reqb _ _) |].
    split; [congruence |]. split; [congruence | constructor].
  - unfold startSimulation. rewrite Hadmin.
    eexists _, _. split; [reflexivity |]. repeat split; try assumption.
    repeat constructor.
  - unfold pauseSimulation. rewrite Hadmin.
    eexists _, _. split; [reflexivity |]. repeat split; try assumption.
    repeat constructor.
  - unfold resumeSimulation. rewrite Hadmin.
    eexists _, _. split; [reflexivity |]. repeat split; try assumption.
    repeat constructor.
  - unfold stopSimulation. rewrite Hadmin.
    eexists _, _. split; [reflexivity |]. repeat split; try assumption.
    repeat constructor.
  - unfold changePlaybackSpeed. rewrite Hadmin.
    eexists _, _. split; [reflexivity |]. repeat split; try assumption.
    constructor.
  - unfold tick. rewrite Hloop.
    eexists _, _. split; [reflexivity |]. repeat split; try assumption.
    constructor.
Qed.

(** X13: a viewer never drives a run.  Whatever messages arrive and
    whatever controls are used, in whatever order, a viewer session
    that runs no loop stays a viewer session without a loop, no update
    throws, and all that is emitted is toasts: nothing is broadcast and
    no notification is sent to the other clients. *)
Theorem viewer_never_broadcasts (actions : list Action) (s : State) :
  userType s = Some user ->
  simulationInterval s = None ->
  exists s' effects,
    acts actions s = Some (s', effects) /\
    userType s' = Some user /\
    simulationInterval s' = None /\
    Forall (fun e => isBroadcast e = false) effects.
Proof.
  revert s. induction actions as [|a actions IH]; intros s Hrole Hloop.
  - exists s, []. repeat split; try assumption. constructor.
  - destruct (act_viewer a s Hrole Hloop) as (s1 & e1 & Hact & Hrole1 & Hloop1 & He1).
    destruct (IH s1 Hrole1 Hloop1) as (s2 & e2 & Hacts & Hrole2 & Hloop2 & He2).
    exists s2, (e1 ++ e2). cbn [acts]. rewrite Hact. cbn. rewrite Hacts. cbn.
    split; [reflexivity |]. repeat split; try assumption.
    now apply Forall_app.
Qed.

Lemma viewer_never_broadcasts_witness :
  exists s' effects,
    acts [Arrives waitingViewer 5000
            (SIMULATION_STARTED (Some [startedVehicle]) (Some 2));
          Starts 5500 (fun _ => 0.6);
          Fires 6000 0.05;
          Arrives waitingViewer 6100 (LIVE_POSITION_UPDATE (Some sampleDelta) None);
          ChangesSpeed 5; Pauses; Resumes; Stops]
         viewerSession = Some (s', effects) /\
    userType s' = Some user /\
    simulationInterval s' = None /\
    Forall (fun e => isBroadcast e = false) effects.
Proof. apply (viewer_never_broadcasts _ viewerSession); reflexivity. Defined.

(** ** From the start of a run to the viewers *)

Lemma initializeVehicle_sameIdentity (currentTime random : R) (v : Vehicle.t) :
  sameIdentity (initializeVehicle currentTime random v) v.
Proof.
  unfold initializeVehicle.
  destruct (Vehicle.plannedPath v) as [[|first rest]|]; repeat split.
Qed.

(** X14: the start of a run reaches the viewers.  When a connected
    admin starts a run of a roster that is not empty, with a multiplier
    that is not 0, the start is broadcast, and a viewer that handles
    the broadcast holds the producer's roster as it was initialised,
    vehicle by vehicle the roster the producer had, and is receiving a
    run that is running, not paused, at the producer's multiplier. *)
Theorem start_reaches_the_viewers (currentTime now : R) (random : nat -> R)
    (producer viewer : State) :
  userType producer = Some admin ->
  wsConnected producer = true ->
  vehicles producer <> [] ->
  playbackSpeed producer <> 0 ->
  userType viewer = Some user ->
  exists message,
    broadcastSimulationUpdate message
      ∈ snd (startSimulation currentTime random producer) /\
    let started := fst (startSimulation currentTime random producer) in
    let synced := handleSimulationUpdate now message viewer in
    vehicles synced = vehicles started /\
    Forall2 sameIdentity (vehicles started) (vehicles producer) /\
    isSimulationRunning started = true /\
    isSimulationRunning synced = true /\
    isPaused synced = false /\
    isReceivingSimulation synced = true /\
    playbackSpeed synced = playbackSpeed producer.
Proof.
  intros Hadmin Hconnected Hroster Hspeed Hviewer.
  unfold startSimulation, is_admin. rewrite Hadmin, Hconnected. cbn [isAdminType negb].
  rewrite bool_decide_eq_false_2
    by (destruct (vehicles producer); [congruence | discriminate]).
  eexists. split.
  - cbn [snd]. apply elem_of_app. left. right. left.
  - cbn [fst vehicles isSimulationRunning].
    unfold handleSimulationUpdate, handleSimulationUpdateOf, is_user.
    rewrite Hviewer.
    cbn [isUserType vehicles isSimulationRunning isPaused isReceivingSimulation
         playbackSpeed default].
    rewrite orR_nonzero by exact Hspeed.
    repeat split.
    apply Forall2_same_length_lookup_2; [now rewrite length_imap |].
    intros i v' v Hv' Hv. rewrite list_lookup_imap, Hv in Hv'.
    injection Hv' as <-. apply initializeVehicle_sameIdentity.
Qed.

Lemma start_reaches_the_viewers_witness :
  exists message,
    broadcastSimulationUpdate message
      ∈ snd (startSimulation 1000 (fun _ => 0.6) readySession) /\
    let started := fst (startSimulation 1000 (fun _ => 0.6) readySession) in
    let synced := handleSimulationUpdate 1100 message viewerSession in
    vehicles synced = vehicles started /\
    Forall2 sameIdentity (vehicles started) (vehicles readySession) /\
    isSimulationRunning started = true /\
    isSimulationRunning synced = true /\
    isPaused synced = false /\
    isReceivingSimulation synced = true /\
    playbackSpeed synced = playbackSpeed readySession.
Proof.
  apply (start_reaches_the_viewers 1000 1100 (fun _ => 0.6) readySession
           viewerSession);
    first [reflexivity | discriminate | cbn; lra].
Defined.

(** ** RouteComposer: the shape of a route *)

Lemma interpolate_shape (current next : PathPoint.t) (steps j count : nat) :
  length (interpolate current next steps j count) = count /\
  List.filter isFlagged (interpolate current next steps j count) = [].
Proof.
  revert j. induction count as [|count IH]; intros j; [split; reflexivity |].
  destruct (IH (S j)) as [Hlength Hnone].
  cbn [interpolate length List.filter]. unfold isFlagged at 1.
  cbn [PathPoint.isWaypoint]. rewrite Hlength, Hnone. split; reflexivity.
Qed.

(** Every anchor but the last opens a stretch of five points, of which
    it is the only one flagged as a waypoint. *)
Lemma smooth_shape (intermediatePoints : list PathPoint.t) :
  Forall (fun point => isFlagged point = true) intermediatePoints ->
  length (smooth intermediatePoints) = (5 * (length intermediatePoints - 1))%nat /\
  List.filter isFlagged (smooth intermediatePoints) = removelast intermediatePoints.
Proof.
  induction intermediatePoints as [|current rest IH]; intros Hflagged;
    [split; reflexivity |].
  destruct rest as [|next rest]; [split; reflexivity |].
  apply Forall_cons in Hflagged as [Hcurrent Hrest].
  destruct (IH Hrest) as [Hlength Hfilter].
  destruct (interpolate_shape current next 5 1 4) as [Hfour Hnone].
  change (smooth (current :: next :: rest))
    with (current :: interpolate current next 5 1 (5 - 1)
          ++ smooth (next :: rest)).
  change (5 - 1)%nat with 4%nat. split.
  - cbn [length]. rewrite length_app, Hfour, Hlength. cbn [length]. lia.
  - cbn [List.filter]. rewrite Hcurrent, List.filter_app, Hnone, Hfilter. reflexivity.
Qed.

Lemma pathWaypoints_length (waypoints : list Waypoint.t) (source destination : Waypoint.t) :
  (length (pathWaypoints waypoints source destination) <= 2)%nat.
Proof.
  unfold pathWaypoints, findPathWaypoints.
  destruct (Rltb _ 5); [cbn; lia |]. rewrite length_take. lia.
Qed.

(** X15: the shape of a route.  A route of [calculateOptimalPath] has
    five points for each of its stretches and one more: 6, 11 or 16
    points, as it goes through no, one or two intermediate waypoints.
    Its points flagged as waypoints are, in order, the source, the
    intermediate waypoints and the destination, each once; all other
    points are interpolated. *)
Theorem route_shape (waypoints : list Waypoint.t) (source destination : Waypoint.t) :
  let route := calculateOptimalPath waypoints source destination in
  let selected := pathWaypoints waypoints source destination in
  length route = (5 * (length selected + 1) + 1)%nat /\
  (6 <= length route <= 16)%nat /\
  List.filter isFlagged route
    = anchor source :: map anchor selected ++ [anchor destination].
Proof.
  intros route selected.
  pose proof (pathWaypoints_length waypoints source destination) as Hselected.
  fold selected in Hselected.
  assert (Hflagged : Forall (fun point => isFlagged point = true)
                       (anchor source :: map anchor selected ++ [anchor destination])).
  { apply Forall_cons. split; [reflexivity |]. apply Forall_app. split.
    - apply Forall_fmap, Forall_forall. reflexivity.
    - repeat constructor. }
  destruct (smooth_shape _ Hflagged) as [Hlength Hfilter].
  assert (Hroute : route = smooth (anchor source :: map anchor selected
                                   ++ [anchor destination])
                           ++ [anchor destination]) by reflexivity.
  assert (Hlast : removelast (anchor source :: map anchor selected
                              ++ [anchor destination])
                  = anchor source :: map anchor selected).
  { change (anchor source :: map anchor selected ++ [anchor destination])
      with ((anchor source :: map anchor selected) ++ [anchor destination]).
    apply removelast_last. }
  assert (Hcount : length route = (5 * (length selected + 1) + 1)%nat).
  { rewrite Hroute, length_app, Hlength. cbn [length].
    rewrite length_app, length_map. cbn [length]. lia. }
  assert (Hanchors : List.filter isFlagged route
                     = anchor source :: map anchor selected ++ [anchor destination]).
  { rewrite Hroute, List.filter_app, Hfilter, Hlast. reflexivity. }
  split; [exact Hcount |]. split; [lia | exact Hanchors].
Qed.

(** ** SyncChannel: what the hook keeps true *)

Ltac settle_consistent :=
  unfold dispatch, handle; cbn [clientRef reconnectTimeoutRef];
  unfold onWebSocketClose;
  try match goal with |- context [Z.eqb ?code 1000] => destruct (Z.eqb code 1000) end;
  match goal with
  | |- consistent ?h => let h' := fresh "h" in set (h' := h); vm_compute in h'; subst h'
  end;
  unfold consistent, atRest, maxReconnectAttempts; cbn;
  repeat split; intros; try discriminate; simplify_eq; auto with lia.

Lemma mount_consistent (isEnabled : bool) : consistent (mount isEnabled).
Proof. destruct isEnabled; unfold mount; settle_consistent. Qed.

(** One event keeps the hook consistent. *)
Lemma dispatch_consistent (e : Event) (h : Hook) :
  consistent h -> consistent (dispatch e h).
Proof.
  intros (Hmax & Hclient & Htimeout & Hrest).
  destruct h as [en ic ce ra rt cr].
  cbn [enabled reconnectAttempts reconnectTimeoutRef clientRef] in *.
  destruct en.
  - clear Hrest. unfold maxReconnectAttempts in Hmax.
    destruct cr as [r|].
    + destruct (Hclient r eq_refl) as (-> & _ & ->). clear Hclient Htimeout.
      unfold currentRender. cbn [enabled reconnectAttempts].
      do 11 (destruct ra as [|ra]; [destruct e as [| | | | code | | | | []];
               settle_consistent |]).
      lia.
    + clear Hclient. destruct rt as [t|].
      * destruct (Htimeout t eq_refl) as (-> & _ & Hpositive). clear Htimeout.
        unfold currentRender. cbn [enabled reconnectAttempts].
        destruct ra as [|ra]; [lia |].
        do 10 (destruct ra as [|ra]; [destruct e as [| | | | code | | | | []];
                 settle_consistent |]).
        lia.
      * clear Htimeout.
        do 11 (destruct ra as [|ra]; [destruct e as [| | | | code | | | | []];
                 settle_consistent |]).
        lia.
  - rewrite (Hrest eq_refl).
    destruct e as [| | | | code | | | | []]; settle_consistent.
Qed.

(** X16: what the hook keeps true.  From the first render on, whatever
    the clients report and whatever is asked of the hook, the attempt
    counter never exceeds 10; a client and a pending retry never
    coexist; a pending retry always carries the delay
    min(1000 * 2^attempts, 30000) of the current counter; and while the
    hook is disabled it is at rest: nothing is connected or pending,
    and the counter and the error are cleared. *)
Theorem channel_stays_consistent (isEnabled : bool) (events : list Event) :
  consistent (run events (mount isEnabled)).
Proof.
  unfold run. induction events as [|e events IH] using rev_ind.
  - apply mount_consistent.
  - rewrite foldl_app. cbn [foldl]. now apply dispatch_consistent.
Qed.

(** X17: a connection that succeeds resets the back-off.  When the
    client at hand connects, at whatever count it was created, the
    counter and the error are cleared and a client of the new count is
    at hand; a failure that follows schedules the first retry again,
    after 2000 ms. *)
Theorem connection_resets_backoff (e : Event) (h : Hook) (attempts : nat) :
  isFailure e ->
  connectingAt attempts h ->
  let connected := dispatch ClientConnected h in
  let failed := dispatch e connected in
  connectingAt 0 connected /\
  isConnected connected = true /\
  connectionError connected = None /\
  reconnectAttempts failed = 1%nat /\
  clientRef failed = None /\
  reconnectTimeoutRef failed = Some (mkTimeout 2000 (mkRender true 1)).
Proof.
  intros He (Hen & Hra & Hrt & Hcr).
  destruct h as [en ic ce ra rt cr]. cbn in Hen, Hra, Hrt, Hcr. subst.
  destruct attempts as [|attempts];
    (destruct e as [| | | | code | | | |]; cbn in He; try contradiction;
     try (apply Z.eqb_neq in He);
     hook_compute; cbn; rewrite ?He; cbn; repeat split; reflexivity).
Qed.

Lemma connection_resets_backoff_witness :
  let connected :=
    dispatch ClientConnected
      (run (attemptsEndedBy [ClientWebSocketError; ClientWebSocketClose 1006])
           (mount true)) in
  let failed := dispatch ClientDisconnected connected in
  connectingAt 0 connected /\
  isConnected connected = true /\
  connectionError connected = None /\
  reconnectAttempts failed = 1%nat /\
  clientRef failed = None /\
  reconnectTimeoutRef failed = Some (mkTimeout 2000 (mkRender true 1)).
Proof.
  apply (connection_resets_backoff ClientDisconnected
           (run (attemptsEndedBy [ClientWebSocketError; ClientWebSocketClose 1006])
                (mount true)) 2).
  - exact I.
  - apply (consecutive_failures [ClientWebSocketError; ClientWebSocketClose 1006]).
    + repeat constructor. discriminate.
    + cbn. unfold maxReconnectAttempts. lia.
Defined.

(** ** Strings and integers: [parseInt] reads back [String] *)

Lemma digitOf_pretty_N_char (d : N) :
  (d < 10)%N -> digitOf 10 (pretty_N_char d) = Some d.
Proof.
  intros Hd.
  assert (d = 0 \/ d = 1 \/ d = 2 \/ d = 3 \/ d = 4 \/ d = 5 \/ d = 6 \/ d = 7
          \/ d = 8 \/ d = 9)%N as Hcases by lia.
  repeat destruct Hcases as [-> | Hcases]; try subst d; reflexivity.
Qed.

(** The digits that [pretty_N_go] writes in front of [s] are read back
    as the number they render. *)
Lemma parseDigits_pretty_N_go (x : N) :
  (0 < x)%N ->
  forall (s : string) (value : N) (seen : bool),
    exists k : N,
      parseDigits 10 value seen (pretty_N_go x s)
      = parseDigits 10 (value * 10 ^ k + x) true s.
Proof.
  induction (N.lt_wf_0 x) as [x _ IH]. intros Hx s value seen.
  rewrite pretty_N_go_step by exact Hx.
  assert (Hdigit : (x `mod` 10 < 10)%N) by (apply N.mod_lt; lia).
  pose proof (N.div_mod x 10 ltac:(lia)) as Hsplit.
  destruct (N.eq_dec (x `div` 10)%N 0%N) as [Hq | Hq].
  - rewrite Hq, pretty_N_go_0. exists 1%N.
    cbn [parseDigits]. rewrite digitOf_pretty_N_char by exact Hdigit.
    f_equal. lia.
  - destruct (IH (x `div` 10)%N ltac:(apply N.div_lt; lia) ltac:(lia)
                (String (pretty_N_char (x `mod` 10)) s) value seen) as [k Hk].
    exists (k + 1)%N. rewrite Hk. cbn [parseDigits].
    rewrite digitOf_pretty_N_char by exact Hdigit.
    f_equal. rewrite N.pow_add_r. lia.
Qed.

(** The rendering of a positive number starts with a digit other than
    zero. *)
Lemma pretty_N_go_leading (x : N) :
  (0 < x)%N ->
  forall s : string,
    exists (d : N) (rest : string),
      (0 < d < 10)%N /\ pretty_N_go x s = String (pretty_N_char d) rest.
Proof.
  induction (N.lt_wf_0 x) as [x _ IH]. intros Hx s.
  rewrite pretty_N_go_step by exact Hx.
  assert (Hdigit : (x `mod` 10 < 10)%N) by (apply N.mod_lt; lia).
  pose proof (N.div_mod x 10 ltac:(lia)) as Hsplit.
  destruct (N.eq_dec (x `div` 10)%N 0%N) as [Hq | Hq].
  - rewrite Hq, pretty_N_go_0. exists (x `mod` 10)%N, s. split; [lia | reflexivity].
  - apply IH; [apply N.div_lt; lia | lia].
Qed.

(** [parseInt] on a string that starts with a digit from 1 to 9. *)
Lemma Number_parseInt_leading (d : N) (rest : string) :
  (0 < d < 10)%N ->
  Number_parseInt (String (pretty_N_char d) rest)
    = Z.of_N <$> parseDigits 10 0 false (String (pretty_N_char d) rest) /\
  Number_parseInt (String "-" (String (pretty_N_char d) rest))
    = (fun n => (- Z.of_N n)%Z)
        <$> parseDigits 10 0 false (String (pretty_N_char d) rest).
Proof.
  intros Hd.
  assert (d = 1 \/ d = 2 \/ d = 3 \/ d = 4 \/ d = 5 \/ d = 6 \/ d = 7
          \/ d = 8 \/ d = 9)%N as Hcases by lia.
  repeat destruct Hcases as [-> | Hcases]; try subst d; cbn [pretty_N_char];
    (split;
     [ match goal with |- Number_parseInt ?digits = _ =>
         transitivity ((fun n => (1 * Z.of_N n)%Z)
                         <$> parseDigits 10 0 false digits)
       end
     | match goal with |- Number_parseInt (String _ ?digits) = _ =>
         transitivity ((fun n => (-1 * Z.of_N n)%Z)
                         <$> parseDigits 10 0 false digits)
       end ];
     [ reflexivity | | reflexivity | ];
     (destruct (parseDigits _ _ _ _) as [n|]; [| reflexivity]);
     cbn [fmap option_fmap option_map]; f_equal; lia).
Qed.

Lemma Number_parseInt_pretty (id : Z) : Number_parseInt (pretty id) = Some id.
Proof.
  destruct id as [|x|x]; [reflexivity | |].
  - change (pretty (Z.pos x)) with (pretty (N.pos x)).
    unfold pretty, pretty_N. rewrite decide_False by discriminate.
    destruct (pretty_N_go_leading (N.pos x) ltac:(lia) "") as (d & rest & Hd & Hshape).
    destruct (parseDigits_pretty_N_go (N.pos x) ltac:(lia) "" 0%N false) as [k Hk].
    rewrite Hshape in Hk |- *.
    destruct (Number_parseInt_leading d rest Hd) as [-> _].
    now rewrite Hk, N.mul_0_l, N.add_0_l.
  - change (pretty (Z.neg x)) with ("-" +:+ pretty (N.pos x)).
    unfold pretty, pretty_N. rewrite decide_False by discriminate.
    destruct (pretty_N_go_leading (N.pos x) ltac:(lia) "") as (d & rest & Hd & Hshape).
    destruct (parseDigits_pretty_N_go (N.pos x) ltac:(lia) "" 0%N false) as [k Hk].
    rewrite Hshape in Hk |- *.
    change ("-" +:+ String (pretty_N_char d) rest)
      with (String "-" (String (pretty_N_char d) rest)).
    destruct (Number_parseInt_leading d rest Hd) as [_ ->].
    now rewrite Hk, N.mul_0_l, N.add_0_l.
Qed.


(** ** RouteComposer: selection and placement *)

(** The planner once the source [a] has been clicked and the
    destination is [destination]. *)
Lemma handleWaypointSelect_destination (waypointId a : Z) (destination : option Z)
    (input : string) (speed delay : R) (s : State) :
  userType s = Some admin ->
  fst (handleWaypointSelect waypointId s
         (mkPlanner (Some a) destination selectingDestination input speed delay))
  = mkPlanner (Some a)
      (if bool_decide (waypointId = a) then destination else Some waypointId)
      selectingDestination input speed delay.
Proof.
  intros Hadmin. unfold handleWaypointSelect, is_admin. rewrite Hadmin.
  cbn [isAdminType negb selectionMode selectedSourceWaypoint].
  destruct (decide (waypointId = a)) as [-> | Hne].
  - now rewrite !bool_decide_eq_true_2 by reflexivity.
  - now rewrite !bool_decide_eq_false_2 by congruence.
Qed.

(** X18: choosing the ends of a route.  After a reset, the first
    waypoint an admin clicks is the source and stays the source; the
    destination is the last waypoint clicked since that is not the
    source, if there is one.  So a chosen destination always comes with
    a different source; the other fields of the planner are not
    touched. *)
Theorem selection_after_reset (a : Z) (clicks : list Z) (s : State) (p : Planner) :
  userType s = Some admin ->
  let chosen := handleWaypointSelects (a :: clicks) s (resetSelection p) in
  selectedSourceWaypoint chosen = Some a /\
  selectedDestinationWaypoint chosen
    = last (List.filter (fun d => negb (Z.eqb d a)) clicks) /\
  selectionMode chosen = selectingDestination /\
  distinctEnds chosen /\
  vehicleIdInput chosen = vehicleIdInput p /\
  selectedVehicleSpeed chosen = selectedVehicleSpeed p /\
  selectedInitialDelay chosen = selectedInitialDelay p.
Proof.
  intros Hadmin chosen.
  assert (Hchosen : chosen =
            mkPlanner (Some a) (last (List.filter (fun d => negb (Z.eqb d a)) clicks))
              selectingDestination (vehicleIdInput p) (selectedVehicleSpeed p)
              (selectedInitialDelay p)).
  { unfold chosen, handleWaypointSelects.
    induction clicks as [|d clicks IH] using rev_ind.
    - cbn. unfold handleWaypointSelect, is_admin. now rewrite Hadmin.
    - change (a :: clicks ++ [d]) with ((a :: clicks) ++ [d]).
      rewrite foldl_app, IH. cbn [foldl].
      rewrite handleWaypointSelect_destination by exact Hadmin.
      rewrite List.filter_app. cbn [List.filter].
      destruct (Z.eqb_spec d a) as [-> | Hne].
      + rewrite bool_decide_eq_true_2 by reflexivity. cbn [negb].
        now rewrite app_nil_r.
      + rewrite bool_decide_eq_false_2 by exact Hne. cbn [negb].
        now rewrite last_snoc. }
  rewrite Hchosen. cbn. repeat split.
  intros destination Hlast. exists a. split; [reflexivity |].
  apply last_Some_elem_of in Hlast.
  rewrite list_elem_of_In, filter_In in Hlast. destruct Hlast as [_ Hne].
  apply negb_true_iff, Z.eqb_neq in Hne. congruence.
Qed.

Lemma selection_after_reset_witness :
  let chosen :=
    handleWaypointSelects [4; 4; 9; 12; 4]%Z emptySession (resetSelection readyPlanner) in
  selectedSourceWaypoint chosen = Some 4%Z /\
  selectedDestinationWaypoint chosen
    = last (List.filter (fun d => negb (Z.eqb d 4)) [4; 9; 12; 4]%Z) /\
  selectionMode chosen = selectingDestination /\
  distinctEnds chosen /\
  vehicleIdInput chosen = vehicleIdInput readyPlanner /\
  selectedVehicleSpeed chosen = selectedVehicleSpeed readyPlanner /\
  selectedInitialDelay chosen = selectedInitialDelay readyPlanner.
Proof.
  apply (selection_after_reset 4 [4; 9; 12; 4]%Z emptySession readyPlanner).
  reflexivity.
Defined.

Lemma find_none_elem_of {A : Type} (f : A -> bool) (l : list A) (x : A) :
  List.find f l = None -> x ∈ l -> f x = false.
Proof.
  intros Hnone Hx. apply list_elem_of_In in Hx.
  exact (find_none f l Hnone x Hx).
Qed.

Lemma findWaypoint_Some (waypoints : list Waypoint.t) (id : option Z) (w : Waypoint.t) :
  findWaypoint waypoints id = Some w -> w ∈ waypoints /\ id = Some (Waypoint.id w).
Proof.
  unfold findWaypoint. intros Hfound. apply find_some in Hfound as [Hin Hid].
  apply bool_decide_eq_true_1 in Hid. split; [now apply list_elem_of_In | congruence].
Qed.

(** X19: placing a vehicle keeps the roster well formed.  On a roster
    of at most ten vehicles with distinct ids, and with a backend that
    answers with the vehicle that was asked for, [placeVehicle] either
    leaves the session and the planner as they are, or appends one
    vehicle and resets the selection and the input.  The new vehicle
    is idle, has no kinematics, stands at the selected source, heads
    for the selected destination along the route of
    [calculateOptimalPath], and has the selected speed and delay; the
    roster still has at most ten vehicles with distinct ids. *)
Theorem placeVehicle_keeps_the_roster_well_formed
    (waypoints : list Waypoint.t) (response : FetchResult VehicleResponseDto.t)
    (s : State) (p : Planner) :
  NoDup (map Vehicle.id (vehicles s)) ->
  (length (vehicles s) <= 10)%nat ->
  (forall data dto,
     response = Fulfilled data -> VehicleResponseDto.vehicleDto data = Some dto ->
     Number_parseInt (vehicleIdInput p) = Some (VehicleDto.id dto)) ->
  let result := placeVehicle waypoints response s p in
  let s' := fst (fst result) in
  let p' := snd (fst result) in
  NoDup (map Vehicle.id (vehicles s')) /\
  (length (vehicles s') <= 10)%nat /\
  s' = setVehicles (vehicles s') s /\
  ((vehicles s' = vehicles s /\ p' = p) \/
   exists v sourceWaypoint destinationWaypoint,
     vehicles s' = vehicles s ++ [v] /\
     findWaypoint waypoints (selectedSourceWaypoint p) = Some sourceWaypoint /\
     findWaypoint waypoints (selectedDestinationWaypoint p) = Some destinationWaypoint /\
     Number_parseInt (vehicleIdInput p) = Some (Vehicle.id v) /\
     Vehicle.status v = Some "idle"%string /\
     Vehicle.simulationData v = None /\
     Vehicle.currentWaypoint v = Some (Waypoint.id sourceWaypoint) /\
     Vehicle.targetWaypoint v = Some (Waypoint.id destinationWaypoint) /\
     Vehicle.speed v = selectedVehicleSpeed p /\
     Vehicle.initialDelay v = selectedInitialDelay p /\
     Vehicle.plannedPath v
       = Some (calculateOptimalPath waypoints sourceWaypoint destinationWaypoint) /\
     p' = mkPlanner None None selectingSource "" (selectedVehicleSpeed p) 0).
Proof.
  intros Hdistinct Hlength Hbackend result s' p'.
  assert (Hsame : forall effects,
            result = (s, p, effects) ->
            NoDup (map Vehicle.id (vehicles s')) /\
            (length (vehicles s') <= 10)%nat /\
            s' = setVehicles (vehicles s') s /\
            ((vehicles s' = vehicles s /\ p' = p) \/
             exists v sourceWaypoint destinationWaypoint,
               vehicles s' = vehicles s ++ [v] /\
               findWaypoint waypoints (selectedSourceWaypoint p) = Some sourceWaypoint /\
               findWaypoint waypoints (selectedDestinationWaypoint p)
                 = Some destinationWaypoint /\
               Number_parseInt (vehicleIdInput p) = Some (Vehicle.id v) /\
               Vehicle.status v = Some "idle"%string /\
               Vehicle.simulationData v = None /\
               Vehicle.currentWaypoint v = Some (Waypoint.id sourceWaypoint) /\
               Vehicle.targetWaypoint v = Some (Waypoint.id destinationWaypoint) /\
               Vehicle.speed v = selectedVehicleSpeed p /\
               Vehicle.initialDelay v = selectedInitialDelay p /\
               Vehicle.plannedPath v
                 = Some (calculateOptimalPath waypoints sourceWaypoint
                           destinationWaypoint) /\
               p' = mkPlanner None None selectingSource "" (selectedVehicleSpeed p) 0)).
  { intros effects Hresult. unfold s', p'. rewrite Hresult. cbn [fst snd].
    split; [exact Hdistinct |]. split; [exact Hlength |].
    split; [now destruct s | left; split; reflexivity]. }
  unfold result, placeVehicle in *.
  destruct (negb (is_admin s)); [eapply Hsame; reflexivity |].
  destruct (negb _ || negb _ || String.eqb _ _); [eapply Hsame; reflexivity |].
  destruct (Nat.leb_spec 10 (length (vehicles s))) as [Hfull | Hroom];
    [eapply Hsame; reflexivity |].
  destruct (List.find _ (vehicles s)) as [placed|] eqn:Hplaced;
    [eapply Hsame; reflexivity |].
  unfold fetchVehicle in *.
  destruct response as [message | status text | data];
    [eapply Hsame; reflexivity | eapply Hsame; reflexivity |].
  destruct (VehicleResponseDto.vehicleDto data) as [dto|] eqn:Hdto;
    [| eapply Hsame; reflexivity].
  specialize (Hbackend data dto eq_refl Hdto).
  destruct (findWaypoint waypoints (selectedSourceWaypoint p))
    as [sourceWaypoint|] eqn:Hsource; [| eapply Hsame; reflexivity].
  destruct (findWaypoint waypoints (selectedDestinationWaypoint p))
    as [destinationWaypoint|] eqn:Hdestination; [| eapply Hsame; reflexivity].
  clear Hsame. unfold s', p'. cbn [fst snd setVehicles vehicles].
  apply findWaypoint_Some in Hsource as [_ Hsource].
  apply findWaypoint_Some in Hdestination as [_ Hdestination].
  split.
  { rewrite map_app. cbn [map withRoute Vehicle.id].
    apply NoDup_app. split; [exact Hdistinct |].
    split; [| apply NoDup_singleton].
    intros id Hid Hnew. apply list_elem_of_singleton in Hnew as ->.
    apply list_elem_of_fmap in Hid as (v & Hv & Hin).
    pose proof (find_none_elem_of _ _ v Hplaced Hin) as Hfresh.
    cbn beta in Hfresh. apply bool_decide_eq_false_1 in Hfresh.
    apply Hfresh. rewrite Hbackend. now f_equal. }
  split; [rewrite length_app; cbn [length]; lia |].
  split; [reflexivity |].
  right. eexists _, sourceWaypoint, destinationWaypoint.
  split; [reflexivity |]. split; [reflexivity |]. split; [reflexivity |].
  cbn [withRoute Vehicle.id Vehicle.status Vehicle.simulationData
       Vehicle.currentWaypoint Vehicle.targetWaypoint Vehicle.speed
       Vehicle.initialDelay Vehicle.plannedPath resetSelection
       vehicleIdInput selectedVehicleSpeed selectedInitialDelay].
  repeat split; assumption.
Qed.

Lemma placeVehicle_keeps_the_roster_well_formed_witness :
  let result := placeVehicle ISLAMABAD_WAYPOINTS corollaResponse emptySession
                             readyPlanner in
  let s' := fst (fst result) in
  let p' := snd (fst result) in
  NoDup (map Vehicle.id (vehicles s')) /\
  (length (vehicles s') <= 10)%nat /\
  s' = setVehicles (vehicles s') emptySession /\
  ((vehicles s' = vehicles emptySession /\ p' = readyPlanner) \/
   exists v sourceWaypoint destinationWaypoint,
     vehicles s' = vehicles emptySession ++ [v] /\
     findWaypoint ISLAMABAD_WAYPOINTS (selectedSourceWaypoint readyPlanner)
       = Some sourceWaypoint /\
     findWaypoint ISLAMABAD_WAYPOINTS (selectedDestinationWaypoint readyPlanner)
       = Some destinationWaypoint /\
     Number_parseInt (vehicleIdInput readyPlanner) = Some (Vehicle.id v) /\
     Vehicle.status v = Some "idle"%string /\
     Vehicle.simulationData v = None /\
     Vehicle.currentWaypoint v = Some (Waypoint.id sourceWaypoint) /\
     Vehicle.targetWaypoint v = Some (Waypoint.id destinationWaypoint) /\
     Vehicle.speed v = selectedVehicleSpeed readyPlanner /\
     Vehicle.initialDelay v = selectedInitialDelay readyPlanner /\
     Vehicle.plannedPath v
       = Some (calculateOptimalPath ISLAMABAD_WAYPOINTS sourceWaypoint
                 destinationWaypoint) /\
     p' = mkPlanner None None selectingSource ""
            (selectedVehicleSpeed readyPlanner) 0).
Proof.
  apply (placeVehicle_keeps_the_roster_well_formed ISLAMABAD_WAYPOINTS
           corollaResponse emptySession readyPlanner).
  - constructor.
  - cbn. lia.
  - intros data dto [= <-] [= <-]. reflexivity.
Defined.

(** ** Persistence: what is saved and what comes back *)

Lemma elem_of_addUsed (k : Z) (id : option Z) (used : gset Z) :
  k ∈ addUsed id used <-> (id = Some k /\ k <> 0%Z) \/ k ∈ used.
Proof.
  unfold addUsed. destruct id as [i|].
  - destruct (Z.eqb_spec i 0) as [-> | Hne].
    + split; [auto |]. intros [[[= <-] Hne] | Hin]; [now destruct Hne | exact Hin].
    + rewrite elem_of_union, elem_of_singleton. split.
      * intros [-> | Hin]; [left; now split | now right].
      * intros [[[= ->] _] | Hin]; [now left | now right].
  - split; [auto |]. intros [[Hid _] | Hin]; [discriminate | exact Hin].
Qed.

Lemma elem_of_addPathPoints (k : Z) (points : list PathPoint.t) (used : gset Z) :
  k ∈ foldl addPathPoint used points <->
  k ∈ used \/
  (k <> 0%Z /\ exists point, point ∈ points /\ isFlagged point = true /\
                             PathPoint.waypointId point = Some k).
Proof.
  revert used. induction points as [|point points IH]; intros used; cbn [foldl].
  - split; [auto |]. intros [Hin | (_ & point & Hpoint & _)]; [exact Hin |].
    now apply elem_of_nil in Hpoint.
  - rewrite IH. unfold addPathPoint at 1. fold (isFlagged point).
    destruct (isFlagged point) eqn:Hflag.
    + rewrite elem_of_addUsed. split.
      * intros [[[Hid Hne] | Hin] | (Hne & q & Hq & Hrest)]; [| now left |].
        -- right. split; [exact Hne |]. exists point.
           split; [apply list_elem_of_here | now split].
        -- right. split; [exact Hne |]. exists q.
           split; [now apply list_elem_of_further | exact Hrest].
      * intros [Hin | (Hne & q & Hq & Hflagged & Hid)]; [now left; right |].
        apply elem_of_cons in Hq as [-> | Hq].
        -- left; left. now split.
        -- right. split; [exact Hne |]. now exists q.
    + split.
      * intros [Hin | (Hne & q & Hq & Hrest)]; [now left |].
        right. split; [exact Hne |]. exists q.
        split; [now apply list_elem_of_further | exact Hrest].
      * intros [Hin | (Hne & q & Hq & Hflagged & Hid)]; [now left |].
        apply elem_of_cons in Hq as [-> | Hq]; [congruence |].
        right. split; [exact Hne |]. now exists q.
Qed.

Lemma elem_of_addVehicle (k : Z) (v : Vehicle.t) (used : gset Z) :
  k ∈ addVehicle used v <-> k ∈ used \/ (k <> 0%Z /\ usesWaypoint v k).
Proof.
  unfold addVehicle, usesWaypoint.
  rewrite elem_of_addPathPoints, !elem_of_addUsed. tauto.
Qed.

Lemma elem_of_usedWaypointIds (k : Z) (roster : list Vehicle.t) :
  k ∈ usedWaypointIds roster <->
  k <> 0%Z /\ exists v, v ∈ roster /\ usesWaypoint v k.
Proof.
  unfold usedWaypointIds.
  enough (Hfold : forall used,
            k ∈ foldl addVehicle used roster <->
            k ∈ used \/ (k <> 0%Z /\ exists v, v ∈ roster /\ usesWaypoint v k)).
  { rewrite Hfold. split; [| auto]. intros [Hin | Huses]; [| exact Huses].
    now apply elem_of_empty in Hin. }
  induction roster as [|v roster IH]; intros used; cbn [foldl].
  - split; [auto |]. intros [Hin | (_ & v & Hv & _)]; [exact Hin |].
    now apply elem_of_nil in Hv.
  - rewrite IH, elem_of_addVehicle. split.
    + intros [[Hin | [Hne Huses]] | (Hne & w & Hw & Huses)]; [now left | |].
      * right. split; [exact Hne |]. exists v. split; [apply list_elem_of_here | exact Huses].
      * right. split; [exact Hne |]. exists w.
        split; [now apply list_elem_of_further | exact Huses].
    + intros [Hin | (Hne & w & Hw & Huses)]; [now left; left |].
      apply elem_of_cons in Hw as [-> | Hw].
      * left; right. now split.
      * right. split; [exact Hne |]. now exists w.
Qed.

(** X20: what a save posts.  An admin with a roster that is not empty
    posts a request, whatever the backend answers.  Its vehicle list
    has one entry per vehicle of the roster, in order, with its id,
    speed and start delay.  Its waypoint list holds the coordinates of
    the waypoints of the component that some vehicle uses, those with
    the id 0 apart, in the order of the waypoint list and nothing
    else; the routes themselves are not part of the request. *)
Theorem saveSimulation_posts_the_used_waypoints
    (waypoints : list Waypoint.t) (response : FetchResult string) (s : State) :
  userType s = Some admin ->
  vehicles s <> [] ->
  exists used,
    fst (saveSimulation waypoints response s)
      = Some (SimulationRequest.mk (map toWayPointDto used)
                (map toVehicleInfoDto (vehicles s))) /\
    sublist used waypoints /\
    forall wp, wp ∈ used <->
               wp ∈ waypoints /\ Waypoint.id wp <> 0%Z /\
               exists v, v ∈ vehicles s /\ usesWaypoint v (Waypoint.id wp).
Proof.
  intros Hadmin Hroster. exists (usedWaypoints waypoints (vehicles s)).
  split; [| split].
  - unfold saveSimulation, is_admin. rewrite Hadmin. cbn [isAdminType negb].
    rewrite bool_decide_eq_false_2; [reflexivity |].
    intros Hlength. apply Hroster. now apply nil_length_inv.
  - unfold usedWaypoints. clear. induction waypoints as [|wp waypoints IH].
    + constructor.
    + cbn [List.filter]. destruct (bool_decide _);
        [now apply sublist_skip | now apply sublist_cons].
  - intros wp. unfold usedWaypoints.
    rewrite list_elem_of_In, filter_In, <- list_elem_of_In.
    rewrite bool_decide_eq_true, elem_of_usedWaypointIds. tauto.
Qed.

Lemma saveSimulation_posts_the_used_waypoints_witness :
  exists used,
    fst (saveSimulation ISLAMABAD_WAYPOINTS (Rejected "Failed to fetch")
           producerSession)
      = Some (SimulationRequest.mk (map toWayPointDto used)
                (map toVehicleInfoDto (vehicles producerSession))) /\
    sublist used ISLAMABAD_WAYPOINTS /\
    forall wp, wp ∈ used <->
               wp ∈ ISLAMABAD_WAYPOINTS /\ Waypoint.id wp <> 0%Z /\
               exists v, v ∈ vehicles producerSession /\
                         usesWaypoint v (Waypoint.id wp).
Proof.
  apply (saveSimulation_posts_the_used_waypoints ISLAMABAD_WAYPOINTS
           (Rejected "Failed to fetch") producerSession).
  - reflexivity.
  - discriminate.
Defined.

(** Settles the comparisons of [matchesRecord] on coordinates of the
    waypoint table. *)
Ltac settle_matches :=
  repeat match goal with
  | |- context [Rltb (Rabs ?x) ?y] =>
      first
        [ rewrite (Rltb_true (Rabs x) y)
            by (unfold Rabs; destruct (Rcase_abs _); lra)
        | rewrite (Rltb_false (Rabs x) y)
            by (unfold Rabs; destruct (Rcase_abs _); lra) ];
      cbn [andb]
  end.

Lemma matchedWaypoint_table :
  Forall (fun wp => matchedWaypoint (toWayPointDto wp) = Some (readBack wp))
         ISLAMABAD_WAYPOINTS.
Proof.
  unfold ISLAMABAD_WAYPOINTS.
  repeat apply Forall_cons_2; [.. | apply Forall_nil_2];
    unfold matchedWaypoint, ISLAMABAD_WAYPOINTS, matchesRecord, toWayPointDto,
      readBack, lokVirsaMuseum;
    cbn [List.find Waypoint.lat Waypoint.lng Waypoint.id WayPointDto.latitude
         WayPointDto.longitude Z.eqb Pos.eqb];
    settle_matches; reflexivity.
Qed.

(** X21: a saved waypoint and the waypoint that is read back.  The
    coordinates that a save stores for a waypoint of the table lead a
    load back to the same waypoint, with one exception: Shakarparian
    (11) has the coordinates of Lok Virsa Museum (4), which comes
    first in the table, and is read back as that one. *)
Theorem saved_waypoint_comes_back (wp : Waypoint.t) :
  wp ∈ ISLAMABAD_WAYPOINTS ->
  matchedWaypoint (toWayPointDto wp)
    = Some (if Z.eqb (Waypoint.id wp) 11 then lokVirsaMuseum else wp).
Proof.
  intros Hin. exact (proj1 (Forall_forall _ _) matchedWaypoint_table wp Hin).
Qed.

Lemma saved_waypoint_comes_back_witness :
  matchedWaypoint (toWayPointDto roseAndJasmineGarden)
    = Some (if Z.eqb (Waypoint.id roseAndJasmineGarden) 11
            then lokVirsaMuseum else roseAndJasmineGarden).
Proof.
  apply (saved_waypoint_comes_back roseAndJasmineGarden).
  apply list_elem_of_In. unfold ISLAMABAD_WAYPOINTS, roseAndJasmineGarden.
  cbn [In]. do 11 right. left. reflexivity.
Defined.

Lemma fetchVehicle_answered (data : VehicleResponseDto.t) (dto : VehicleDto.t)
    (p : Planner) :
  VehicleResponseDto.vehicleDto data = Some dto ->
  exists vehicle, fetchVehicle (Fulfilled data) p = (Some vehicle, []).
Proof. intros Hdto. unfold fetchVehicle. rewrite Hdto. eauto. Qed.

(** The vehicle that the loop of [loadSimulationRecord] pushes. *)
Lemma loadVehicle_Some (waypoints matched : list Waypoint.t) (p : Planner)
    (info : VehicleInfoDto.t) (response : FetchResult VehicleResponseDto.t)
    (v : Vehicle.t) :
  fst (loadVehicle waypoints matched p info response) = Some v ->
  exists source,
    matched !! 0%nat = Some source /\
    let target := default source (matched !! 1%nat) in
    Vehicle.id v = VehicleInfoDto.vehicle_id info /\
    Vehicle.speed v = VehicleInfoDto.speed info /\
    Vehicle.initialDelay v = VehicleInfoDto.initialDelay info /\
    Vehicle.status v = Some "idle"%string /\
    Vehicle.simulationData v = None /\
    Vehicle.currentWaypoint v = Some (Waypoint.id source) /\
    Vehicle.targetWaypoint v = Some (Waypoint.id target) /\
    Vehicle.plannedPath v
      = Some (if Z.eqb (Waypoint.id target) (Waypoint.id source)
              then [anchor source]
              else calculateOptimalPath waypoints source target).
Proof.
  unfold loadVehicle.
  destruct (fetchVehicle response p) as [[vehicle|] effects]; [| discriminate].
  destruct (matched !! 0%nat) as [source|] eqn:Hsource.
  - intros Hv. exists source. split; [reflexivity |].
    destruct (matched !! 1%nat) as [target|]; cbn [default fst] in *.
    + injection Hv as <-. cbn. repeat split.
      now destruct (Z.eqb (Waypoint.id target) (Waypoint.id source)).
    + injection Hv as <-. cbn. repeat split. now rewrite Z.eqb_refl.
  - destruct (matched !! 1%nat) as [target|] eqn:Htarget; [| discriminate].
    apply lookup_lt_Some in Htarget. apply lookup_ge_None in Hsource. lia.
Qed.

Lemma loadVehicle_answered (waypoints matched : list Waypoint.t) (p : Planner)
    (info : VehicleInfoDto.t) (data : VehicleResponseDto.t) (dto : VehicleDto.t) :
  matched <> [] ->
  VehicleResponseDto.vehicleDto data = Some dto ->
  exists v, fst (loadVehicle waypoints matched p info (Fulfilled data)) = Some v /\
            Vehicle.id v = VehicleInfoDto.vehicle_id info.
Proof.
  intros Hmatched Hdto. unfold loadVehicle.
  destruct (fetchVehicle_answered data dto p Hdto) as [vehicle ->].
  destruct matched as [|source matched]; [congruence |].
  cbn [lookup list_lookup]. destruct (matched !! 0%nat); cbn; eauto.
Qed.

(** The ids that come out of a loop that keeps some of the entries. *)
Lemma omap_imap_sublist {A B C E : Type} (f : nat -> A -> option B * E)
    (g : B -> C) (h : A -> C) (l : list A) :
  (forall i a b, fst (f i a) = Some b -> g b = h a) ->
  sublist (map g (omap fst (imap f l))) (map h l).
Proof.
  revert f. induction l as [|a l IH]; intros f Hkeeps; [constructor |].
  rewrite imap_cons. cbn [omap list_omap map].
  destruct (fst (f 0%nat a)) as [b|] eqn:Hb.
  - cbn [map]. rewrite (Hkeeps 0%nat a b Hb). apply sublist_skip.
    apply IH. intros i a' b'. apply (Hkeeps (S i)).
  - apply sublist_cons. apply IH. intros i a' b'. apply (Hkeeps (S i)).
Qed.

Lemma omap_imap_all {A B C E : Type} (f : nat -> A -> option B * E)
    (g : B -> C) (h : A -> C) (l : list A) :
  (forall i a, exists b, fst (f i a) = Some b /\ g b = h a) ->
  map g (omap fst (imap f l)) = map h l.
Proof.
  revert f. induction l as [|a l IH]; intros f Hall; [reflexivity |].
  rewrite imap_cons. cbn [omap list_omap map].
  destruct (Hall 0%nat a) as (b & -> & <-). cbn [map]. f_equal.
  apply IH. intros i a'. apply (Hall (S i)).
Qed.

(** X22: what a load puts on the map.  For an admin, loading a record
    stops the run and its loop and resets the selection.  The roster
    is replaced by vehicles of the record, in the order of the record:
    those whose request succeeded, or none if no waypoint of the record
    is matched.  Each one is idle, has no kinematics, and keeps the id,
    the speed and the start delay of its entry; but all of them stand
    at the first matched waypoint and head for the second, or for the
    first if there is no second, on the same route.  When every
    request succeeds and a waypoint is matched, every entry of the
    record comes back, however many there are. *)
Theorem loadSimulationRecord_places_all_on_one_route
    (waypoints : list Waypoint.t)
    (responses : nat -> FetchResult VehicleResponseDto.t)
    (record : SimulationRecord.t) (s : State) (p : Planner) :
  userType s = Some admin ->
  let result := loadSimulationRecord waypoints responses record s p in
  let s' := fst (fst result) in
  let matched := matchedWaypoints record in
  let entries := SimulationRecord.vehicles record in
  isSimulationRunning s' = false /\
  simulationInterval s' = None /\
  snd (fst result) = resetSelection p /\
  sublist (map Vehicle.id (vehicles s')) (map VehicleInfoDto.vehicle_id entries) /\
  (matched = [] -> vehicles s' = []) /\
  (matched <> [] ->
   (forall i, exists data dto,
      responses i = Fulfilled data /\
      VehicleResponseDto.vehicleDto data = Some dto) ->
   map Vehicle.id (vehicles s') = map VehicleInfoDto.vehicle_id entries) /\
  (forall v, v ∈ vehicles s' ->
     exists source info,
       matched !! 0%nat = Some source /\ info ∈ entries /\
       let target := default source (matched !! 1%nat) in
       Vehicle.id v = VehicleInfoDto.vehicle_id info /\
       Vehicle.speed v = VehicleInfoDto.speed info /\
       Vehicle.initialDelay v = VehicleInfoDto.initialDelay info /\
       Vehicle.status v = Some "idle"%string /\
       Vehicle.simulationData v = None /\
       Vehicle.currentWaypoint v = Some (Waypoint.id source) /\
       Vehicle.targetWaypoint v = Some (Waypoint.id target) /\
       Vehicle.plannedPath v
         = Some (if Z.eqb (Waypoint.id target) (Waypoint.id source)
                 then [anchor source]
                 else calculateOptimalPath waypoints source target)).
Proof.
  intros Hadmin result s' matched entries.
  subst s' result. unfold loadSimulationRecord, is_admin. rewrite Hadmin.
  cbn [isAdminType negb fst snd isSimulationRunning simulationInterval vehicles].
  fold matched entries.
  assert (Hin : forall v,
            v ∈ omap fst (imap (fun i info =>
                                  loadVehicle waypoints matched p info (responses i))
                               entries) ->
            exists i info, entries !! i = Some info /\
              fst (loadVehicle waypoints matched p info (responses i)) = Some v).
  { intros v Hv. apply list_elem_of_omap in Hv as (loaded & Hloaded & Hfst).
    apply elem_of_lookup_imap in Hloaded as (i & info & -> & Hinfo). eauto. }
  split; [reflexivity |]. split; [reflexivity |]. split; [reflexivity |].
  split; [| split; [| split]].
  - apply omap_imap_sublist. intros i info v Hv.
    apply loadVehicle_Some in Hv as (source & _ & Hid & _). exact Hid.
  - intros Hnone.
    destruct (omap fst _) as [|v roster] eqn:Hroster; [reflexivity |].
    destruct (Hin v) as (i & info & _ & Hv); [apply list_elem_of_here |].
    apply loadVehicle_Some in Hv as (source & Hsource & _).
    rewrite Hnone in Hsource. discriminate.
  - intros Hsome Hanswered. apply omap_imap_all. intros i info.
    destruct (Hanswered i) as (data & dto & -> & Hdto).
    exact (loadVehicle_answered waypoints matched p info data dto Hsome Hdto).
  - intros v Hv. destruct (Hin v Hv) as (i & info & Hinfo & Hloaded).
    apply loadVehicle_Some in Hloaded as (source & Hsource & Hfields).
    exists source, info. split; [exact Hsource |].
    split; [now apply list_elem_of_lookup_2 with i | exact Hfields].
Qed.

Lemma loadSimulationRecord_places_all_on_one_route_witness :
  let result :=
    loadSimulationRecord ISLAMABAD_WAYPOINTS (fun _ => corollaResponse)
      savedRecord producerSession readyPlanner in
  let s' := fst (fst result) in
  let matched := matchedWaypoints savedRecord in
  let entries := SimulationRecord.vehicles savedRecord in
  isSimulationRunning s' = false /\
  simulationInterval s' = None /\
  snd (fst result) = resetSelection readyPlanner /\
  sublist (map Vehicle.id (vehicles s')) (map VehicleInfoDto.vehicle_id entries) /\
  (matched = [] -> vehicles s' = []) /\
  (matched <> [] ->
   (forall i : nat, exists data dto,
      (fun _ : nat => corollaResponse) i = Fulfilled data /\
      VehicleResponseDto.vehicleDto data = Some dto) ->
   map Vehicle.id (vehicles s') = map VehicleInfoDto.vehicle_id entries) /\
  (forall v, v ∈ vehicles s' ->
     exists source info,
       matched !! 0%nat = Some source /\ info ∈ entries /\
       let target := default source (matched !! 1%nat) in
       Vehicle.id v = VehicleInfoDto.vehicle_id info /\
       Vehicle.speed v = VehicleInfoDto.speed info /\
       Vehicle.initialDelay v = VehicleInfoDto.initialDelay info /\
       Vehicle.status v = Some "idle"%string /\
       Vehicle.simulationData v = None /\
       Vehicle.currentWaypoint v = Some (Waypoint.id source) /\
       Vehicle.targetWaypoint v = Some (Waypoint.id target) /\
       Vehicle.plannedPath v
         = Some (if Z.eqb (Waypoint.id target) (Waypoint.id source)
                 then [anchor source]
                 else calculateOptimalPath ISLAMABAD_WAYPOINTS source target)).
Proof.
  apply (loadSimulationRecord_places_all_on_one_route ISLAMABAD_WAYPOINTS
           (fun _ => corollaResponse) savedRecord producerSession readyPlanner).
  reflexivity.
Defined.

(** ** Session: logging in and out *)

Lemma orS_stored (text : string) : orS (Some text) "" = text.
Proof. unfold orS, truthyS. now destruct text. Qed.

Lemma checkAuth_logged_out (localStorage : gmap string string) :
  localStorage !! "isLoggedIn"%string = None ->
  checkAuth localStorage = redirected "/welcome".
Proof. intros Hnone. unfold checkAuth. now rewrite Hnone. Qed.

(** X23: the session in the browser storage.  After a login that the
    backend accepts, [checkAuth] finds the session of that user type
    and email.  After a logout it sends the browser to the welcome
    page, whatever the storage held.  Login and logout touch no other
    key, and a logout after a login leaves the storage as a logout
    alone does; a login that fails leaves it as it was. *)
Theorem login_logout_round_trip (loginType : UserType) (loginEmail body : string)
    (localStorage : gmap string string) (s : State) :
  let loggedIn :=
    fst (fst (handleLogin loginType loginEmail (Fulfilled body) localStorage)) in
  let loggedOut (storage : gmap string string) : gmap string string :=
    fst (fst (fst (handleLogout storage s))) in
  checkAuth loggedIn = authenticated (loginTypeName loginType) loginEmail /\
  checkAuth (loggedOut localStorage) = redirected "/welcome" /\
  loggedOut loggedIn = loggedOut localStorage /\
  (forall key : string,
     key <> "isLoggedIn"%string -> key <> "userType"%string ->
     key <> "userEmail"%string ->
     loggedIn !! key = localStorage !! key /\
     loggedOut localStorage !! key = localStorage !! key) /\
  (forall failure : FetchResult string,
     (forall text, failure <> Fulfilled text) ->
     fst (fst (handleLogin loginType loginEmail failure localStorage)) = localStorage).
Proof.
  cbv zeta. unfold handleLogin, handleLogout. cbn [fst snd].
  split; [| split; [| split; [| split]]].
  - unfold checkAuth.
    rewrite lookup_insert_eq.
    rewrite (lookup_insert_ne _ "isLoggedIn"%string "userType"%string) by discriminate.
    rewrite (lookup_insert_ne _ "userEmail"%string "userType"%string) by discriminate.
    rewrite lookup_insert_eq.
    rewrite (lookup_insert_ne _ "isLoggedIn"%string "userEmail"%string) by discriminate.
    rewrite lookup_insert_eq.
    rewrite bool_decide_eq_true_2 by reflexivity.
    rewrite orS_stored. now destruct loginType.
  - apply checkAuth_logged_out.
    rewrite (lookup_delete_ne _ "userEmail"%string) by discriminate.
    rewrite (lookup_delete_ne _ "userType"%string) by discriminate.
    apply lookup_delete_eq.
  - apply map_eq. intros key.
    destruct (decide (key = "userEmail"%string)) as [-> | Hemail];
      [now rewrite !lookup_delete_eq |].
    rewrite !(lookup_delete_ne _ "userEmail"%string) by congruence.
    destruct (decide (key = "userType"%string)) as [-> | Htype];
      [now rewrite !lookup_delete_eq |].
    rewrite !(lookup_delete_ne _ "userType"%string) by congruence.
    destruct (decide (key = "isLoggedIn"%string)) as [-> | Hlogged];
      [now rewrite !lookup_delete_eq |].
    rewrite !(lookup_delete_ne _ "isLoggedIn"%string) by congruence.
    now rewrite !lookup_insert_ne by congruence.
  - intros key Hlogged Htype Hemail. split.
    + now rewrite !lookup_insert_ne by congruence.
    + now rewrite !lookup_delete_ne by congruence.
  - intros [message | status text | text] Hfailed; [reflexivity | reflexivity |].
    now destruct (Hfailed text).
Qed.

(** ** Notifications *)

(** Entries whose index is never [index] all pass the filter of
    [dismissNotification]. *)
Lemma filter_index_none {A : Type} (f : nat -> nat) (index : Z) (l : list A) :
  (forall i, Z.of_nat (f i) <> index) ->
  map snd (List.filter (fun entry => negb (Z.eqb (Z.of_nat (fst entry)) index))
                       (imap (fun i x => (f i, x)) l)) = l.
Proof.
  revert f. induction l as [|x l IH]; intros f Hnone; [reflexivity |].
  rewrite imap_cons. cbn [List.filter fst].
  destruct (Z.eqb_spec (Z.of_nat (f 0%nat)) index) as [Heq | _];
    [now destruct (Hnone 0%nat) |].
  cbn [negb map snd]. f_equal. apply (IH (f ∘ S)).
  intros i. apply Hnone.
Qed.

Lemma filter_index_delete {A : Type} (n k : nat) (l : list A) :
  map snd (List.filter
             (fun entry => negb (Z.eqb (Z.of_nat (fst entry)) (Z.of_nat (n + k))))
             (imap (fun i x => ((n + i)%nat, x)) l))
  = delete k l.
Proof.
  revert n k. induction l as [|x l IH]; intros n k; [reflexivity |].
  rewrite imap_cons. cbn [List.filter fst]. destruct k as [|k].
  - rewrite Z.eqb_refl. cbn [negb delete list_delete].
    apply (filter_index_none (fun i => (n + S i)%nat)). intros i. lia.
  - destruct (Z.eqb_spec (Z.of_nat (n + 0)) (Z.of_nat (n + S k))) as [Heq | _];
      [lia |].
    cbn [negb map snd delete list_delete]. f_equal.
    etransitivity; [| exact (IH (S n) k)].
    replace (n + S k)%nat with (S n + k)%nat by lia.
    do 2 f_equal. apply imap_ext. intros i y _. cbn. f_equal. lia.
Qed.

Lemma dismissNotification_delete (k : nat) (prev : list NotificationMessage.t) :
  dismissNotification (Z.of_nat k) prev = delete k prev.
Proof. exact (filter_index_delete 0 k prev). Qed.

(** X24: dismissing a notification card.  The popup shows the last
    three notifications at most, in order.  The card at position [i]
    shows the notification at [actualIndex], and dismissing it removes
    that notification and no other from the list; an index that is
    negative or beyond the list removes nothing. *)
Theorem dismiss_removes_the_card_shown (notifications : list NotificationMessage.t)
    (i : nat) :
  let visible := visibleNotifications notifications in
  let k := (length notifications - length visible + i)%nat in
  length visible = Nat.min 3 (length notifications) /\
  actualIndex notifications i = Z.of_nat k /\
  visible !! i = notifications !! k /\
  dismissNotification (actualIndex notifications i) notifications
    = delete k notifications /\
  (forall index : Z,
     (index < 0 \/ Z.of_nat (length notifications) <= index)%Z ->
     dismissNotification index notifications = notifications).
Proof.
  cbv zeta.
  assert (Hlength : length (visibleNotifications notifications)
                    = Nat.min 3 (length notifications)).
  { unfold visibleNotifications. rewrite length_drop. lia. }
  assert (Hindex : actualIndex notifications i
                   = Z.of_nat (length notifications
                               - length (visibleNotifications notifications) + i)).
  { unfold actualIndex. rewrite Hlength. lia. }
  split; [exact Hlength |]. split; [exact Hindex |]. split; [| split].
  - rewrite Hlength. unfold visibleNotifications. rewrite lookup_drop.
    f_equal. lia.
  - rewrite Hindex. apply dismissNotification_delete.
  - intros index [Hnegative | Hbeyond].
    + apply (filter_index_none (fun j => j)). intros j. lia.
    + rewrite <- (Z2Nat.id index) by lia.
      rewrite dismissNotification_delete.
      apply list_eq. intros j.
      destruct (Nat.lt_ge_cases j (Z.to_nat index)) as [Hlt | Hge].
      * now apply list_lookup_delete_lt.
      * rewrite list_lookup_delete_ge by exact Hge.
        rewrite !lookup_ge_None_2 by lia. reflexivity.
Qed.

(** ** Map: the vehicle markers *)

Lemma pretty_id_inj (a b : Z) : pretty a = pretty b -> a = b.
Proof.
  intros Hsame.
  pose proof (Number_parseInt_pretty a) as Ha.
  rewrite Hsame, Number_parseInt_pretty in Ha. congruence.
Qed.

Lemma drawVehicle_lookup (waypoints : list Waypoint.t) (layers : Layers)
    (v : Vehicle.t) (key : string) :
  vehicleMarkersRef (drawVehicle waypoints layers v) !! key
  = if bool_decide (key = pretty (Vehicle.id v))
    then drawn waypoints (vehicleMarkersRef layers) v
    else vehicleMarkersRef layers !! key.
Proof.
  unfold drawVehicle, drawn.
  destruct (vehiclePosition waypoints v) as [vehicleLat vehicleLng].
  cbn [fst snd].
  destruct (truthy vehicleLat && truthy vehicleLng); cbn [vehicleMarkersRef].
  - destruct (decide (key = pretty (Vehicle.id v))) as [-> | Hne].
    + rewrite bool_decide_eq_true_2, lookup_insert_eq by reflexivity.
      now destruct (vehicleMarkersRef layers !! pretty (Vehicle.id v)).
    + rewrite bool_decide_eq_false_2, lookup_insert_ne by congruence. reflexivity.
  - destruct (decide (key = pretty (Vehicle.id v))) as [-> | Hne].
    + now rewrite bool_decide_eq_true_2.
    + now rewrite bool_decide_eq_false_2.
Qed.

Lemma drawVehicles_other (waypoints : list Waypoint.t) (roster : list Vehicle.t)
    (layers : Layers) (key : string) :
  (forall w, w ∈ roster -> key <> pretty (Vehicle.id w)) ->
  vehicleMarkersRef (foldl (drawVehicle waypoints) layers roster) !! key
  = vehicleMarkersRef layers !! key.
Proof.
  revert layers. induction roster as [|w roster IH]; intros layers Hother;
    [reflexivity |].
  cbn [foldl]. rewrite IH.
  - rewrite drawVehicle_lookup, bool_decide_eq_false_2; [reflexivity |].
    apply Hother, list_elem_of_here.
  - intros w' Hw'. apply Hother. now apply list_elem_of_further.
Qed.

Lemma drawVehicles_lookup (waypoints : list Waypoint.t) (roster : list Vehicle.t)
    (layers : Layers) (v : Vehicle.t) :
  NoDup (map Vehicle.id roster) -> v ∈ roster ->
  vehicleMarkersRef (foldl (drawVehicle waypoints) layers roster)
    !! pretty (Vehicle.id v)
  = drawn waypoints (vehicleMarkersRef layers) v.
Proof.
  revert layers. induction roster as [|w roster IH]; intros layers Hdistinct Hv.
  - now apply elem_of_nil in Hv.
  - cbn [map] in Hdistinct. apply NoDup_cons in Hdistinct as [Hfresh Hdistinct].
    cbn [foldl]. apply elem_of_cons in Hv as [-> | Hv].
    + rewrite drawVehicles_other.
      * now rewrite drawVehicle_lookup, bool_decide_eq_true_2.
      * intros w' Hw' Hsame. apply pretty_id_inj in Hsame.
        apply Hfresh. rewrite Hsame. apply list_elem_of_fmap. now exists w'.
    + rewrite (IH _ Hdistinct Hv). unfold drawn.
      rewrite drawVehicle_lookup, bool_decide_eq_false_2; [reflexivity |].
      intros Hsame. apply pretty_id_inj in Hsame.
      apply Hfresh. rewrite <- Hsame. apply list_elem_of_fmap. now exists v.
Qed.

Lemma drawVehicles_canonical (waypoints : list Waypoint.t) (roster : list Vehicle.t)
    (layers : Layers) :
  canonical (vehicleMarkersRef layers) ->
  canonical (vehicleMarkersRef (foldl (drawVehicle waypoints) layers roster)).
Proof.
  revert layers. induction roster as [|w roster IH]; intros layers Hcanonical;
    [exact Hcanonical |].
  cbn [foldl]. apply IH. intros key marker.
  rewrite drawVehicle_lookup.
  destruct (decide (key = pretty (Vehicle.id w))) as [-> | Hne].
  - intros _. now exists (Vehicle.id w).
  - rewrite bool_decide_eq_false_2 by exact Hne. apply Hcanonical.
Qed.

Lemma onRoster_pretty (roster : list Vehicle.t) (id : Z) :
  onRoster roster (pretty id) = true <-> exists v, v ∈ roster /\ Vehicle.id v = id.
Proof.
  unfold onRoster. rewrite Number_parseInt_pretty. split.
  - destruct (List.find _ roster) as [v|] eqn:Hfound; [| discriminate].
    intros _. apply find_some in Hfound as [Hin Hid].
    apply bool_decide_eq_true_1 in Hid. exists v.
    split; [now apply list_elem_of_In | congruence].
  - intros (v & Hin & <-).
    destruct (List.find _ roster) as [w|] eqn:Hfound; [reflexivity |].
    pose proof (find_none_elem_of _ _ v Hfound Hin) as Hnone.
    cbn beta in Hnone. now rewrite bool_decide_eq_true_2 in Hnone.
Qed.

Lemma removeStale_lookup (roster : list Vehicle.t) (layers : Layers)
    (id : Z) (key : string) :
  vehicleMarkersRef (removeStale roster layers (pretty id)) !! key
  = if bool_decide (key = pretty id) && negb (onRoster roster (pretty id))
    then None else vehicleMarkersRef layers !! key.
Proof.
  unfold removeStale, onRoster. rewrite Number_parseInt_pretty.
  destruct (List.find _ roster) as [v|]; cbn [negb vehicleMarkersRef Number_toString].
  - now rewrite andb_false_r.
  - rewrite andb_true_r. destruct (decide (key = pretty id)) as [-> | Hne].
    + now rewrite bool_decide_eq_true_2, lookup_delete_eq.
    + now rewrite bool_decide_eq_false_2, lookup_delete_ne by congruence.
Qed.

Lemma removeStales_lookup (roster : list Vehicle.t) (keys : list string)
    (layers : Layers) (key : string) :
  (forall k, k ∈ keys -> exists id : Z, k = pretty id) ->
  vehicleMarkersRef (foldl (removeStale roster) layers keys) !! key
  = if bool_decide (key ∈ keys) && negb (onRoster roster key)
    then None else vehicleMarkersRef layers !! key.
Proof.
  revert layers. induction keys as [|k keys IH]; intros layers Hcanonical.
  - cbn [foldl]. rewrite bool_decide_eq_false_2; [reflexivity |].
    apply not_elem_of_nil.
  - cbn [foldl]. rewrite IH
      by (intros k' Hk'; apply Hcanonical; now apply list_elem_of_further).
    destruct (Hcanonical k (list_elem_of_here _ _)) as [id ->].
    rewrite removeStale_lookup.
    destruct (decide (key = pretty id)) as [-> | Hne].
    + rewrite (bool_decide_eq_true_2 (pretty id ∈ pretty id :: keys))
        by apply list_elem_of_here.
      rewrite (bool_decide_eq_true_2 (pretty id = pretty id)) by reflexivity.
      cbn [andb]. destruct (negb (onRoster roster (pretty id)));
        [now destruct (bool_decide _) | now rewrite andb_false_r].
    + rewrite (bool_decide_eq_false_2 (key = pretty id)) by exact Hne.
      cbn [andb].
      destruct (decide (key ∈ keys)) as [Hin | Hout].
      * rewrite !bool_decide_eq_true_2;
          [reflexivity | now apply list_elem_of_further | exact Hin].
      * rewrite !bool_decide_eq_false_2; [reflexivity | | exact Hout].
        intros Hin. apply elem_of_cons in Hin as [-> | Hin]; [now apply Hne | now apply Hout].
Qed.

(** The markers once the vehicle effect has run. *)
Lemma updateVehicleLayers_lookup (waypoints : list Waypoint.t)
    (roster : list Vehicle.t) (layers : Layers) (key : string) :
  canonical (vehicleMarkersRef layers) ->
  vehicleMarkersRef (updateVehicleLayers true waypoints roster layers) !! key
  = if onRoster roster key
    then vehicleMarkersRef (foldl (drawVehicle waypoints) layers roster) !! key
    else None.
Proof.
  intros Hcanonical. unfold updateVehicleLayers. cbn [negb].
  set (placed := foldl (drawVehicle waypoints) layers roster).
  assert (Hplaced : canonical (vehicleMarkersRef placed))
    by now apply drawVehicles_canonical.
  rewrite removeStales_lookup.
  - destruct (onRoster roster key); cbn [negb];
      [now rewrite andb_false_r | rewrite andb_true_r].
    destruct (vehicleMarkersRef placed !! key) as [marker|] eqn:Hmarker;
      [| now destruct (bool_decide _)].
    rewrite bool_decide_eq_true_2; [reflexivity |].
    apply list_elem_of_fmap. exists (key, marker).
    split; [reflexivity | now apply elem_of_map_to_list].
  - intros k Hk. apply list_elem_of_fmap in Hk as ([k' marker] & -> & Hk).
    apply elem_of_map_to_list in Hk. exact (Hplaced k' marker Hk).
Qed.

Lemma updateVehicleLayers_canonical (waypoints : list Waypoint.t)
    (roster : list Vehicle.t) (layers : Layers) :
  canonical (vehicleMarkersRef layers) ->
  canonical (vehicleMarkersRef (updateVehicleLayers true waypoints roster layers)).
Proof.
  intros Hcanonical key marker.
  rewrite updateVehicleLayers_lookup by exact Hcanonical.
  destruct (onRoster roster key); [| discriminate].
  apply drawVehicles_canonical, Hcanonical.
Qed.

Lemma layersAfter_canonical (waypoints : list Waypoint.t)
    (rosters : list (list Vehicle.t)) :
  canonical (vehicleMarkersRef (layersAfter waypoints rosters)).
Proof.
  unfold layersAfter. induction rosters as [|roster rosters IH] using rev_ind.
  - intros key marker. cbn. now rewrite lookup_empty.
  - rewrite foldl_app. cbn [foldl]. now apply updateVehicleLayers_canonical.
Qed.

(** X25: the vehicle markers follow the roster.  Whatever rosters the
    map has shown before, after the effect has run for a roster with
    distinct ids every marker belongs to a vehicle of that roster.  A
    vehicle of the roster whose position is usable has its marker at
    that position, with the icon of its present status and heading;
    but the popup of a marker that was there before is the one it was
    created with.  A vehicle whose position is not usable keeps the
    marker it had, if any. *)
Theorem markers_follow_the_roster (waypoints : list Waypoint.t)
    (rosters : list (list Vehicle.t)) (roster : list Vehicle.t) :
  NoDup (map Vehicle.id roster) ->
  let before := vehicleMarkersRef (layersAfter waypoints rosters) in
  let after := vehicleMarkersRef (layersAfter waypoints (rosters ++ [roster])) in
  (forall key marker,
     after !! key = Some marker ->
     exists v, v ∈ roster /\ key = pretty (Vehicle.id v)) /\
  (forall v, v ∈ roster ->
     let position := vehiclePosition waypoints v in
     let key := pretty (Vehicle.id v) in
     after !! key
     = if truthy (fst position) && truthy (snd position)
       then Some (mkMarker position (vehicleMarkerIcon v)
                    (match before !! key with
                     | Some existingMarker => marker_popup existingMarker
                     | None => v
                     end))
       else before !! key).
Proof.
  intros Hdistinct before after.
  pose proof (layersAfter_canonical waypoints rosters) as Hcanonical.
  assert (Hafter : forall key,
            after !! key
            = if onRoster roster key
              then vehicleMarkersRef
                     (foldl (drawVehicle waypoints) (layersAfter waypoints rosters)
                            roster) !! key
              else None).
  { intros key. unfold after, layersAfter. rewrite foldl_app. cbn [foldl].
    now apply updateVehicleLayers_lookup. }
  split.
  - intros key marker Hmarker. rewrite Hafter in Hmarker.
    destruct (onRoster roster key) eqn:Hkept; [| discriminate].
    apply drawVehicles_canonical in Hmarker as [id ->]; [| exact Hcanonical].
    apply onRoster_pretty in Hkept as (v & Hv & <-). now exists v.
  - intros v Hv position key. rewrite Hafter.
    replace (onRoster roster key) with true
      by (symmetry; apply onRoster_pretty; now exists v).
    unfold key. rewrite drawVehicles_lookup by assumption. reflexivity.
Qed.

Lemma markers_follow_the_roster_witness :
  let before :=
    vehicleMarkersRef (layersAfter ISLAMABAD_WAYPOINTS [[readyVehicle]]) in
  let after :=
    vehicleMarkersRef
      (layersAfter ISLAMABAD_WAYPOINTS
                   ([[readyVehicle]] ++ [[sampleVehicle; otherVehicle]])) in
  (forall key marker,
     after !! key = Some marker ->
     exists v, v ∈ [sampleVehicle; otherVehicle] /\ key = pretty (Vehicle.id v)) /\
  (forall v, v ∈ [sampleVehicle; otherVehicle] ->
     let position := vehiclePosition ISLAMABAD_WAYPOINTS v in
     let key := pretty (Vehicle.id v) in
     after !! key
     = if truthy (fst position) && truthy (snd position)
       then Some (mkMarker position (vehicleMarkerIcon v)
                    (match before !! key with
                     | Some existingMarker => marker_popup existingMarker
                     | None => v
                     end))
       else before !! key).
Proof.
  apply (markers_follow_the_roster ISLAMABAD_WAYPOINTS [[readyVehicle]]
           [sampleVehicle; otherVehicle]).
  cbn [map sampleVehicle otherVehicle Vehicle.id].
  apply NoDup_cons. split; [| apply NoDup_singleton].
  intros Hin. apply list_elem_of_singleton in Hin. discriminate.
Defined.

(** ** Persistence: a saved roster that is loaded again *)

Lemma matchedWaypoints_saved (used : list Waypoint.t) :
  (forall wp, wp ∈ used -> wp ∈ ISLAMABAD_WAYPOINTS) ->
  omap matchedWaypoint (map toWayPointDto used) = map readBack used.
Proof.
  induction used as [|wp used IH]; intros Htable; [reflexivity |].
  cbn [map omap list_omap].
  rewrite (proj1 (Forall_forall _ _) matchedWaypoint_table wp)
    by apply Htable, list_elem_of_here.
  f_equal. apply IH. intros wp' Hwp'. now apply Htable, list_elem_of_further.
Qed.

Lemma usedWaypoints_table (waypoints : list Waypoint.t) (roster : list Vehicle.t)
    (wp : Waypoint.t) :
  wp ∈ usedWaypoints waypoints roster -> wp ∈ waypoints.
Proof.
  unfold usedWaypoints. rewrite !list_elem_of_In, filter_In. tauto.
Qed.

Lemma loadVehicle_entry (waypoints matched : list Waypoint.t) (p : Planner)
    (info : VehicleInfoDto.t) (data : VehicleResponseDto.t) (dto : VehicleDto.t) :
  matched <> [] ->
  VehicleResponseDto.vehicleDto data = Some dto ->
  exists v, fst (loadVehicle waypoints matched p info (Fulfilled data)) = Some v /\
            toVehicleInfoDto v = info.
Proof.
  intros Hmatched Hdto.
  destruct (loadVehicle_answered waypoints matched p info data dto Hmatched Hdto)
    as (v & Hv & _).
  exists v. split; [exact Hv |].
  apply loadVehicle_Some in Hv as (source & _ & Hid & Hspeed & Hdelay & _).
  unfold toVehicleInfoDto. rewrite Hid, Hspeed, Hdelay. now destruct info.
Qed.

(** X26: saving a roster and loading it again.  Let an admin save a
    roster, let the backend hand the request back as a record, and let
    every request for a vehicle succeed.  The waypoints that the load
    matches are the used waypoints of the table in table order, with
    Shakarparian read back as Lok Virsa Museum.  If no waypoint is
    used the roster comes back empty.  Otherwise the vehicles come
    back in order with their ids, speeds and start delays, but not
    with their routes: each one stands idle at the first used waypoint
    and heads for the second, or for the first if there is no
    second. *)
Theorem saved_roster_comes_back_on_one_route
    (response : FetchResult string)
    (responses : nat -> FetchResult VehicleResponseDto.t)
    (request : SimulationRequest.t) (record : SimulationRecord.t)
    (s : State) (p : Planner) :
  userType s = Some admin ->
  fst (saveSimulation ISLAMABAD_WAYPOINTS response s) = Some request ->
  SimulationRecord.vehicles record = SimulationRequest.vi request ->
  SimulationRecord.waypoints record = SimulationRequest.wp request ->
  (forall i, exists data dto,
     responses i = Fulfilled data /\
     VehicleResponseDto.vehicleDto data = Some dto) ->
  let s' := fst (fst (loadSimulationRecord ISLAMABAD_WAYPOINTS responses record s p)) in
  let used := usedWaypoints ISLAMABAD_WAYPOINTS (vehicles s) in
  matchedWaypoints record = map readBack used /\
  (used = [] -> vehicles s' = []) /\
  (forall first, head used = Some first ->
     let second := default first (used !! 1%nat) in
     map toVehicleInfoDto (vehicles s') = map toVehicleInfoDto (vehicles s) /\
     forall v, v ∈ vehicles s' ->
       Vehicle.currentWaypoint v = Some (Waypoint.id (readBack first)) /\
       Vehicle.targetWaypoint v = Some (Waypoint.id (readBack second)) /\
       Vehicle.status v = Some "idle"%string /\
       Vehicle.simulationData v = None).
Proof.
  intros Hadmin Hsaved Hvehicles Hwaypoints Hanswered s' used.
  assert (Hrequest : request = simulationRequest ISLAMABAD_WAYPOINTS (vehicles s)).
  { unfold saveSimulation, is_admin in Hsaved. rewrite Hadmin in Hsaved.
    cbn [isAdminType negb] in Hsaved.
    destruct (bool_decide (length (vehicles s) = 0%nat)); [discriminate |].
    cbn [fst] in Hsaved. congruence. }
  assert (Hmatched : matchedWaypoints record = map readBack used).
  { unfold matchedWaypoints. rewrite Hwaypoints, Hrequest.
    cbn [simulationRequest SimulationRequest.wp].
    apply matchedWaypoints_saved. intros wp. apply usedWaypoints_table. }
  assert (Hroster : vehicles s'
            = omap fst (imap (fun i info =>
                                loadVehicle ISLAMABAD_WAYPOINTS (map readBack used) p
                                            info (responses i))
                             (map toVehicleInfoDto (vehicles s)))).
  { subst s'. unfold loadSimulationRecord, is_admin. rewrite Hadmin.
    cbn [isAdminType negb fst vehicles].
    rewrite Hmatched, Hvehicles, Hrequest. reflexivity. }
  split; [exact Hmatched |]. split.
  - intros Hnone. rewrite Hroster.
    destruct (omap fst _) as [|v roster] eqn:Hloaded; [reflexivity |].
    assert (Hv : v ∈ v :: roster) by apply list_elem_of_here.
    rewrite <- Hloaded in Hv.
    apply list_elem_of_omap in Hv as (loaded & Hin & Hfst).
    apply elem_of_lookup_imap in Hin as (i & info & -> & _).
    apply loadVehicle_Some in Hfst as (source & Hsource & _).
    rewrite Hnone in Hsource. discriminate.
  - intros first Hfirst second.
    destruct used as [|first' rest] eqn:Hused; [discriminate |].
    injection Hfirst as ->.
    split.
    + rewrite Hroster.
      rewrite <- (map_id (map toVehicleInfoDto (vehicles s))) at 2.
      apply omap_imap_all. intros i info.
      destruct (Hanswered i) as (data & dto & -> & Hdto).
      now apply (loadVehicle_entry _ _ p info data dto).
    + intros v Hv. rewrite Hroster in Hv.
      apply list_elem_of_omap in Hv as (loaded & Hin & Hfst).
      apply elem_of_lookup_imap in Hin as (i & info & -> & _).
      apply loadVehicle_Some in Hfst as (source & Hsource & Hfields).
      cbn [map lookup list_lookup] in Hsource. injection Hsource as <-.
      destruct Hfields as (_ & _ & _ & Hstatus & Hdata & Hcurrent & Htarget & _).
      split; [exact Hcurrent |]. split; [| now split].
      rewrite Htarget. unfold second. cbn [map lookup list_lookup].
      now destruct rest.
Qed.

Lemma saved_roster_comes_back_on_one_route_witness :
  let s' :=
    fst (fst (loadSimulationRecord ISLAMABAD_WAYPOINTS (fun _ => corollaResponse)
                savedRecord producerSession readyPlanner)) in
  let used := usedWaypoints ISLAMABAD_WAYPOINTS (vehicles producerSession) in
  matchedWaypoints savedRecord = map readBack used /\
  (used = [] -> vehicles s' = []) /\
  (forall first, head used = Some first ->
     let second := default first (used !! 1%nat) in
     map toVehicleInfoDto (vehicles s')
       = map toVehicleInfoDto (vehicles producerSession) /\
     forall v, v ∈ vehicles s' ->
       Vehicle.currentWaypoint v = Some (Waypoint.id (readBack first)) /\
       Vehicle.targetWaypoint v = Some (Waypoint.id (readBack second)) /\
       Vehicle.status v = Some "idle"%string /\
       Vehicle.simulationData v = None).
Proof.
  apply (saved_roster_comes_back_on_one_route (Fulfilled "saved"%string)
           (fun _ => corollaResponse)
           (simulationRequest ISLAMABAD_WAYPOINTS (vehicles producerSession))
           savedRecord producerSession readyPlanner).
  - reflexivity.
  - reflexivity.
  - reflexivity.
  - vm_compute. reflexivity.
  - intros i. eexists _, _. split; reflexivity.
Defined.

(** * The engine on the whole roster *)

(** One firing of a live loop on a roster without empty paths: it
    returns, it keeps the loop and the paths, and it runs
    [tickVehicle] on every vehicle with what the loop captured. *)
Lemma tick_fires (currentTime random : R) (s : State) (loop : Loop) :
  simulationInterval s = Some loop ->
  Forall (fun v => Vehicle.plannedPath v <> Some []) (vehicles s) ->
  exists s' effects,
    tick currentTime random s = Some (s', effects) /\
    simulationInterval s' = Some loop /\
    Forall (fun v => Vehicle.plannedPath v <> Some []) (vehicles s') /\
    forall i v,
      vehicles s !! i = Some v ->
      exists v' emitted,
        tickVehicle (loop_fromStart loop) (loop_wsConnected loop)
                    (loop_playbackSpeed loop) currentTime v = Some (v', emitted) /\
        vehicles s' !! i = Some v' /\
        forall e, e ∈ emitted -> e ∈ effects.
Proof.
  intros Hloop Hpaths. unfold tick. rewrite Hloop.
  assert (Hsome : is_Some (mapM (M := option)
                    (tickVehicle (loop_fromStart loop) (loop_wsConnected loop)
                                 (loop_playbackSpeed loop) currentTime)
                    (vehicles s))).
  { apply mapM_is_Some_2. eapply Forall_impl; [exact Hpaths |].
    intros v Hv. now apply tickVehicle_sameIdentity. }
  destruct Hsome as [results Hresults]. rewrite Hresults.
  apply mapM_Some_1 in Hresults.
  cbn [mbind option_bind]. eexists _, _. split; [reflexivity |].
  cbn [simulationInterval vehicles]. split; [reflexivity |]. split.
  - apply Forall_lookup. intros i v' Hv'.
    rewrite list_lookup_fmap in Hv'.
    destruct (results !! i) as [[w emitted]|] eqn:Hresult; [| discriminate].
    injection Hv' as <-.
    destruct (Forall2_lookup_r _ _ _ _ _ Hresults Hresult) as (v & Hv & Htick).
    pose proof (proj2 (tickVehicle_sameIdentity _ _ _ _ _) _ _ Htick) as Hsame.
    destruct Hsame as (_ & _ & _ & _ & _ & _ & _ & _ & Hpath). cbn [fst].
    rewrite Hpath. exact (proj1 (Forall_lookup _ _) Hpaths i v Hv).
  - intros i v Hv.
    destruct (Forall2_lookup_l _ _ _ _ _ Hresults Hv) as ([v' emitted] & Hresult & Htick).
    exists v', emitted. split; [exact Htick |]. split.
    + now rewrite list_lookup_fmap, Hresult.
    + intros e He. apply elem_of_app. left.
      apply list_elem_of_In, in_concat. exists emitted. split.
      * apply in_map_iff. exists (v', emitted). split; [reflexivity |].
        apply list_elem_of_In. now apply list_elem_of_lookup_2 with i.
      * now apply list_elem_of_In.
Qed.

(** The session that [startSimulation] leaves for an admin with a
    roster. *)
Lemma startSimulation_started (currentTime : R) (random : nat -> R) (s : State) :
  userType s = Some admin ->
  vehicles s <> [] ->
  fst (startSimulation currentTime random s)
  = mkState (userType s) (wsConnected s)
      (imap (fun i vehicle => initializeVehicle currentTime (random i) vehicle)
            (vehicles s))
      true (isPaused s) (playbackSpeed s) (isReceivingSimulation s)
      (Some (mkLoop true (playbackSpeed s) (wsConnected s) (userType s))).
Proof.
  intros Hadmin Hroster. unfold startSimulation, is_admin. rewrite Hadmin.
  cbn [isAdminType negb].
  rewrite bool_decide_eq_false_2; [reflexivity |].
  intros Hlength. now apply Hroster, nil_length_inv.
Qed.

Lemma tickAt_app (firings firings' : list (R * R)) (s : State) :
  tickAt (firings ++ firings') s = tickAt firings s ≫= tickAt firings'.
Proof.
  revert s. induction firings as [|[t r] firings IH]; intros s; [reflexivity |].
  cbn [app tickAt]. destruct (tick t r s) as [[s' effects]|]; [apply IH | reflexivity].
Qed.

(** Firings that all come before the delay has elapsed leave the
    vehicle at index [i] delayed. *)
Lemma tickAt_still_delayed (t0 d : R) (i : nat) (loop : Loop)
    (firings : list (R * R)) (s : State) (v : Vehicle.t) :
  t0 <> 0 ->
  simulationInterval s = Some loop ->
  Forall (fun v => Vehicle.plannedPath v <> Some []) (vehicles s) ->
  vehicles s !! i = Some v ->
  delayedSince t0 d v ->
  Forall (fun firing => fst firing - t0 < d * 1000) firings ->
  exists s' v',
    tickAt firings s = Some s' /\
    simulationInterval s' = Some loop /\
    Forall (fun v => Vehicle.plannedPath v <> Some []) (vehicles s') /\
    vehicles s' !! i = Some v' /\
    delayedSince t0 d v'.
Proof.
  intros Ht0. revert s v.
  induction firings as [|[t r] firings IH]; intros s v Hloop Hpaths Hv Hdelayed Hall.
  - exists s, v. split; [reflexivity |]. split; [exact Hloop |].
    split; [exact Hpaths |]. split; assumption.
  - apply Forall_cons in Hall as [Ht Hall]. cbn [fst] in Ht.
    destruct (tick_fires t r s loop Hloop Hpaths)
      as (s1 & effects & Htick & Hloop1 & Hpaths1 & Heach).
    destruct (Heach i v Hv) as (v1 & emitted & Hvehicle & Hv1 & _).
    destruct (tickVehicle_still_delayed (loop_fromStart loop) (loop_wsConnected loop)
                (loop_playbackSpeed loop) t0 d t v Ht0 Hdelayed Ht)
      as (v1' & Hvehicle' & Hdelayed1 & _).
    rewrite Hvehicle in Hvehicle'. injection Hvehicle' as <- _.
    cbn [tickAt]. rewrite Htick. now apply (IH s1 v1).
Qed.

(** C2: the start of a run, vehicle by vehicle.  Let an admin start a
    run at [now] on a roster without empty paths.  A vehicle of the
    roster with a path and no start delay is MOVING in the started
    session, with [startTime = now].  One with a start delay of
    [d > 0] seconds is DELAYED with [delayStartTime = now]; it is
    still DELAYED after every firing of the loop that comes less than
    [d] seconds after [now], its label then showing the remaining
    seconds rounded up, and it is MOVING after the first firing that
    comes [d] seconds after [now] or later, with [startTime] the time
    of that firing.  The clock reads a time after the epoch. *)
Theorem delayed_start
    (now : R) (random : nat -> R) (s : State) (i : nat)
    (vehicle : Vehicle.t) (first : PathPoint.t) (rest : list PathPoint.t) :
  userType s = Some admin ->
  Forall (fun v => Vehicle.plannedPath v <> Some []) (vehicles s) ->
  vehicles s !! i = Some vehicle ->
  Vehicle.plannedPath vehicle = Some (first :: rest) ->
  0 < now ->
  let started := fst (startSimulation now random s) in
  let d := Vehicle.initialDelay vehicle in
  isSimulationRunning started = true /\
  (d = 0 ->
   exists v, vehicles started !! i = Some v /\ movingSince now v) /\
  (0 < d ->
   (exists v, vehicles started !! i = Some v /\ delayedSince now d v) /\
   forall firings t r,
     Forall (fun firing => fst firing - now < d * 1000) firings ->
     (t - now < d * 1000 ->
      exists s' v,
        tickAt (firings ++ [(t, r)]) started = Some s' /\
        vehicles s' !! i = Some v /\
        delayedSince now d v /\
        showsRemaining ((d * 1000 - (t - now)) / 1000) v) /\
     (d * 1000 <= t - now ->
      exists s' v,
        tickAt (firings ++ [(t, r)]) started = Some s' /\
        vehicles s' !! i = Some v /\
        movingSince t v)).
Proof.
  intros Hadmin Hpaths Hvehicle Hpath Hnow started d.
  assert (Hnow0 : now <> 0) by lra.
  assert (Hroster : vehicles s <> []).
  { intros Hnil. rewrite Hnil in Hvehicle. discriminate. }
  pose proof (startSimulation_started now random s Hadmin Hroster) as Hstarted.
  fold started in Hstarted.
  set (loop := mkLoop true (playbackSpeed s) (wsConnected s) (userType s)) in *.
  assert (Hloop : simulationInterval started = Some loop) by now rewrite Hstarted.
  assert (Hi : vehicles started !! i
               = Some (initializeVehicle now (random i) vehicle)).
  { rewrite Hstarted. cbn [vehicles]. now rewrite list_lookup_imap, Hvehicle. }
  assert (Hpaths' : Forall (fun v => Vehicle.plannedPath v <> Some [])
                           (vehicles started)).
  { rewrite Hstarted. cbn [vehicles]. apply Forall_lookup. intros j v Hv.
    rewrite list_lookup_imap in Hv.
    destruct (vehicles s !! j) as [w|] eqn:Hw; [| discriminate].
    injection Hv as <-.
    destruct (initializeVehicle_sameIdentity now (random j) w)
      as (_ & _ & _ & _ & _ & _ & _ & _ & Hsame).
    rewrite Hsame. exact (proj1 (Forall_lookup _ _) Hpaths j w Hw). }
  destruct (initializeVehicle_delayed_start true true 1 now (random i) vehicle
              first rest Hpath Hnow) as [Hmoving Hdelayed].
  split; [now rewrite Hstarted |]. split.
  - intros Hd. eexists. split; [exact Hi |]. now apply Hmoving.
  - intros Hd. destruct (Hdelayed Hd) as [Hsince _]. fold d in Hsince.
    split; [eexists; split; [exact Hi | exact Hsince] |].
    intros firings t r Hall.
    destruct (tickAt_still_delayed now d i loop firings started _ Hnow0 Hloop
                Hpaths' Hi Hsince Hall)
      as (s1 & v1 & Hrun & Hloop1 & Hpaths1 & Hv1 & Hdelayed1).
    destruct (tick_fires t r s1 loop Hloop1 Hpaths1)
      as (s2 & effects & Htick & _ & _ & Heach).
    destruct (Heach i v1 Hv1) as (v2 & emitted & Hvehicle2 & Hv2 & _).
    assert (Hlast : tickAt (firings ++ [(t, r)]) started = Some s2).
    { rewrite tickAt_app, Hrun. cbn [mbind option_bind tickAt]. now rewrite Htick. }
    split; intros Ht.
    + destruct (tickVehicle_still_delayed (loop_fromStart loop)
                  (loop_wsConnected loop) (loop_playbackSpeed loop) now d t v1
                  Hnow0 Hdelayed1 Ht) as (v2' & Htick' & Hdelayed2 & Hlabel).
      rewrite Hvehicle2 in Htick'. injection Htick' as <- _.
      now exists s2, v2.
    + destruct (tickVehicle_delay_elapsed (loop_fromStart loop)
                  (loop_wsConnected loop) (loop_playbackSpeed loop) now d t v1
                  Hnow0 Hdelayed1 Ht) as (v2' & effects' & Htick' & Hmoving2).
      rewrite Hvehicle2 in Htick'. injection Htick' as <- _.
      now exists s2, v2.
Qed.

(** The scenario of a vehicle placed with a delay of ten seconds, in a
    run that starts at the instant 1000. *)
Lemma delayed_start_witness :
  let started := fst (startSimulation 1000 (fun _ => 0.5) placedSession) in
  let d := Vehicle.initialDelay placedVehicle in
  isSimulationRunning started = true /\
  (d = 0 ->
   exists v, vehicles started !! 0%nat = Some v /\ movingSince 1000 v) /\
  (0 < d ->
   (exists v, vehicles started !! 0%nat = Some v /\ delayedSince 1000 d v) /\
   forall firings t r,
     Forall (fun firing => fst firing - 1000 < d * 1000) firings ->
     (t - 1000 < d * 1000 ->
      exists s' v,
        tickAt (firings ++ [(t, r)]) started = Some s' /\
        vehicles s' !! 0%nat = Some v /\
        delayedSince 1000 d v /\
        showsRemaining ((d * 1000 - (t - 1000)) / 1000) v) /\
     (d * 1000 <= t - 1000 ->
      exists s' v,
        tickAt (firings ++ [(t, r)]) started = Some s' /\
        vehicles s' !! 0%nat = Some v /\
        movingSince t v)).
Proof.
  apply (delayed_start 1000 (fun _ => 0.5) placedSession 0 placedVehicle
           (anchor lokVirsaMuseum)
           (interpolate (anchor lokVirsaMuseum) (anchor roseAndJasmineGarden) 5 1 4
            ++ [anchor roseAndJasmineGarden])).
  - reflexivity.
  - repeat constructor. discriminate.
  - reflexivity.
  - reflexivity.
  - lra.
Defined.


